(** * useBottomSheet: snap model, gesture engine, lifecycle and keydown registry

    A shallow embedding of [src/useBottomSheet.ts].

    Conventions of the embedding.

    - A JavaScript [number] in the engine state is a rational [Q]: a
      finite value, with exact arithmetic.  The local [dmin = Infinity] of
      the nearest-snap loops is an [option Q] whose [None] is [Infinity].
      Where the source divides, the divisor is either guarded by the source
      itself ([h ? ... : 0], [... || 1]) or required to be non-zero by the
      theorem that uses it.
    - Where a property depends on what lies outside the finite values or
      on rounding, the functions it reads are embedded a second time.
      [Num] adds [NaN] and the infinities, for the numbers a caller passes
      in (snap points, the index of [snapToIndex]) and for the offset the
      view draws.  The functions of section [Rounded] take the rounding of
      the arithmetic as a parameter: the identity gives the exact engine,
      [rnd64] the binary64 arithmetic of the program.
    - Vue refs and closure variables of one [useBottomSheet] call are the
      fields of the record [Sheet]; the module-level [let STACK_COUNT] is
      threaded explicitly, because every instance shares it.
    - [events.emit] appends to the field [events]; the newest event is last.
    - [requestAnimationFrame], [setTimeout], [transitionend] listeners and
      the continuation of an [await] are entries of the field [pending];
      [fire] runs one of them.
    - [watch(isOpen)] is not part of the functions that write [isOpen]: it
      is the step [flushWatch] of the record [Watched], which runs between
      tasks and whose animation frame emits [open] and [afterOpen].
    - The collaborators that never feed back into the engine state are
      left out: style injection, pointer capture, the inert root, the
      [no-select] class and scroll lock of the body, the history entry
      pushed at [open] and popped at [close], and the user hooks
      [onOpen], [onAfterOpen], [onClose], [onSnap],
      [onDragStart], [onDrag] and [onDragEnd], which the source calls inside
      [try]/[catch] next to the matching [events.emit].
    - The input handlers take what they read from the event and from the
      page as data: the answers of the DOM about the event target are
      fields of the event records, the geometry of scrollable elements is
      the field [dom] of [Gesture], [performance.now()] is the argument
      [now], read once per event, and [Math.atan2] is a parameter.
    - A computed ref is a function of the current state.  The two resize
      callbacks read [dragProgress] after the element height has changed,
      when the cached value can be that of an earlier state: they take the
      value read as an argument. *)

From Stdlib Require Import List Sorted Bool ZArith QArith Qminmax Qabs Qround
  Lia Lqa.
From Stdlib Require PrimFloat SpecFloat FloatOps Uint63.
Import ListNotations.

Local Open Scope Q_scope.

(** * Part I: the embedding *)

(** ** Numbers *)

(** [a < b] on numbers, as a boolean. *)
Definition Qltb (a b : Q) : bool := negb (Qle_bool b a).

(** [x ? a : b] for a number [x]: a number is truthy unless it is zero. *)
Definition truthy (x : Q) : bool := negb (Qeq_bool x 0).

(** [x || d] for a number [x]. *)
Definition or_else (x d : Q) : Q := if truthy x then x else d.

(** [function clamp01(x) { return Math.min(1, Math.max(0, x)); }] on a
    finite number; [clamp01J] below is the function on every number, with
    [clamp01(NaN) = NaN]. *)
Definition clamp01 (x : Q) : Q := Qmin 1 (Qmax 0 x).

(** Truncation toward zero, the first half of [ToInt32]. *)
Definition Qtrunc (x : Q) : Z := Z.quot (Qnum x) (Zpos (Qden x)).

(** [x | 0]: [ToInt32], truncation toward zero followed by the wrap into
    the signed 32-bit range. *)
Definition wrap32 (z : Z) : Z := ((z + 2 ^ 31) mod 2 ^ 32 - 2 ^ 31)%Z.
Definition toInt32 (x : Q) : Z := wrap32 (Qtrunc x).

(** ** Snap model *)

(** [new Set(xs)] followed by [Array.from]: the first occurrence of every
    value is kept, in insertion order. *)
Definition memQ (x : Q) (l : list Q) : bool := existsb (Qeq_bool x) l.

Fixpoint set_from (seen xs : list Q) : list Q :=
  match xs with
  | [] => []
  | x :: r => if memQ x seen then set_from seen r
              else x :: set_from (x :: seen) r
  end.

(** [.sort((a, b) => a - b)]: a stable ascending sort, here by insertion;
    an element passes exactly the elements strictly below it. *)
Fixpoint insert_asc (x : Q) (l : list Q) : list Q :=
  match l with
  | [] => [x]
  | y :: r => if Qltb y x then y :: insert_asc x r else x :: y :: r
  end.

Fixpoint sort_asc (l : list Q) : list Q :=
  match l with
  | [] => []
  | x :: r => insert_asc x (sort_asc r)
  end.

(** [function uniqSorted(arr)] *)
Definition uniqSorted (arr : list Q) : list Q :=
  sort_asc (set_from [] (map clamp01 arr)).

(** The [forEach] of [currentSnapIndex]: the accumulator is [(idx, dmin)]
    with [None] for [Infinity]; [i] is the index of the head of [pts].  The
    distance is the exact one; [nearest_fromR] below computes it with the
    rounding of the program. *)
Fixpoint nearest_from (p : Q) (pts : list Q) (i : nat) (acc : nat * option Q)
  : nat * option Q :=
  match pts with
  | [] => acc
  | sp :: r =>
      let d := Qabs (sp - p) in
      let better := match snd acc with
                    | None => true
                    | Some dmin => Qltb d dmin
                    end in
      nearest_from p r (S i) (if better then (i, Some d) else acc)
  end.

Definition nearestIndex (p : Q) (pts : list Q) : nat :=
  fst (nearest_from p pts 0%nat (0%nat, None)).

(** The [for] loop of [endDrag]: the accumulator is [(nearest, dmin, ni)].
    The distance is the exact one; [nearest_scanR] below computes it with
    the rounding of the program. *)
Fixpoint nearest_scan (p : Q) (pts : list Q) (i : nat)
  (acc : Q * option Q * nat) : Q * option Q * nat :=
  match pts with
  | [] => acc
  | pt :: r =>
      let d := Qabs (p - pt) in
      let better := match snd (fst acc) with
                    | None => true
                    | Some dmin => Qltb d dmin
                    end in
      nearest_scan p r (S i) (if better then (pt, Some d, i) else acc)
  end.

(** ** Types *)

(** [type CloseReason] *)
Inductive CloseReason :=
| programmatic | backdrop | esc | drag | internal | history.

(** The payloads of [EventMap], one constructor per event name. *)
Inductive Event :=
| EvOpen
| EvAfterOpen
| EvClose (reason : CloseReason)
| EvSnap (index : Z) (progress : Q)
| EvDragStart
| EvDrag (deltaY progress : Q)
| EvDragEnd (closed : bool).

(** What a call of the [onBeforeClose] hook comes to: it throws, or its
    value (a boolean or a promise of one) settles. *)
Inductive HookOutcome :=
| HookThrows
| HookResolves (ok : bool)
| HookRejects.

Inductive OpenAnimation := fromBottom | snapAnim | noAnim.

Inductive Axis := AxisX | AxisY.

(** The keys the built-in keydown behaviour tells apart. *)
Inductive Key :=
| KTab | KEscape | KArrowUp | KArrowDown | KHome | KEnd | KPageUp | KPageDown
| KOther.

(** The fields of a [KeyboardEvent] that the engine reads or writes. *)
Record KeyEvent := mkKeyEvent {
  key : Key;
  shiftKey : bool;
  defaultPrevented : bool
}.

(** What a dynamic keydown handler returns: [boolean | void], or it throws. *)
Inductive HandlerResult :=
| Returns (handled : option bool)
| Throws.

(** One call of a keydown handler, seen from the registry: whether it called
    [e.preventDefault()], which registrations it removed through their
    [off()] closures, and how it ended.  Calls back into the sheet through
    the [api] argument are not modelled. *)
Record HandlerOutcome := mkOutcome {
  ho_prevent : bool;
  ho_off : list nat;
  ho_result : HandlerResult
}.

(** [type KeydownReg]; [regs] holds references to these objects, so the
    registry keeps the objects in a store and the array as a list of ids. *)
Record KeydownReg := mkReg {
  reg_id : nat;
  handler : KeyEvent -> HandlerOutcome;
  priority : Q;
  once : bool;
  active : bool
}.

Record Registry := mkRegistry {
  objs : list KeydownReg;
  regs : list nat;
  seq : nat
}.

(** The options of [useBottomSheet] that the embedded functions read. *)
Record Config := mkConfig {
  closeThresholdPx : Q;
  closeThresholdRatio : Q;
  flingVelocityPxPerMs : Q;
  openAnimation : OpenAnimation;
  openAnimationExtraPx : Q;
  overdragUpPx : Q;
  overdragDownPx : Q;
  overdragDamping : Q;
  rememberLastSnapIndex : bool;
  initialSnapIndex : Q;
  snapPoints : list Q;
  trapFocus : bool;
  closeOnEsc : bool;
  onBeforeClose : option (CloseReason -> HookOutcome)
}.

(** The defaults of the destructuring at the top of [useBottomSheet]. *)
Definition defaultConfig : Config := {|
  closeThresholdPx := 120;
  closeThresholdRatio := 1 # 4;
  flingVelocityPxPerMs := 6 # 5;
  openAnimation := fromBottom;
  openAnimationExtraPx := 120;
  overdragUpPx := 80;
  overdragDownPx := 120;
  overdragDamping := 1 # 2;
  rememberLastSnapIndex := true;
  initialSnapIndex := 0;
  snapPoints := [0; 1];
  trapFocus := true;
  closeOnEsc := true;
  onBeforeClose := None
|}.

(** Deferred callbacks. *)
Inductive Task :=
| TPerformOpen
  (** [requestAnimationFrame(() => performOpenAnimation())] of [open] *)
| TSnapToIndex (index : Q)
  (** [requestAnimationFrame(() => snapToIndex(targetIndex, true))] *)
| TCloseFrame (h : Q) (reason : CloseReason)
  (** the animation-frame callback of [closeAnimated] *)
| TOnDone (reason : CloseReason)
  (** [onDone], armed both as [transitionend] listener and as fallback
      timer; its [done] flag lets it run once, so it is one entry *)
| TResumeClose (reason : CloseReason) (ok : option bool)
  (** the rest of [requestClose] after its [await]: [Some b] when the hook
      settled with [b], [None] when its promise rejected *)
| TOpened
  (** the animation-frame callback of the [isOpen] watcher, which emits
      [open] and [afterOpen] *).

(** The state of one [useBottomSheet] instance. *)
#[projections(primitive)]
Record Sheet := mkSheet {
  isOpen : bool;
  isAnimating : bool;
  sheetHeight : option Q;   (** [sheetRef.value?.offsetHeight] *)
  innerHeight : Q;          (** [window.innerHeight] *)
  reduceMotion : bool;
  translateY : Q;
  overUp : Q;
  dragging : bool;
  activePointerId : option Z;
  startY : Q;
  preDrag : bool;
  axisLocked : option Axis;
  lastY : Q;
  lastT : Q;
  vY : Q;
  stackIndex : option Z;
  lastSnapIndexMem : Q;
  snapPointsRef : list Q;
  inScroll : bool;          (** [dragOrigin.inScroll] *)
  focusables : list nat;    (** [focusablesIn(sheetRef.value)] *)
  activeElement : option nat; (** [document.activeElement] *)
  keydown : Registry;
  events : list Event;
  pending : list Task
}.

(** The state right after [useBottomSheet(opts)] returns. *)
Definition initialSheet (cfg : Config) : Sheet := {|
  isOpen := false; isAnimating := false;
  sheetHeight := None; innerHeight := 0; reduceMotion := false;
  translateY := 0; overUp := 0;
  dragging := false; activePointerId := None;
  startY := 0; preDrag := false; axisLocked := None;
  lastY := 0; lastT := 0; vY := 0;
  stackIndex := None;
  lastSnapIndexMem := initialSnapIndex cfg;
  snapPointsRef := snapPoints cfg;
  inScroll := false;
  focusables := []; activeElement := None;
  keydown := mkRegistry [] [] 0;
  events := []; pending := []
|}.

(** Field updates. *)
Definition set_isOpen (v : bool) (s : Sheet) : Sheet :=
  mkSheet v (isAnimating s) (sheetHeight s) (innerHeight s) (reduceMotion s)
    (translateY s) (overUp s) (dragging s) (activePointerId s) (startY s)
    (preDrag s) (axisLocked s) (lastY s) (lastT s) (vY s) (stackIndex s)
    (lastSnapIndexMem s) (snapPointsRef s) (inScroll s) (focusables s)
    (activeElement s) (keydown s) (events s) (pending s).
Definition set_isAnimating (v : bool) (s : Sheet) : Sheet :=
  mkSheet (isOpen s) v (sheetHeight s) (innerHeight s) (reduceMotion s)
    (translateY s) (overUp s) (dragging s) (activePointerId s) (startY s)
    (preDrag s) (axisLocked s) (lastY s) (lastT s) (vY s) (stackIndex s)
    (lastSnapIndexMem s) (snapPointsRef s) (inScroll s) (focusables s)
    (activeElement s) (keydown s) (events s) (pending s).
Definition set_translateY (v : Q) (s : Sheet) : Sheet :=
  mkSheet (isOpen s) (isAnimating s) (sheetHeight s) (innerHeight s)
    (reduceMotion s) v (overUp s) (dragging s) (activePointerId s) (startY s)
    (preDrag s) (axisLocked s) (lastY s) (lastT s) (vY s) (stackIndex s)
    (lastSnapIndexMem s) (snapPointsRef s) (inScroll s) (focusables s)
    (activeElement s) (keydown s) (events s) (pending s).
Definition set_overUp (v : Q) (s : Sheet) : Sheet :=
  mkSheet (isOpen s) (isAnimating s) (sheetHeight s) (innerHeight s)
    (reduceMotion s) (translateY s) v (dragging s) (activePointerId s)
    (startY s) (preDrag s) (axisLocked s) (lastY s) (lastT s) (vY s)
    (stackIndex s) (lastSnapIndexMem s) (snapPointsRef s) (inScroll s)
    (focusables s) (activeElement s) (keydown s) (events s) (pending s).
Definition set_dragging (v : bool) (s : Sheet) : Sheet :=
  mkSheet (isOpen s) (isAnimating s) (sheetHeight s) (innerHeight s)
    (reduceMotion s) (translateY s) (overUp s) v (activePointerId s)
    (startY s) (preDrag s) (axisLocked s) (lastY s) (lastT s) (vY s)
    (stackIndex s) (lastSnapIndexMem s) (snapPointsRef s) (inScroll s)
    (focusables s) (activeElement s) (keydown s) (events s) (pending s).
(** [activePointerId.value = null; preDrag = false; axisLocked = null],
    the statements shared by [close] and [cleanupGesture]. *)
Definition clear_pointer (s : Sheet) : Sheet :=
  mkSheet (isOpen s) (isAnimating s) (sheetHeight s) (innerHeight s)
    (reduceMotion s) (translateY s) (overUp s) (dragging s) None
    (startY s) false None (lastY s) (lastT s) (vY s)
    (stackIndex s) (lastSnapIndexMem s) (snapPointsRef s) (inScroll s)
    (focusables s) (activeElement s) (keydown s) (events s) (pending s).
(** [lastY = ...; lastT = ...; vY = ...] *)
Definition set_velocity (y t v : Q) (s : Sheet) : Sheet :=
  mkSheet (isOpen s) (isAnimating s) (sheetHeight s) (innerHeight s)
    (reduceMotion s) (translateY s) (overUp s) (dragging s)
    (activePointerId s) (startY s) (preDrag s) (axisLocked s) y t v
    (stackIndex s) (lastSnapIndexMem s) (snapPointsRef s) (inScroll s)
    (focusables s) (activeElement s) (keydown s) (events s) (pending s).
Definition set_stackIndex (v : option Z) (s : Sheet) : Sheet :=
  mkSheet (isOpen s) (isAnimating s) (sheetHeight s) (innerHeight s)
    (reduceMotion s) (translateY s) (overUp s) (dragging s)
    (activePointerId s) (startY s) (preDrag s) (axisLocked s) (lastY s)
    (lastT s) (vY s) v (lastSnapIndexMem s) (snapPointsRef s) (inScroll s)
    (focusables s) (activeElement s) (keydown s) (events s) (pending s).
Definition set_lastSnapIndexMem (v : Q) (s : Sheet) : Sheet :=
  mkSheet (isOpen s) (isAnimating s) (sheetHeight s) (innerHeight s)
    (reduceMotion s) (translateY s) (overUp s) (dragging s)
    (activePointerId s) (startY s) (preDrag s) (axisLocked s) (lastY s)
    (lastT s) (vY s) (stackIndex s) v (snapPointsRef s) (inScroll s)
    (focusables s) (activeElement s) (keydown s) (events s) (pending s).
Definition set_inScroll (v : bool) (s : Sheet) : Sheet :=
  mkSheet (isOpen s) (isAnimating s) (sheetHeight s) (innerHeight s)
    (reduceMotion s) (translateY s) (overUp s) (dragging s)
    (activePointerId s) (startY s) (preDrag s) (axisLocked s) (lastY s)
    (lastT s) (vY s) (stackIndex s) (lastSnapIndexMem s) (snapPointsRef s) v
    (focusables s) (activeElement s) (keydown s) (events s) (pending s).
Definition set_activeElement (v : option nat) (s : Sheet) : Sheet :=
  mkSheet (isOpen s) (isAnimating s) (sheetHeight s) (innerHeight s)
    (reduceMotion s) (translateY s) (overUp s) (dragging s)
    (activePointerId s) (startY s) (preDrag s) (axisLocked s) (lastY s)
    (lastT s) (vY s) (stackIndex s) (lastSnapIndexMem s) (snapPointsRef s)
    (inScroll s) (focusables s) v (keydown s) (events s) (pending s).
Definition set_keydown (v : Registry) (s : Sheet) : Sheet :=
  mkSheet (isOpen s) (isAnimating s) (sheetHeight s) (innerHeight s)
    (reduceMotion s) (translateY s) (overUp s) (dragging s)
    (activePointerId s) (startY s) (preDrag s) (axisLocked s) (lastY s)
    (lastT s) (vY s) (stackIndex s) (lastSnapIndexMem s) (snapPointsRef s)
    (inScroll s) (focusables s) (activeElement s) v (events s) (pending s).
Definition set_pending (v : list Task) (s : Sheet) : Sheet :=
  mkSheet (isOpen s) (isAnimating s) (sheetHeight s) (innerHeight s)
    (reduceMotion s) (translateY s) (overUp s) (dragging s)
    (activePointerId s) (startY s) (preDrag s) (axisLocked s) (lastY s)
    (lastT s) (vY s) (stackIndex s) (lastSnapIndexMem s) (snapPointsRef s)
    (inScroll s) (focusables s) (activeElement s) (keydown s) (events s) v.

(** [events.emit(name, payload)] *)
Definition emit (e : Event) (s : Sheet) : Sheet :=
  mkSheet (isOpen s) (isAnimating s) (sheetHeight s) (innerHeight s)
    (reduceMotion s) (translateY s) (overUp s) (dragging s)
    (activePointerId s) (startY s) (preDrag s) (axisLocked s) (lastY s)
    (lastT s) (vY s) (stackIndex s) (lastSnapIndexMem s) (snapPointsRef s)
    (inScroll s) (focusables s) (activeElement s) (keydown s)
    (events s ++ [e]) (pending s).

(** [requestAnimationFrame(cb)], [setTimeout(cb, ms)], [await]. *)
Definition defer (t : Task) (s : Sheet) : Sheet :=
  set_pending (pending s ++ [t]) s.

(** ** Keydown registry ([createKeydownRegistry]) *)

Definition lookup_reg (id : nat) (R : Registry) : option KeydownReg :=
  find (fun r => Nat.eqb (reg_id r) id) (objs R).

Definition priority_of (R : Registry) (id : nat) : Q :=
  match lookup_reg id R with
  | Some r => priority r
  | None => 0
  end.

(** [regs.sort((a, b) => b.priority - a.priority)]: stable, descending. *)
Fixpoint insert_desc (prio : nat -> Q) (x : nat) (l : list nat) : list nat :=
  match l with
  | [] => [x]
  | y :: r => if Qltb (prio x) (prio y) then y :: insert_desc prio x r
              else x :: y :: r
  end.

Fixpoint sort_desc (prio : nat -> Q) (l : list nat) : list nat :=
  match l with
  | [] => []
  | x :: r => insert_desc prio x (sort_desc prio r)
  end.

(** [on(handler, opts)]; the second component names the returned [off]. *)
Definition keydown_on (h : KeyEvent -> HandlerOutcome)
  (prio : option Q) (onceOpt : option bool) (R : Registry) : Registry * nat :=
  let id := S (seq R) in
  let reg := mkReg id h (match prio with Some p => p | None => 0 end)
                   (match onceOpt with Some b => b | None => false end) true in
  let R1 := mkRegistry (objs R ++ [reg]) (regs R ++ [id]) id in
  (mkRegistry (objs R1) (sort_desc (priority_of R1) (regs R1)) id, id).

Definition deactivate (id : nat) (l : list KeydownReg) : list KeydownReg :=
  map (fun r => if Nat.eqb (reg_id r) id
                then mkReg (reg_id r) (handler r) (priority r) (once r) false
                else r) l.

(** [const i = regs.indexOf(reg); if (i >= 0) regs.splice(i, 1);] *)
Fixpoint remove_first (id : nat) (l : list nat) : list nat :=
  match l with
  | [] => []
  | y :: r => if Nat.eqb y id then r else y :: remove_first id r
  end.

(** The closure returned by [on], and the [once] branch of [run]. *)
Definition keydown_off (id : nat) (R : Registry) : Registry :=
  mkRegistry (deactivate id (objs R)) (remove_first id (regs R)) (seq R).

Definition keydown_clear (R : Registry) : Registry :=
  mkRegistry (objs R) [] (seq R).

(** [e.preventDefault()] *)
Definition preventDefault (e : KeyEvent) : KeyEvent :=
  mkKeyEvent (key e) (shiftKey e) true.

(** [handled === true] *)
Definition is_true (v : option bool) : bool :=
  match v with
  | Some true => true
  | _ => false
  end.

(** The body of [for (const reg of [...regs])] in [run], over the snapshot.
    The last component lists the handlers that were called, in order. *)
Fixpoint run_loop (snapshot : list nat) (R : Registry) (e : KeyEvent)
  (invoked : list nat) : bool * Registry * KeyEvent * list nat :=
  match snapshot with
  | [] => (false, R, e, invoked)
  | id :: rest =>
      match lookup_reg id R with
      | None => run_loop rest R e invoked
      | Some reg =>
          if negb (active reg) then run_loop rest R e invoked
          else
            let o := handler reg e in
            let e1 := if ho_prevent o then preventDefault e else e in
            let R1 := fold_left (fun acc i => keydown_off i acc) (ho_off o) R in
            let inv1 := invoked ++ [id] in
            match ho_result o with
            | Throws => run_loop rest R1 e1 inv1
            | Returns handled =>
                let R2 := if once reg then keydown_off id R1 else R1 in
                if is_true handled || defaultPrevented e1
                then (true, R2, e1, inv1)
                else run_loop rest R2 e1 inv1
            end
      end
  end.

(** [function run(e: KeyboardEvent): boolean] *)
Definition run (e : KeyEvent) (R : Registry)
  : bool * Registry * KeyEvent * list nat :=
  run_loop (regs R) R e [].

(** ** The engine of one sheet *)

Section Engine.

Variable cfg : Config.

(** [const snaps = computed(() => uniqSorted(snapPointsRef.value.length ?
    snapPointsRef.value : [0, 1]))] *)
Definition snaps_of (points : list Q) : list Q :=
  uniqSorted (match points with
              | [] => [0; 1]
              | _ :: _ => points
              end).

Definition snaps (s : Sheet) : list Q := snaps_of (snapPointsRef s).

(** [sheetRef.value?.offsetHeight || d] *)
Definition offsetHeight_or (d : Q) (s : Sheet) : Q :=
  match sheetHeight s with
  | Some h => or_else h d
  | None => d
  end.

(** [const currentSnapIndex = computed(...)] *)
Definition currentSnapIndex (s : Sheet) : nat :=
  let h := offsetHeight_or 1 s in
  let p := clamp01 (if truthy h then translateY s / h else 0) in
  nearestIndex p (snaps s).

(** [const dragProgress = computed(...)] *)
Definition dragProgress (s : Sheet) : Q :=
  let h := or_else (offsetHeight_or (innerHeight s) s) 1 in
  clamp01 (translateY s / h).

(** [function snapTo(progress, animate = true)] *)
Definition snapTo (progress : Q) (animate : bool) (s : Sheet) : Sheet :=
  let h := offsetHeight_or 0 s in
  let targetPx := clamp01 progress * h in
  if negb animate || reduceMotion s then set_translateY targetPx s
  else set_translateY targetPx (set_isAnimating true s).

(** [Math.max(0, Math.min(pts.length - 1, index | 0))] *)
Definition clampIndex (pts : list Q) (index : Q) : Z :=
  Z.max 0 (Z.min (Z.of_nat (length pts) - 1) (toInt32 index)).

(** [function snapToIndex(index, animate = true)].  [pts[i]] is read with a
    default that [clampIndex_in_range] shows is never used. *)
Definition snapToIndex (index : Q) (animate : bool) (s : Sheet) : Sheet :=
  let pts := snaps s in
  let i := clampIndex pts index in
  let p := nth (Z.to_nat i) pts 0 in
  emit (EvSnap i p) (set_lastSnapIndexMem (inject_Z i) (snapTo p animate s)).

(** [function close(reason)]; the first argument and the first component of
    the result are [STACK_COUNT]. *)
Definition close (reason : CloseReason) (count : Z) (s : Sheet) : Z * Sheet :=
  let s1 := clear_pointer (set_overUp 0 (set_translateY 0 (set_isOpen false s))) in
  let '(count1, s2) :=
    match stackIndex s1 with
    | Some _ => (Z.max 0 (count - 1), set_stackIndex None s1)
    | None => (count, s1)
    end in
  (count1, emit (EvClose reason) s2).

(** [function open()].  The [open] and [afterOpen] events are not emitted
    here but by the watcher of [isOpen], which wakes after the task that
    called [open]: see [flushWatch]. *)
Definition open (count : Z) (s : Sheet) : Z * Sheet :=
  let count1 := (count + 1)%Z in
  (count1, defer TPerformOpen (set_stackIndex (Some count1) (set_isOpen true s))).

(** [function closeAnimated(reason)] *)
Definition closeAnimated (reason : CloseReason) (s : Sheet) : Sheet :=
  if negb (isOpen s) then s
  else
    let h := offsetHeight_or 0 s + openAnimationExtraPx cfg in
    defer (TCloseFrame h reason) (set_isAnimating true s).

(** [function performOpenAnimation()] *)
Definition performOpenAnimation (s : Sheet) : Sheet :=
  match sheetHeight s with
  | None => s
  | Some _ =>
      let h := offsetHeight_or 0 s in
      let targetIndex := if rememberLastSnapIndex cfg then lastSnapIndexMem s
                         else initialSnapIndex cfg in
      match openAnimation cfg with
      | fromBottom =>
          defer (TSnapToIndex targetIndex)
            (set_translateY (h + openAnimationExtraPx cfg)
               (set_isAnimating true s))
      | snapAnim => snapToIndex targetIndex true s
      | noAnim => snapToIndex targetIndex false s
      end
  end.

(** [async function requestClose(reason)], up to its [await]. *)
Definition requestClose (reason : CloseReason) (count : Z) (s : Sheet)
  : Z * Sheet :=
  match onBeforeClose cfg with
  | None => close reason count s
  | Some hook =>
      match hook reason with
      | HookThrows => (count, s)
      | HookResolves ok => (count, defer (TResumeClose reason (Some ok)) s)
      | HookRejects => (count, defer (TResumeClose reason None) s)
      end
  end.

(** The body of a deferred callback. *)
Definition run_task (t : Task) (count : Z) (s : Sheet) : Z * Sheet :=
  match t with
  | TPerformOpen => (count, performOpenAnimation s)
  | TSnapToIndex index => (count, snapToIndex index true s)
  | TCloseFrame h reason =>
      (count, defer (TOnDone reason) (set_translateY h s))
  | TOnDone reason => close reason count (set_isAnimating false s)
  | TResumeClose reason ok =>
      match ok with
      | Some true => close reason count s
      | _ => (count, s)
      end
  | TOpened => (count, emit EvAfterOpen (emit EvOpen s))
  end.

Fixpoint remove_nth {A : Type} (k : nat) (l : list A) : list A :=
  match l, k with
  | [], _ => []
  | _ :: r, O => r
  | x :: r, S k' => x :: remove_nth k' r
  end.

(** The event loop runs the [k]-th deferred callback. *)
Definition fire (k : nat) (count : Z) (s : Sheet) : Z * Sheet :=
  match nth_error (pending s) k with
  | None => (count, s)
  | Some t => run_task t count (set_pending (remove_nth k (pending s)) s)
  end.

(** [function cleanupGesture()] *)
Definition cleanupGesture (s : Sheet) : Sheet :=
  set_inScroll false (clear_pointer (set_overUp 0 (set_velocity 0 0 0 s))).

(** [function startDrag(y)]; [now] is [performance.now()]. *)
Definition startDrag (y now : Q) (s : Sheet) : Sheet :=
  emit EvDragStart (set_velocity y now 0 (set_dragging true s)).

(** The rubber band of [moveDrag]: from the raw [dy = y - startY] to the
    pair of the new [overUp] and the shaped [dy]. *)
Definition rubberBand (h dy : Q) : Q * Q :=
  if Qltb dy 0 then
    let t := clamp01 (Qabs dy / overdragUpPx cfg) in
    let eased := t * (1 - (1 - overdragDamping cfg) * t) in
    (eased, 0)
  else
    (0, if Qltb 0 h && Qltb h dy then
          let beyond := dy - h in
          let capped := Qmin (overdragDownPx cfg) beyond in
          let t := clamp01 (capped / overdragDownPx cfg) in
          h + capped * (1 - (1 - overdragDamping cfg) * t)
        else dy).

(** [function moveDrag(y)]; [now] is [performance.now()].  The velocity
    sample [(y - lastY) / (now - lastT)] is the program's when the clock has
    advanced since the last sample.  At [now = lastT] the program divides
    by zero: it gets [NaN] or [-Infinity], which fail the one test that
    reads [vY] as the 0 of this model does, or [+Infinity], which passes
    it.  [sampleJ] is the sample on every number and [clock_ok] names the
    steps that are free of that case. *)
Definition moveDrag (y now : Q) (s : Sheet) : Sheet :=
  if negb (dragging s) then s
  else
    let dy := y - startY s in
    let h := offsetHeight_or 0 s in
    let '(ou, dy1) := rubberBand h dy in
    let s1 := set_translateY (Qmax 0 dy1) (set_overUp ou s) in
    let v := if truthy (lastT s) then (y - lastY s) / (now - lastT s)
             else vY s in
    let s2 := set_velocity y now v s1 in
    emit (EvDrag (translateY s2) (dragProgress s2)) s2.

(** [function endDrag()] *)
Definition endDrag (s : Sheet) : Sheet :=
  if negb (dragging s) then s
  else
    let s0 := set_overUp 0 (set_dragging false s) in
    let h := offsetHeight_or 0 s0 in
    let p := if truthy h then translateY s0 / h else 0 in
    if Qltb (flingVelocityPxPerMs cfg) (Qabs (vY s0)) && Qltb 0 (vY s0) then
      cleanupGesture (closeAnimated drag s0)
    else
      let thresholdPx := Qmax (closeThresholdPx cfg) (h * closeThresholdRatio cfg) in
      if Qltb thresholdPx (translateY s0) then
        cleanupGesture (emit (EvDragEnd true) (closeAnimated drag s0))
      else
        let points := snaps s0 in
        let '(nearest, _, ni) :=
          nearest_scan p points 0%nat (nth 0 points 0, None, 0%nat) in
        if Qle_bool (999 # 1000) nearest then
          cleanupGesture (emit (EvDragEnd true) (closeAnimated drag s0))
        else
          cleanupGesture
            (emit (EvSnap (Z.of_nat ni) nearest)
               (emit (EvDragEnd false)
                  (snapTo nearest true (set_isAnimating true s0)))).

(** [function focusTrapKeydown(e)] *)
Definition focusTrapKeydown (e : KeyEvent) (count : Z) (s : Sheet)
  : Z * Sheet * KeyEvent :=
  match isOpen s, sheetHeight s with
  | true, Some _ =>
      let '(handled, R, e1, _) := run e (keydown s) in
      let s1 := set_keydown R s in
      if handled then (count, s1, e1)
      else
        match key e1 with
        | KTab =>
            if trapFocus cfg then
              match focusables s1 with
              | [] => (count, s1, e1)
              | first :: _ =>
                  let last := List.last (focusables s1) first in
                  let isActive n := match activeElement s1 with
                                    | Some a => Nat.eqb a n
                                    | None => false
                                    end in
                  if shiftKey e1 then
                    if isActive first || negb (existsb isActive (focusables s1))
                    then (count, set_activeElement (Some last) s1,
                          preventDefault e1)
                    else (count, s1, e1)
                  else
                    if isActive last
                    then (count, set_activeElement (Some first) s1,
                          preventDefault e1)
                    else (count, s1, e1)
              end
            else (count, s1, e1)
        | KEscape =>
            if closeOnEsc cfg then
              let '(count1, s2) := requestClose esc count s1 in
              (count1, s2, e1)
            else (count, s1, e1)
        | KArrowUp | KPageUp =>
            let idx := Z.of_nat (currentSnapIndex s1) in
            (count, snapToIndex (inject_Z (Z.max 0 (idx - 1))) true s1,
             preventDefault e1)
        | KArrowDown | KPageDown =>
            let idx := Z.of_nat (currentSnapIndex s1) in
            let top := (Z.of_nat (length (snaps s1)) - 1)%Z in
            (count, snapToIndex (inject_Z (Z.min top (idx + 1))) true s1,
             preventDefault e1)
        | KHome => (count, snapToIndex 0 true s1, preventDefault e1)
        | KEnd =>
            let top := (Z.of_nat (length (snaps s1)) - 1)%Z in
            (count, snapToIndex (inject_Z top) true s1, preventDefault e1)
        | KOther => (count, s1, e1)
        end
  | _, _ => (count, s, e)
  end.

End Engine.

(** ** Several sheets over the one [STACK_COUNT] *)

Record World := mkWorld {
  STACK_COUNT : Z;
  sheets : list Sheet
}.

Fixpoint update_nth {A : Type} (k : nat) (x : A) (l : list A) : list A :=
  match l, k with
  | [], _ => []
  | _ :: r, O => x :: r
  | y :: r, S k' => y :: update_nth k' x r
  end.

(** Sheet [k] runs [f], which may read and write [STACK_COUNT]. *)
Definition at_sheet (f : Z -> Sheet -> Z * Sheet) (k : nat) (w : World) : World :=
  match nth_error (sheets w) k with
  | None => w
  | Some s => let '(c, s1) := f (STACK_COUNT w) s in
              mkWorld c (update_nth k s1 (sheets w))
  end.

Definition open_at : nat -> World -> World := at_sheet open.
Definition close_at (reason : CloseReason) : nat -> World -> World :=
  at_sheet (close reason).

(** ** The rest of the snap and lifecycle interface *)

Definition set_snapPointsRef (v : list Q) (s : Sheet) : Sheet :=
  mkSheet (isOpen s) (isAnimating s) (sheetHeight s) (innerHeight s)
    (reduceMotion s) (translateY s) (overUp s) (dragging s)
    (activePointerId s) (startY s) (preDrag s) (axisLocked s) (lastY s)
    (lastT s) (vY s) (stackIndex s) (lastSnapIndexMem s) v (inScroll s)
    (focusables s) (activeElement s) (keydown s) (events s) (pending s).
Definition set_sheetHeight (v : option Q) (s : Sheet) : Sheet :=
  mkSheet (isOpen s) (isAnimating s) v (innerHeight s)
    (reduceMotion s) (translateY s) (overUp s) (dragging s)
    (activePointerId s) (startY s) (preDrag s) (axisLocked s) (lastY s)
    (lastT s) (vY s) (stackIndex s) (lastSnapIndexMem s) (snapPointsRef s)
    (inScroll s) (focusables s) (activeElement s) (keydown s) (events s)
    (pending s).
Definition set_activePointerId (v : option Z) (s : Sheet) : Sheet :=
  mkSheet (isOpen s) (isAnimating s) (sheetHeight s) (innerHeight s)
    (reduceMotion s) (translateY s) (overUp s) (dragging s) v (startY s)
    (preDrag s) (axisLocked s) (lastY s) (lastT s) (vY s) (stackIndex s)
    (lastSnapIndexMem s) (snapPointsRef s) (inScroll s) (focusables s)
    (activeElement s) (keydown s) (events s) (pending s).
Definition set_startY (v : Q) (s : Sheet) : Sheet :=
  mkSheet (isOpen s) (isAnimating s) (sheetHeight s) (innerHeight s)
    (reduceMotion s) (translateY s) (overUp s) (dragging s)
    (activePointerId s) v (preDrag s) (axisLocked s) (lastY s) (lastT s)
    (vY s) (stackIndex s) (lastSnapIndexMem s) (snapPointsRef s) (inScroll s)
    (focusables s) (activeElement s) (keydown s) (events s) (pending s).
Definition set_preDrag (v : bool) (s : Sheet) : Sheet :=
  mkSheet (isOpen s) (isAnimating s) (sheetHeight s) (innerHeight s)
    (reduceMotion s) (translateY s) (overUp s) (dragging s)
    (activePointerId s) (startY s) v (axisLocked s) (lastY s) (lastT s)
    (vY s) (stackIndex s) (lastSnapIndexMem s) (snapPointsRef s) (inScroll s)
    (focusables s) (activeElement s) (keydown s) (events s) (pending s).
Definition set_axisLocked (v : option Axis) (s : Sheet) : Sheet :=
  mkSheet (isOpen s) (isAnimating s) (sheetHeight s) (innerHeight s)
    (reduceMotion s) (translateY s) (overUp s) (dragging s)
    (activePointerId s) (startY s) (preDrag s) v (lastY s) (lastT s)
    (vY s) (stackIndex s) (lastSnapIndexMem s) (snapPointsRef s) (inScroll s)
    (focusables s) (activeElement s) (keydown s) (events s) (pending s).

(** [function setSnapPoints(points, toIndex?)].  The index
    [Math.max(0, Math.min(uniq.length - 1, toIndex))] is not truncated: with
    a fractional value [uniq[i]] is [undefined] and the offset becomes
    [NaN], which no number of the model stands for; that outcome is
    [None]. *)
Definition setSnapPoints (points : list Q) (toIndex : option Q) (s : Sheet)
  : option Sheet :=
  match points with
  | [] => Some s
  | _ :: _ =>
      let uniq := uniqSorted points in
      let s1 := set_snapPointsRef uniq s in
      match toIndex with
      | None => Some s1
      | Some t =>
          let i := Qmax 0 (Qmin (inject_Z (Z.of_nat (length uniq)) - 1) t) in
          if Qeq_bool i (inject_Z (Qtrunc i)) then
            Some (set_lastSnapIndexMem i
                    (snapTo (nth (Z.to_nat (Qtrunc i)) uniq 0) true s1))
          else None
      end
  end.

(** [const sheetScale = computed(...)] *)
Definition sheetScale (s : Sheet) : Q :=
  let p := Qmin 1 (Qmax 0 (dragProgress s + overUp s)) in
  1 - (2 # 100) * p.

(** [const overlayOpacity = computed(...)]; the argument is the option
    [overlayMaxOpacity]. *)
Definition overlayOpacity (overlayMaxOpacity : Q) (s : Sheet) : Q :=
  overlayMaxOpacity * (1 - dragProgress s).

(** [const baseZ = computed(() => zIndexBase + (stackIndex.value ?? 0) * 2)],
    the [zIndex] of the overlay; the sheet is drawn at [baseZ + 1]. *)
Definition baseZ (zIndexBase : Z) (s : Sheet) : Z :=
  (zIndexBase + match stackIndex s with Some i => i | None => 0 end * 2)%Z.

Definition overlayZ (zIndexBase : Z) (s : Sheet) : Z := baseZ zIndexBase s.
Definition sheetZ (zIndexBase : Z) (s : Sheet) : Z :=
  (baseZ zIndexBase s + 1)%Z.

(** The [translateY(...)] of [sheetStyle]: [Math.max(0, translateY.value)]. *)
Definition renderedOffset (s : Sheet) : Q := Qmax 0 (translateY s).

(** ** Gestures: pointer, touch, mouse and wheel input *)

(** The part of a scrollable DOM element that the engine reads. *)
Record ScrollEl := mkScrollEl {
  scrollTop : Q;
  clientHeight : Q;
  scrollHeight : Q;
  overflowScrolls : bool  (** [overflowY] is [auto], [scroll] or [overlay] *)
}.

(** [function isScrollable(el)] for an element that is not [null]. *)
Definition isScrollable (el : ScrollEl) : bool :=
  overflowScrolls el && Qltb (clientHeight el + 1) (scrollHeight el).

(** [el.scrollTop <= 0] *)
Definition atTop (el : ScrollEl) : bool := Qle_bool (scrollTop el) 0.

(** [Math.ceil(el.scrollTop + el.clientHeight) >= el.scrollHeight] *)
Definition atBottom (el : ScrollEl) : bool :=
  Qle_bool (scrollHeight el)
           (inject_Z (Qceiling (scrollTop el + clientHeight el))).

(** The options read by the input handlers. *)
Record InputOptions := mkInputOptions {
  mobileOnly : bool;
  allowDesktopDrag : bool;
  allowWheelSnap : bool;
  wheelSnapCooldownMs : Q;
  axisLockThresholdPx : Q;
  axisLockAngleDeg : Q;
  enableDoubleTapToMax : bool;
  doubleTapMaxDelayMs : Q;
  doubleTapMaxMovePx : Q;
  closeOnBackdrop : bool;
  autoFindScrollArea : bool;
  allowDragFromScrollBottom : bool;
  watchContentResize : bool
}.

Definition defaultInput : InputOptions := {|
  mobileOnly := true;
  allowDesktopDrag := false;
  allowWheelSnap := true;
  wheelSnapCooldownMs := 220;
  axisLockThresholdPx := 6;
  axisLockAngleDeg := 35;
  enableDoubleTapToMax := true;
  doubleTapMaxDelayMs := 250;
  doubleTapMaxMovePx := 14;
  closeOnBackdrop := true;
  autoFindScrollArea := true;
  allowDragFromScrollBottom := true;
  watchContentResize := true
|}.

(** One instance together with the closure variables and the DOM state
    that only the input handlers use.  DOM elements are named by numbers
    and [dom] gives the geometry each of them has now, so that
    [scrollAreaRef] and [dragOrigin.scrollEl] can name the same element. *)
#[projections(primitive)]
Record Gesture := mkGesture {
  sheet : Sheet;
  startX : Q;
  originScrollEl : option nat;  (** [dragOrigin.scrollEl] *)
  startScrollTop : Q;           (** [dragOrigin.startScrollTop] *)
  startAtTop : bool;            (** [dragOrigin.startAtTop] *)
  startAtBottom : bool;         (** [dragOrigin.startAtBottom] *)
  scrollAreaRef : option nat;
  bsScroll : option nat;        (** [sheetRef.value.querySelector('.bs-scroll')] *)
  dom : nat -> ScrollEl;
  lastTapTs : Q;
  lastTapY : Q;
  lastWheelTs : Q;
  isMobile : bool;
  supportsPointer : bool
}.

(** A change of the instance state alone. *)
Definition with_sheet (f : Sheet -> Sheet) (g : Gesture) : Gesture :=
  mkGesture (f (sheet g)) (startX g) (originScrollEl g) (startScrollTop g)
    (startAtTop g) (startAtBottom g) (scrollAreaRef g) (bsScroll g) (dom g)
    (lastTapTs g) (lastTapY g) (lastWheelTs g) (isMobile g)
    (supportsPointer g).
Definition set_startX (v : Q) (g : Gesture) : Gesture :=
  mkGesture (sheet g) v (originScrollEl g) (startScrollTop g)
    (startAtTop g) (startAtBottom g) (scrollAreaRef g) (bsScroll g) (dom g)
    (lastTapTs g) (lastTapY g) (lastWheelTs g) (isMobile g)
    (supportsPointer g).
(** The four [dragOrigin] fields kept outside [Sheet]. *)
Definition set_origin (el : option nat) (top : Q) (isTop isBottom : bool)
  (g : Gesture) : Gesture :=
  mkGesture (sheet g) (startX g) el top isTop isBottom (scrollAreaRef g)
    (bsScroll g) (dom g) (lastTapTs g) (lastTapY g) (lastWheelTs g)
    (isMobile g) (supportsPointer g).
Definition set_scrollAreaRef (v : option nat) (g : Gesture) : Gesture :=
  mkGesture (sheet g) (startX g) (originScrollEl g) (startScrollTop g)
    (startAtTop g) (startAtBottom g) v (bsScroll g) (dom g)
    (lastTapTs g) (lastTapY g) (lastWheelTs g) (isMobile g)
    (supportsPointer g).
Definition set_lastTap (ts y : Q) (g : Gesture) : Gesture :=
  mkGesture (sheet g) (startX g) (originScrollEl g) (startScrollTop g)
    (startAtTop g) (startAtBottom g) (scrollAreaRef g) (bsScroll g) (dom g)
    ts y (lastWheelTs g) (isMobile g) (supportsPointer g).
Definition set_lastWheelTs (v : Q) (g : Gesture) : Gesture :=
  mkGesture (sheet g) (startX g) (originScrollEl g) (startScrollTop g)
    (startAtTop g) (startAtBottom g) (scrollAreaRef g) (bsScroll g) (dom g)
    (lastTapTs g) (lastTapY g) v (isMobile g) (supportsPointer g).

(** The fields of a [PointerEvent] or [MouseEvent] that the handlers read.
    [canStart] is [canStartDragFromTarget(e.target)] and [ancestor] is
    [findScrollableAncestor(e.target, sheetRef.value)], both answers of the
    DOM about the event target. *)
Record PointerEv := mkPointerEv {
  isMouse : bool;       (** [e.pointerType === 'mouse'] *)
  button : Z;
  pointerId : Z;
  clientX : Q;
  clientY : Q;
  canStart : bool;
  ancestor : option nat
}.

(** A [TouchEvent]: the client coordinates of [e.touches], and the same two
    answers about its target. *)
Record TouchEv := mkTouchEv {
  touches : list (Q * Q);
  touchCanStart : bool;
  touchAncestor : option nat
}.

(** [clientXOf] and [clientYOf] on a touch event:
    [e.touches[0]?.clientX ?? 0]. *)
Definition touchX (e : TouchEv) : Q :=
  match touches e with (x, _) :: _ => x | [] => 0 end.
Definition touchY (e : TouchEv) : Q :=
  match touches e with (_, y) :: _ => y | [] => 0 end.

Section Gestures.

Variable cfg : Config.
Variable opts : InputOptions.

(** [Math.atan2(dy, dx) * (180 / Math.PI)], a transcendental function that
    the rational model takes as given. *)
Variable angleDeg : Q -> Q -> Q.

(** [function toggle(force?)] *)
Definition toggle (force : option bool) (count : Z) (s : Sheet) : Z * Sheet :=
  let next := match force with
              | Some b => b
              | None => negb (isOpen s)
              end in
  if next then open count s else requestClose cfg programmatic count s.

(** [function onOverlayClick()] *)
Definition onOverlayClick (count : Z) (s : Sheet) : Z * Sheet :=
  if closeOnBackdrop opts then requestClose cfg backdrop count s
  else (count, s).

(** [function onHistory()] *)
Definition onHistory (count : Z) (s : Sheet) : Z * Sheet :=
  if isOpen s then requestClose cfg history count s else (count, s).

(** [function cleanupGesture()], with the reset of [dragOrigin.scrollEl]
    that [Sheet] does not hold. *)
Definition cleanupGestureG (g : Gesture) : Gesture :=
  set_origin None (startScrollTop g) (startAtTop g) (startAtBottom g)
    (with_sheet cleanupGesture g).

(** [function endDrag()] on the whole gesture state: [endDrag] returns
    before [cleanupGesture] when no drag is active. *)
Definition endDragG (g : Gesture) : Gesture :=
  if negb (dragging (sheet g)) then g
  else set_origin None (startScrollTop g) (startAtTop g) (startAtBottom g)
         (with_sheet (endDrag cfg) g).

(** [function evaluateAxisLock(currX, currY)]; [now] is the
    [performance.now()] of [startDrag]. *)
Definition evaluateAxisLock (currX currY now : Q) (g : Gesture) : Gesture :=
  let s := sheet g in
  if negb (preDrag s) || match axisLocked s with Some _ => true | None => false end
  then g
  else
    let dx := Qabs (currX - startX g) in
    let dy := Qabs (currY - startY s) in
    if Qltb dx (axisLockThresholdPx opts) && Qltb dy (axisLockThresholdPx opts)
    then g
    else
      let angle := angleDeg dy dx in
      if Qle_bool (90 - axisLockAngleDeg opts) angle then
        let g1 := with_sheet (set_axisLocked (Some AxisY)) g in
        let begin := with_sheet (fun s1 => set_preDrag false
                                              (startDrag currY now s1)) g1 in
        match inScroll s, originScrollEl g with
        | true, Some el =>
            let pullingDown := Qltb 0 (currY - startY s) in
            let pushingUp := Qltb (currY - startY s) 0 in
            let atTopNow := atTop (dom g el) in
            let atBottomNow := atBottom (dom g el) in
            if (pullingDown && (startAtTop g || atTopNow))
               || (allowDragFromScrollBottom opts && pushingUp
                   && (startAtBottom g || atBottomNow))
            then begin
            else with_sheet (set_preDrag false) g1
        | _, _ => begin
        end
      else
        with_sheet (fun s1 => set_preDrag false
                                (set_axisLocked (Some AxisX) s1)) g.

(** [function maybeHandleDoubleTap(y)]; [now] is [performance.now()]. *)
Definition maybeHandleDoubleTap (y now : Q) (g : Gesture) : Gesture :=
  if negb (enableDoubleTapToMax opts) then g
  else
    let g1 :=
      if Qltb (now - lastTapTs g) (doubleTapMaxDelayMs opts)
         && Qltb (Qabs (y - lastTapY g)) (doubleTapMaxMovePx opts)
      then with_sheet (snapToIndex 0 true) g
      else g in
    set_lastTap now y g1.

(** [function primeDragContextFromTarget(target)] for a target that is not
    [null]; [found] is [findScrollableAncestor(target, sheetRef.value)]. *)
Definition primeDragContextFromTarget (found : option nat) (g : Gesture)
  : Gesture :=
  let g0 := set_origin None 0 false false (with_sheet (set_inScroll false) g) in
  let '(scrollEl, g1) :=
    match scrollAreaRef g0 with
    | Some el => (Some el, g0)
    | None =>
        if autoFindScrollArea opts
           && match sheetHeight (sheet g0) with Some _ => true | None => false end
        then match bsScroll g0 with
             | Some el => (Some el, set_scrollAreaRef (Some el) g0)
             | None => (None, g0)
             end
        else (None, g0)
    end in
  let scrollEl1 := match scrollEl with
                   | Some el => Some el
                   | None => found
                   end in
  match scrollEl1 with
  | Some el =>
      if isScrollable (dom g1 el) then
        set_origin (Some el) (scrollTop (dom g1 el)) (atTop (dom g1 el))
          (atBottom (dom g1 el)) (with_sheet (set_inScroll true) g1)
      else g1
  | None => g1
  end.

(** [mobileOnly && !isMobile.value && !allowDesktopDrag] *)
Definition desktopBlocked (g : Gesture) : bool :=
  mobileOnly opts && negb (isMobile g) && negb (allowDesktopDrag opts).

(** [function onPointerDown(e)] *)
Definition onPointerDown (e : PointerEv) (now : Q) (g : Gesture) : Gesture :=
  if negb (isOpen (sheet g)) then g
  else if isMouse e && negb (Z.eqb (button e) 0) then g
  else if desktopBlocked g then g
  else if negb (canStart e) then g
  else
    let g1 := with_sheet
                (fun s => set_axisLocked None
                            (set_preDrag true
                               (set_startY (clientY e)
                                  (set_activePointerId (Some (pointerId e)) s))))
                (set_startX (clientX e) g) in
    maybeHandleDoubleTap (clientY e) now
      (primeDragContextFromTarget (ancestor e) g1).

(** [activePointerId.value === e.pointerId] *)
Definition isActivePointer (e : PointerEv) (g : Gesture) : bool :=
  match activePointerId (sheet g) with
  | Some id => Z.eqb id (pointerId e)
  | None => false
  end.

(** [function onPointerMove(e)].  When this move starts the drag,
    [startDrag] and [moveDrag] read the clock one after the other; both
    readings are [now]. *)
Definition onPointerMove (e : PointerEv) (now : Q) (g : Gesture) : Gesture :=
  let g1 := if preDrag (sheet g)
            then evaluateAxisLock (clientX e) (clientY e) now g
            else g in
  if dragging (sheet g1) && isActivePointer e g1
  then with_sheet (moveDrag cfg (clientY e) now) g1
  else g1.

(** [function onPointerUp(e)], also bound to [pointercancel]. *)
Definition onPointerUp (e : PointerEv) (g : Gesture) : Gesture :=
  if isActivePointer e g then endDragG g else g.

(** [function onTouchStart(e)] *)
Definition onTouchStart (e : TouchEv) (now : Q) (g : Gesture) : Gesture :=
  if negb (isOpen (sheet g)) || supportsPointer g then g
  else if desktopBlocked g then g
  else if negb (touchCanStart e) then g
  else
    let g1 := with_sheet
                (fun s => set_axisLocked None
                            (set_preDrag true (set_startY (touchY e) s)))
                (set_startX (touchX e) g) in
    maybeHandleDoubleTap (touchY e) now
      (primeDragContextFromTarget (touchAncestor e) g1).

(** [function onTouchMove(e)] *)
Definition onTouchMove (e : TouchEv) (now : Q) (g : Gesture) : Gesture :=
  if supportsPointer g then g
  else
    let g1 := if preDrag (sheet g)
              then evaluateAxisLock (touchX e) (touchY e) now g
              else g in
    if dragging (sheet g1)
    then with_sheet (moveDrag cfg (touchY e) now) g1
    else g1.

(** [function onTouchEnd()] *)
Definition onTouchEnd (g : Gesture) : Gesture :=
  if negb (supportsPointer g) then endDragG g else g.

(** [function onMouseDown(e)]; the two [window] listeners it adds call
    [onMouseMove] and [onMouseUp]. *)
Definition onMouseDown (e : PointerEv) (now : Q) (g : Gesture) : Gesture :=
  if negb (isOpen (sheet g)) then g
  else if negb (Z.eqb (button e) 0) then g
  else if desktopBlocked g then g
  else if negb (canStart e) then g
  else
    let g1 := with_sheet
                (fun s => set_axisLocked None
                            (set_preDrag true (set_startY (clientY e) s)))
                (set_startX (clientX e) g) in
    maybeHandleDoubleTap (clientY e) now
      (primeDragContextFromTarget (ancestor e) g1).

(** [function onMouseMove(e)] *)
Definition onMouseMove (e : PointerEv) (now : Q) (g : Gesture) : Gesture :=
  let g1 := if preDrag (sheet g)
            then evaluateAxisLock (clientX e) (clientY e) now g
            else g in
  if dragging (sheet g1)
  then with_sheet (moveDrag cfg (clientY e) now) g1
  else g1.

(** [function onMouseUp()] *)
Definition onMouseUp (g : Gesture) : Gesture := endDragG g.

(** [function onWheel(e)]; [deltaY] is [e.deltaY], [now] is
    [performance.now()]. *)
Definition onWheel (deltaY now : Q) (g : Gesture) : Gesture :=
  let s := sheet g in
  if negb (allowWheelSnap opts) || negb (isOpen s) then g
  else
    let atEdge :=
      match scrollAreaRef g with
      | Some el =>
          (atTop (dom g el) && Qltb deltaY 0)
          || (atBottom (dom g el) && Qltb 0 deltaY)
      | None => true
      end in
    if negb atEdge then g
    else if Qltb (now - lastWheelTs g) (wheelSnapCooldownMs opts) then g
    else
      let g1 := set_lastWheelTs now g in
      let idx := Z.of_nat (currentSnapIndex s) in
      if Qltb 0 deltaY then
        let next := Z.min (idx + 1) (Z.of_nat (length (snaps s)) - 1) in
        let s1 := snapToIndex (inject_Z next) true s in
        let s2 := if Qle_bool (999 # 1000) (nth (Z.to_nat next) (snaps s1) 0)
                  then closeAnimated cfg drag s1
                  else s1 in
        with_sheet (fun _ => s2) g1
      else if Qltb deltaY 0 then
        with_sheet (snapToIndex (inject_Z (Z.max (idx - 1) 0)) true) g1
      else g1.

End Gestures.

(** ** Numbers that are not finite *)

(** A JavaScript number as a caller can pass it: a finite value, an
    infinity or [NaN].  The engine state above holds finite values; the
    functions of this section are the ones the properties follow out of
    that range. *)
Inductive Num :=
| Fin (q : Q)
| PosInf
| NegInf
| NaN.

(** The finite value of a number, 0 where there is none. *)
Definition rep (x : Num) : Q :=
  match x with
  | Fin q => q
  | _ => 0
  end.

(** [Math.max(a, b)] and [Math.min(a, b)]: [NaN] as soon as an argument
    is. *)
Definition maxJ (a b : Num) : Num :=
  match a, b with
  | NaN, _ => NaN
  | _, NaN => NaN
  | PosInf, _ => PosInf
  | _, PosInf => PosInf
  | NegInf, y => y
  | x, NegInf => x
  | Fin x, Fin y => Fin (Qmax x y)
  end.

Definition minJ (a b : Num) : Num :=
  match a, b with
  | NaN, _ => NaN
  | _, NaN => NaN
  | NegInf, _ => NegInf
  | _, NegInf => NegInf
  | PosInf, y => y
  | x, PosInf => x
  | Fin x, Fin y => Fin (Qmin x y)
  end.

(** [function clamp01(x) { return Math.min(1, Math.max(0, x)); }] on every
    number; [clamp01] is its restriction to the finite ones. *)
Definition clamp01J (x : Num) : Num := minJ (Fin 1) (maxJ (Fin 0) x).

(** The equality of [Set]: [NaN] is the same value as [NaN]. *)
Definition sameJ (a b : Num) : bool :=
  match a, b with
  | Fin x, Fin y => Qeq_bool x y
  | PosInf, PosInf => true
  | NegInf, NegInf => true
  | NaN, NaN => true
  | _, _ => false
  end.

Definition memJ (x : Num) (l : list Num) : bool := existsb (sameJ x) l.

Fixpoint set_fromJ (seen xs : list Num) : list Num :=
  match xs with
  | [] => []
  | x :: r => if memJ x seen then set_fromJ seen r
              else x :: set_fromJ (x :: seen) r
  end.

(** [a - b < 0], the test by which [.sort((a, b) => a - b)] lets [b] pass
    [a]; a difference that is [NaN] counts as 0.  With a [NaN] among
    several elements the comparator is not consistent and the order of the
    result is left to the implementation; the properties below read the
    sort on lists free of [NaN] and on the one-element list. *)
Definition belowJ (a b : Num) : bool :=
  match a, b with
  | Fin x, Fin y => Qltb x y
  | NegInf, Fin _ => true
  | NegInf, PosInf => true
  | Fin _, PosInf => true
  | _, _ => false
  end.

Fixpoint insert_ascJ (x : Num) (l : list Num) : list Num :=
  match l with
  | [] => [x]
  | y :: r => if belowJ y x then y :: insert_ascJ x r else x :: y :: r
  end.

Fixpoint sort_ascJ (l : list Num) : list Num :=
  match l with
  | [] => []
  | x :: r => insert_ascJ x (sort_ascJ r)
  end.

(** [function uniqSorted(arr)] on every list of numbers. *)
Definition uniqSortedJ (arr : list Num) : list Num :=
  sort_ascJ (set_fromJ [] (map clamp01J arr)).

(** [uniqSorted(snapPoints.value?.length ? snapPoints.value : [0, 1])] *)
Definition snaps_ofJ (points : list Num) : list Num :=
  uniqSortedJ (match points with
               | [] => [Fin 0; Fin 1]
               | _ :: _ => points
               end).

(** [index | 0] on every number: [NaN] and the infinities give 0. *)
Definition toInt32J (x : Num) : Z :=
  match x with
  | Fin q => toInt32 q
  | _ => 0%Z
  end.

(** [function snapToIndex(index, animate = true)] on every number. *)
Definition snapToIndexJ (index : Num) (animate : bool) (s : Sheet) : Sheet :=
  let pts := snaps s in
  let i := Z.max 0 (Z.min (Z.of_nat (length pts) - 1) (toInt32J index)) in
  let p := nth (Z.to_nat i) pts 0 in
  emit (EvSnap i p) (set_lastSnapIndexMem (inject_Z i) (snapTo p animate s)).

(** [(y - lastY) / (now - lastT)], the velocity sample of [moveDrag], as
    the program has it: at [now = lastT] the divisor is 0 and the quotient
    an infinity of the sign of [y - lastY], or [NaN] when that is 0 too. *)
Definition sampleJ (y lastY now lastT : Q) : Num :=
  if Qeq_bool now lastT then
    if Qltb 0 (y - lastY) then PosInf
    else if Qltb (y - lastY) 0 then NegInf
    else NaN
  else Fin ((y - lastY) / (now - lastT)).

(** [Math.abs(vY) > flingVelocityPxPerMs && vY > 0], the fling test of
    [endDrag], on every number. *)
Definition flingJ (fling : Q) (v : Num) : bool :=
  match v with
  | Fin q => Qltb fling (Qabs q) && Qltb 0 q
  | PosInf => true
  | NegInf => false
  | NaN => false
  end.

(** ** Rounded arithmetic *)

(** A JavaScript number is a binary64 float, and [a + b], [a - b], [a * b]
    and [a / b] are the exact results rounded to the nearest float.  The
    engine above computes with the exact results.  For the properties in
    which the rounding decides an outcome, the functions of this section
    are the same functions with the rounding [rnd] as a parameter: the
    engine's own when [rnd] is the identity, the program's when it is
    [rnd64], as long as the results stay finite.  Comparisons, [Math.abs],
    [Math.min] and [Math.max] do not round; a decimal literal is rounded
    once, where it is written. *)

(** Rounding to the nearest integer, ties to the even one. *)
Definition round_even (x : Q) : Z :=
  let f := Qfloor x in
  match Qcompare (x - inject_Z f) (1 # 2) with
  | Lt => f
  | Gt => (f + 1)%Z
  | Eq => if Z.even f then f else (f + 1)%Z
  end.

(** The binary exponent of a positive number: the [e] with
    [2^e <= x < 2^(e+1)]. *)
Definition ilog2 (x : Q) : Z :=
  let e := (Z.log2 (Qnum x) - Z.log2 (Zpos (Qden x)))%Z in
  if Qle_bool (Qpower 2 e) x then e else (e - 1)%Z.

(** Rounding to binary64: 53 significant bits, ties to even, with the
    fixed spacing [2^-1074] below [2^-1022].  Results of magnitude [2^1024]
    and beyond, which the program replaces by an infinity, are outside
    it. *)
Definition rnd64 (x : Q) : Q :=
  if Qeq_bool x 0 then 0
  else
    let e := Z.max (ilog2 (Qabs x)) (-1022) in
    let ulp := Qpower 2 (e - 52) in
    Qred (inject_Z (round_even (x / ulp)) * ulp).

(** The value of a float of the machine, [None] for [NaN] and the
    infinities; [floatOf n d] is the machine's [n / d]. *)
Definition float_value (f : PrimFloat.float) : option Q :=
  match FloatOps.Prim2SF f with
  | SpecFloat.S754_zero _ => Some 0
  | SpecFloat.S754_finite sign m e =>
      Some (Qred ((if sign then -1 else 1) * inject_Z (Zpos m) * Qpower 2 e))
  | _ => None
  end.

Definition floatOf (n d : Z) : PrimFloat.float :=
  PrimFloat.div (PrimFloat.of_uint63 (Uint63.of_Z n))
                (PrimFloat.of_uint63 (Uint63.of_Z d)).

Section Rounded.

Variable rnd : Q -> Q.

(** The [forEach] of [currentSnapIndex]. *)
Fixpoint nearest_fromR (p : Q) (pts : list Q) (i : nat) (acc : nat * option Q)
  : nat * option Q :=
  match pts with
  | [] => acc
  | sp :: r =>
      let d := Qabs (rnd (sp - p)) in
      let better := match snd acc with
                    | None => true
                    | Some dmin => Qltb d dmin
                    end in
      nearest_fromR p r (S i) (if better then (i, Some d) else acc)
  end.

Definition nearestIndexR (p : Q) (pts : list Q) : nat :=
  fst (nearest_fromR p pts 0%nat (0%nat, None)).

(** [const currentSnapIndex = computed(...)] *)
Definition currentSnapIndexR (s : Sheet) : nat :=
  let h := offsetHeight_or 1 s in
  let p := clamp01 (if truthy h then rnd (translateY s / h) else 0) in
  nearestIndexR p (snaps s).

(** The [for] loop of [endDrag]. *)
Fixpoint nearest_scanR (p : Q) (pts : list Q) (i : nat)
  (acc : Q * option Q * nat) : Q * option Q * nat :=
  match pts with
  | [] => acc
  | pt :: r =>
      let d := Qabs (rnd (p - pt)) in
      let better := match snd (fst acc) with
                    | None => true
                    | Some dmin => Qltb d dmin
                    end in
      nearest_scanR p r (S i) (if better then (pt, Some d, i) else acc)
  end.

(** [function snapTo(progress, animate = true)] *)
Definition snapToR (progress : Q) (animate : bool) (s : Sheet) : Sheet :=
  let h := offsetHeight_or 0 s in
  let targetPx := rnd (clamp01 progress * h) in
  if negb animate || reduceMotion s then set_translateY targetPx s
  else set_translateY targetPx (set_isAnimating true s).

Variable cfg : Config.

(** [function closeAnimated(reason)] *)
Definition closeAnimatedR (reason : CloseReason) (s : Sheet) : Sheet :=
  if negb (isOpen s) then s
  else
    let h := rnd (offsetHeight_or 0 s + openAnimationExtraPx cfg) in
    defer (TCloseFrame h reason) (set_isAnimating true s).

(** [function endDrag()] *)
Definition endDragR (s : Sheet) : Sheet :=
  if negb (dragging s) then s
  else
    let s0 := set_overUp 0 (set_dragging false s) in
    let h := offsetHeight_or 0 s0 in
    let p := if truthy h then rnd (translateY s0 / h) else 0 in
    if Qltb (flingVelocityPxPerMs cfg) (Qabs (vY s0)) && Qltb 0 (vY s0) then
      cleanupGesture (closeAnimatedR drag s0)
    else
      let thresholdPx :=
        Qmax (closeThresholdPx cfg) (rnd (h * closeThresholdRatio cfg)) in
      if Qltb thresholdPx (translateY s0) then
        cleanupGesture (emit (EvDragEnd true) (closeAnimatedR drag s0))
      else
        let points := snaps s0 in
        let '(nearest, _, ni) :=
          nearest_scanR p points 0%nat (nth 0 points 0, None, 0%nat) in
        if Qle_bool (rnd (999 # 1000)) nearest then
          cleanupGesture (emit (EvDragEnd true) (closeAnimatedR drag s0))
        else
          cleanupGesture
            (emit (EvSnap (Z.of_nat ni) nearest)
               (emit (EvDragEnd false)
                  (snapToR nearest true (set_isAnimating true s0)))).

End Rounded.

(** ** What the view draws at an offset that may not be finite *)

(** [translateY] is written with whatever number [snapTo] computes, and
    that is [NaN] when the progress it is given is.  The functions of this
    section are the render parameters with the offset as an argument [ty]
    that may be any number; the height, the upward overdrag and the option
    [overlayMaxOpacity] are finite. *)

(** [x / h] for a finite divisor, which is not 0 where this is used. *)
Definition divJ (x : Num) (h : Q) : Num :=
  match x with
  | Fin q => Fin (q / h)
  | PosInf => if Qltb h 0 then NegInf else PosInf
  | NegInf => if Qltb h 0 then PosInf else NegInf
  | NaN => NaN
  end.

(** [x + q] and [q - x] for a finite [q]. *)
Definition addJ (x : Num) (q : Q) : Num :=
  match x with
  | Fin a => Fin (a + q)
  | _ => x
  end.

Definition rsubJ (q : Q) (x : Num) : Num :=
  match x with
  | Fin a => Fin (q - a)
  | PosInf => NegInf
  | NegInf => PosInf
  | NaN => NaN
  end.

(** [q * x] for a finite [q]: 0 times an infinity is [NaN]. *)
Definition mulJ (q : Q) (x : Num) : Num :=
  match x with
  | Fin a => Fin (q * a)
  | PosInf => if Qeq_bool q 0 then NaN
              else if Qltb q 0 then NegInf else PosInf
  | NegInf => if Qeq_bool q 0 then NaN
              else if Qltb q 0 then PosInf else NegInf
  | NaN => NaN
  end.

(** [sheetRef.value?.offsetHeight || window.innerHeight || 1] *)
Definition viewHeight (s : Sheet) : Q :=
  or_else (offsetHeight_or (innerHeight s) s) 1.

(** [const dragProgress = computed(...)] *)
Definition dragProgressJ (s : Sheet) (ty : Num) : Num :=
  clamp01J (divJ ty (viewHeight s)).

(** [const sheetScale = computed(...)] *)
Definition sheetScaleJ (s : Sheet) (ty : Num) : Num :=
  let p := minJ (Fin 1) (maxJ (Fin 0) (addJ (dragProgressJ s ty) (overUp s))) in
  rsubJ 1 (mulJ (2 # 100) p).

(** [const overlayOpacity = computed(...)] *)
Definition overlayOpacityJ (overlayMaxOpacity : Q) (s : Sheet) (ty : Num)
  : Num :=
  mulJ overlayMaxOpacity (rsubJ 1 (dragProgressJ s ty)).

(** The [translateY(...)] of [sheetStyle]. *)
Definition renderedOffsetJ (ty : Num) : Num := maxJ (Fin 0) ty.

(** ** Predicates used by the properties *)

(** A normalized position: 0 is fully open, 1 is fully closed. *)
Definition in01 (x : Q) : Prop := 0 <= x <= 1.

(** The same of a number that may not be finite. *)
Definition in01J (x : Num) : Prop :=
  match x with
  | Fin q => in01 q
  | _ => False
  end.

(** No two positions hold the same number. *)
Definition distinctQ : list Q -> Prop :=
  ForallOrdPairs (fun a b => ~ a == b).


(** The index a sheet of the world holds, if any. *)
Definition holds (w : World) (k : nat) (i : Z) : Prop :=
  exists s, nth_error (sheets w) k = Some s /\ stackIndex s = Some i.

(** Worlds reached when sheets close in reverse order of opening: the sheet
    that closes is the one holding the current value of the counter. *)
Inductive lifo : World -> Prop :=
| lifo_start (ss : list Sheet) :
    Forall (fun s => stackIndex s = None) ss -> lifo (mkWorld 0 ss)
| lifo_open (w : World) (k : nat) :
    lifo w -> lifo (open_at k w)
| lifo_close (w : World) (k : nat) (reason : CloseReason) :
    lifo w -> holds w k (STACK_COUNT w) -> lifo (close_at reason k w).

(** Held indices lie in [1, STACK_COUNT] and no two sheets hold the same. *)
Definition stack_ok (w : World) : Prop :=
  (0 <= STACK_COUNT w)%Z
  /\ (forall k i, holds w k i -> (1 <= i <= STACK_COUNT w)%Z)
  /\ (forall k1 k2 i, holds w k1 i -> holds w k2 i -> k1 = k2).

(** The registry after a called handler returned normally. *)
Definition after_call (id : nat) (reg : KeydownReg) (e : KeyEvent)
  (R : Registry) : Registry :=
  let R1 := fold_left (fun acc i => keydown_off i acc)
                      (ho_off (handler reg e)) R in
  if once reg then keydown_off id R1 else R1.

(** The event after a handler ran on it. *)
Definition after_event (reg : KeydownReg) (e : KeyEvent) : KeyEvent :=
  if ho_prevent (handler reg e) then preventDefault e else e.

(** ** Concrete configurations, sheets and handlers *)

(** Scenario D: [requestClose('esc')] with a hook that resolves [false]. *)
Definition denyAll : Config := {|
  closeThresholdPx := 120;
  closeThresholdRatio := 1 # 4;
  flingVelocityPxPerMs := 6 # 5;
  openAnimation := fromBottom;
  openAnimationExtraPx := 120;
  overdragUpPx := 80;
  overdragDownPx := 120;
  overdragDamping := 1 # 2;
  rememberLastSnapIndex := true;
  initialSnapIndex := 0;
  snapPoints := [0; 1];
  trapFocus := true;
  closeOnEsc := true;
  onBeforeClose := Some (fun _ => HookResolves false)
|}.

(** An open sheet of height 400 with the snap points [0, 0.5, 1]. *)
Definition sheet400 : Sheet := {|
  isOpen := true; isAnimating := false;
  sheetHeight := Some 400; innerHeight := 800; reduceMotion := false;
  translateY := 0; overUp := 0;
  dragging := false; activePointerId := None;
  startY := 0; preDrag := false; axisLocked := None;
  lastY := 0; lastT := 0; vY := 0;
  stackIndex := Some 1%Z;
  lastSnapIndexMem := 0;
  snapPointsRef := [0; 1 # 2; 1];
  inScroll := false;
  focusables := []; activeElement := None;
  keydown := mkRegistry [] [] 0;
  events := []; pending := []
|}.

(** An open sheet of height [h] in the middle of a drag: offset [ty],
    sampled velocity [v], snap points [0, 0.5, 1]. *)
Definition dragged (h ty v : Q) : Sheet := {|
  isOpen := true; isAnimating := false;
  sheetHeight := Some h; innerHeight := 800; reduceMotion := false;
  translateY := ty; overUp := 0;
  dragging := true; activePointerId := Some 7%Z;
  startY := 100; preDrag := false; axisLocked := Some AxisY;
  lastY := 100 + ty; lastT := 1000; vY := v;
  stackIndex := Some 1%Z;
  lastSnapIndexMem := 0;
  snapPointsRef := [0; 1 # 2; 1];
  inScroll := false;
  focusables := []; activeElement := None;
  keydown := mkRegistry [] [] 0;
  events := [EvDragStart]; pending := []
|}.

(** A drag at rest over the snap points [pts], about to be released. *)
Definition released (h ty : Q) (pts : list Q) : Sheet :=
  set_snapPointsRef pts (dragged h ty 0).

(** The same drag after [close('esc')] ran in the middle of it. *)
Definition closedMidDrag : Sheet := snd (close esc 1 (dragged 400 20 2)).

(** Three fresh instances sharing [STACK_COUNT = 0]. *)
Definition three_sheets : World :=
  mkWorld 0 [initialSheet defaultConfig; initialSheet defaultConfig;
             initialSheet defaultConfig].

(** A handler that calls [e.preventDefault()] and then throws. *)
Definition throwing : KeyEvent -> HandlerOutcome :=
  fun _ => mkOutcome true [] Throws.

(** A handler that returns nothing and leaves the event alone. *)
Definition quiet : KeyEvent -> HandlerOutcome :=
  fun _ => mkOutcome false [] (Returns None).

(** A handler that returns [true]. *)
Definition handling : KeyEvent -> HandlerOutcome :=
  fun _ => mkOutcome false [] (Returns (Some true)).

(** Registries: the first handler at priority 10, [quiet] at priority 0. *)
Definition only_throwing : Registry :=
  fst (keydown_on throwing (Some 10) None (mkRegistry [] [] 0)).

Definition throwing_then_quiet : Registry :=
  fst (keydown_on quiet None None only_throwing).

Definition handling_then_quiet : Registry :=
  fst (keydown_on quiet None None
         (fst (keydown_on handling (Some 10) None (mkRegistry [] [] 0)))).

Definition escapeKey : KeyEvent := mkKeyEvent KEscape false false.

(** ** Part III's definitions: executions, registry order, gesture states *)

(** [i] is the first index of [pts] at which [dist] is least. *)
Definition first_min (dist : Q -> Q) (pts : list Q) (i : nat) : Prop :=
  (i < length pts)%nat
  /\ (forall j, (j < length pts)%nat ->
        dist (nth i pts 0) <= dist (nth j pts 0))
  /\ (forall j, (j < i)%nat -> dist (nth i pts 0) < dist (nth j pts 0)).

(** The state in which the snap of the open animation runs, one per
    [openAnimation] mode. *)
Definition opening (cfg : Config) (count : Z) (s : Sheet) : Sheet :=
  let s1 := set_stackIndex (Some (count + 1)%Z) (set_isOpen true s) in
  match openAnimation cfg with
  | fromBottom =>
      set_translateY (offsetHeight_or 0 s + openAnimationExtraPx cfg)
        (set_isAnimating true s1)
  | _ => s1
  end.

(** A closed, mounted 400px sheet that last rested at index 1. *)
Definition closed400 : Sheet :=
  set_lastSnapIndexMem 1 (set_stackIndex None (set_isOpen false sheet400)).

(** The options of [denyAll] with a hook that approves every close. *)
Definition approveAll : Config := {|
  closeThresholdPx := 120;
  closeThresholdRatio := 1 # 4;
  flingVelocityPxPerMs := 6 # 5;
  openAnimation := fromBottom;
  openAnimationExtraPx := 120;
  overdragUpPx := 80;
  overdragDownPx := 120;
  overdragDamping := 1 # 2;
  rememberLastSnapIndex := true;
  initialSnapIndex := 0;
  snapPoints := [0; 1];
  trapFocus := true;
  closeOnEsc := true;
  onBeforeClose := Some (fun _ => HookResolves true)
|}.

(** The state right after [useBottomSheet(opts)] returns, before [onMounted]
    has looked at the window. *)
Definition initialGesture (cfg : Config) : Gesture := {|
  sheet := initialSheet cfg;
  startX := 0;
  originScrollEl := None; startScrollTop := 0;
  startAtTop := false; startAtBottom := false;
  scrollAreaRef := None; bsScroll := None;
  dom := fun _ => mkScrollEl 0 0 0 false;
  lastTapTs := 0; lastTapY := 0; lastWheelTs := 0;
  isMobile := false; supportsPointer := false
|}.

(** What can happen to an instance: a call of its public interface, an
    input event, a deferred callback coming due, or the page changing under
    it. *)
Inductive Op :=
| OOpen
| OClose (reason : CloseReason)
| ORequestClose (reason : CloseReason)
| OCloseAnimated (reason : CloseReason)
| OToggle (force : option bool)
| OSnapTo (progress : Q) (animate : bool)
| OSnapToIndex (index : Q) (animate : bool)
| OSetSnapPoints (points : list Q) (toIndex : option Q)
| OOverlayClick
| OHistory
| OKeydown (e : KeyEvent)
| ORegister (h : KeyEvent -> HandlerOutcome) (prio : option Q)
            (onceOpt : option bool)
| OUnregister (id : nat)
| OClearKeydown
| OFire (k : nat)
| OPointerDown (e : PointerEv) (now : Q)
| OPointerMove (e : PointerEv) (now : Q)
| OPointerUp (e : PointerEv)
| OTouchStart (e : TouchEv) (now : Q)
| OTouchMove (e : TouchEv) (now : Q)
| OTouchEnd
| OMouseDown (e : PointerEv) (now : Q)
| OMouseMove (e : PointerEv) (now : Q)
| OMouseUp
| OWheel (deltaY now : Q)
| OResize (h : option Q)          (** the sheet element mounts, unmounts or
                                      changes height: the DOM alone *)
| OContentResize (progress : Q)   (** the [ResizeObserver] callback runs *)
| OWindowResize (mobile : bool) (progress : Q)
                                  (** [resize] or [orientationchange] *)
| OLostPointerCapture             (** [lostpointercapture] *)
| OTransitionEnd                  (** [transitionend] on the sheet: the
                                      listener of [onMounted]; [onDone] of
                                      [closeAnimated] is a task *)
| OScroll (el : nat) (geometry : ScrollEl)
| OMedia (mobile pointer : bool)  (** [isMobile], [supportsPointer] *).

Definition set_dom (el : nat) (geometry : ScrollEl) (g : Gesture) : Gesture :=
  mkGesture (sheet g) (startX g) (originScrollEl g) (startScrollTop g)
    (startAtTop g) (startAtBottom g) (scrollAreaRef g) (bsScroll g)
    (fun n => if Nat.eqb n el then geometry else dom g n)
    (lastTapTs g) (lastTapY g) (lastWheelTs g) (isMobile g)
    (supportsPointer g).

Definition set_media (mobile pointer : bool) (g : Gesture) : Gesture :=
  mkGesture (sheet g) (startX g) (originScrollEl g) (startScrollTop g)
    (startAtTop g) (startAtBottom g) (scrollAreaRef g) (bsScroll g) (dom g)
    (lastTapTs g) (lastTapY g) (lastWheelTs g) mobile pointer.

(** The body shared by the [ResizeObserver] callback and [onWindowResize]:
    [h = offsetHeight || 1], [p = clamp01(dragProgress.value)],
    [translateY.value = p * h].  [dragProgress] is a cached [computed]
    whose value depends on the element height, which Vue does not track:
    after a change of height it returns what its last evaluation gave until
    the offset is written again.  The state does not record that
    evaluation, so the value read is the argument [progress]. *)
Definition keepProgress (progress : Q) (s : Sheet) : Sheet :=
  set_translateY (clamp01 progress * offsetHeight_or 1 s) s.

(** The callback of [new ResizeObserver(...)] in [onMounted]. *)
Definition onContentResize (progress : Q) (s : Sheet) : Sheet :=
  match sheetHeight s with
  | None => s
  | Some _ => keepProgress progress s
  end.

(** [function onWindowResize()]; [mobile] is what [updateIsMobile] reads
    from [window.matchMedia(breakpoint)]. *)
Definition onWindowResize (mobile : bool) (progress : Q) (g : Gesture)
  : Gesture :=
  let g1 := set_media mobile (supportsPointer g) g in
  match isOpen (sheet g1), sheetHeight (sheet g1) with
  | true, Some _ => with_sheet (keepProgress progress) g1
  | _, _ => g1
  end.

(** [transitionHandler], which [onMounted] adds to the sheet element. *)
Definition onTransitionEnd (s : Sheet) : Sheet :=
  match sheetHeight s with
  | None => s
  | Some _ => set_isAnimating false s
  end.

(** A function of the instance and [STACK_COUNT], on the gesture state. *)
Definition lift (f : Z -> Sheet -> Z * Sheet) (st : Z * Gesture)
  : Z * Gesture :=
  let '(c, s) := f (fst st) (sheet (snd st)) in
  (c, with_sheet (fun _ => s) (snd st)).

Section Execution.

Variable cfg : Config.
Variable opts : InputOptions.
Variable angleDeg : Q -> Q -> Q.

(** One step; [None] is the [NaN] offset of [setSnapPoints].  A change of
    the element height is a fact of the DOM ([OResize]); the callbacks that
    react to it are steps of their own, which the browser delivers later
    ([OContentResize], when [watchContentResize] is on) or on a window
    event ([OWindowResize]). *)
Definition exec (op : Op) (st : Z * Gesture) : option (Z * Gesture) :=
  let on_sheet f := Some (fst st, with_sheet f (snd st)) in
  let on_gesture f := Some (fst st, f (snd st)) in
  match op with
  | OOpen => Some (lift open st)
  | OClose reason => Some (lift (close reason) st)
  | ORequestClose reason => Some (lift (requestClose cfg reason) st)
  | OCloseAnimated reason => on_sheet (closeAnimated cfg reason)
  | OToggle force => Some (lift (toggle cfg force) st)
  | OSnapTo progress animate => on_sheet (snapTo progress animate)
  | OSnapToIndex index animate => on_sheet (snapToIndex index animate)
  | OSetSnapPoints points toIndex =>
      match setSnapPoints points toIndex (sheet (snd st)) with
      | Some s => on_sheet (fun _ => s)
      | None => None
      end
  | OOverlayClick => Some (lift (onOverlayClick cfg opts) st)
  | OHistory => Some (lift (onHistory cfg) st)
  | OKeydown e =>
      Some (lift (fun c s => fst (focusTrapKeydown cfg e c s)) st)
  | ORegister h prio onceOpt =>
      on_sheet (fun s => set_keydown (fst (keydown_on h prio onceOpt (keydown s))) s)
  | OUnregister id =>
      on_sheet (fun s => set_keydown (keydown_off id (keydown s)) s)
  | OClearKeydown =>
      on_sheet (fun s => set_keydown (keydown_clear (keydown s)) s)
  | OFire k => Some (lift (fire cfg k) st)
  | OPointerDown e now => on_gesture (onPointerDown opts e now)
  | OPointerMove e now => on_gesture (onPointerMove cfg opts angleDeg e now)
  | OPointerUp e => on_gesture (onPointerUp cfg e)
  | OTouchStart e now => on_gesture (onTouchStart opts e now)
  | OTouchMove e now => on_gesture (onTouchMove cfg opts angleDeg e now)
  | OTouchEnd => on_gesture (onTouchEnd cfg)
  | OMouseDown e now => on_gesture (onMouseDown opts e now)
  | OMouseMove e now => on_gesture (onMouseMove cfg opts angleDeg e now)
  | OMouseUp => on_gesture (onMouseUp cfg)
  | OWheel deltaY now => on_gesture (onWheel cfg opts deltaY now)
  | OResize h => on_sheet (set_sheetHeight h)
  | OContentResize progress =>
      if watchContentResize opts then on_sheet (onContentResize progress)
      else Some st
  | OWindowResize mobile progress =>
      on_gesture (onWindowResize mobile progress)
  | OLostPointerCapture => on_gesture (endDragG cfg)
  | OTransitionEnd => on_sheet onTransitionEnd
  | OScroll el geometry => on_gesture (set_dom el geometry)
  | OMedia mobile pointer => on_gesture (set_media mobile pointer)
  end.

Fixpoint exec_all (ops : list Op) (st : Z * Gesture) : option (Z * Gesture) :=
  match ops with
  | [] => Some st
  | op :: rest =>
      match exec op st with
      | Some st1 => exec_all rest st1
      | None => None
      end
  end.

End Execution.

(** The page never reports a negative element height. *)
Definition op_valid (op : Op) : Prop :=
  match op with
  | OResize (Some h) => 0 <= h
  | _ => True
  end.

(** The watcher of [isOpen]: [watch(isOpen, async (open) => ...)].  Vue
    queues the watcher when [isOpen] is written and runs it once the
    running task has returned, if the value then differs from the one it
    last ran for.  [seenOpen] is that value and [lastFocused] the closure
    variable of the same name.  The scroll lock and the [inert] flags,
    which the watcher sets on the document, are outside the state. *)
Record Watched := mkWatched {
  inst : Gesture;
  seenOpen : bool;
  lastFocused : option nat
}.

Section Watcher.

Variable cfg : Config.
Variable opts : InputOptions.

(** The element [sheetRef.value], once it is mounted. *)
Variable sheetEl : nat.

(** The watcher runs, if it has to: both halves of its callback, the one
    before and the one after [await nextTick()]. *)
Definition flushWatch (w : Watched) : Watched :=
  let g := inst w in
  if Bool.eqb (isOpen (sheet g)) (seenOpen w) then w
  else if isOpen (sheet g) then
    let mounted := match sheetHeight (sheet g) with
                   | Some _ => true
                   | None => false
                   end in
    let g1 := if mounted then with_sheet (set_activeElement (Some sheetEl)) g
              else g in
    let g2 := match scrollAreaRef g1 with
              | Some _ => g1
              | None =>
                  if autoFindScrollArea opts && mounted
                  then match bsScroll g1 with
                       | Some el => set_scrollAreaRef (Some el) g1
                       | None => g1
                       end
                  else g1
              end in
    mkWatched (with_sheet (defer TOpened) g2) true (activeElement (sheet g))
  else
    let g1 := match lastFocused w with
              | Some el => with_sheet (set_activeElement (Some el)) g
              | None => g
              end in
    mkWatched g1 false None.

(** A task of the page: a function of the instance runs to its end, then
    the watcher is flushed. *)
Definition task (f : Z -> Sheet -> Z * Sheet) (st : Z * Watched)
  : Z * Watched :=
  let r := lift f (fst st, inst (snd st)) in
  (fst r,
   flushWatch (mkWatched (snd r) (seenOpen (snd st)) (lastFocused (snd st)))).

(** The deferred callbacks from position [k] on run one after the other,
    oldest first, at most [n] of them.  For animation-frame callbacks this
    is the order of the browser: those requested before a frame run in it
    in the order of their requests, those requested during it in the
    next. *)
Fixpoint frames (n k : nat) (st : Z * Watched) : Z * Watched :=
  match n with
  | O => st
  | S n' =>
      if (k <? length (pending (sheet (inst (snd st)))))%nat
      then frames n' k (task (fire cfg k) st)
      else st
  end.

(** [open()] as a task of its own, and the animation frames that follow
    it. *)
Definition open_and_frames (st : Z * Watched) : Z * Watched :=
  let k := length (pending (sheet (inst (snd st)))) in
  frames 3 k (task open st).

End Watcher.

(** During a drag the clock of a move has advanced since the last velocity
    sample, so that the sample [(y - lastY) / (now - lastT)] is a finite
    number. *)
Definition clock_ok (op : Op) (g : Gesture) : Prop :=
  match op with
  | OPointerMove _ now | OTouchMove _ now | OMouseMove _ now =>
      dragging (sheet g) = true -> lastT (sheet g) < now
  | _ => True
  end.

(** The states an instance and its watcher reach from the state in which
    [useBottomSheet] leaves them. *)
Inductive reachable (cfg : Config) (opts : InputOptions)
  (angleDeg : Q -> Q -> Q) (sheetEl : nat) : Z * Watched -> Prop :=
| reach_init :
    reachable cfg opts angleDeg sheetEl
      (0%Z, mkWatched (initialGesture cfg) false None)
| reach_exec (op : Op) (c : Z) (w : Watched) (st1 : Z * Gesture) :
    reachable cfg opts angleDeg sheetEl (c, w) ->
    op_valid op -> clock_ok op (inst w) ->
    exec cfg opts angleDeg op (c, inst w) = Some st1 ->
    reachable cfg opts angleDeg sheetEl
      (fst st1, mkWatched (snd st1) (seenOpen w) (lastFocused w))
| reach_flush (c : Z) (w : Watched) :
    reachable cfg opts angleDeg sheetEl (c, w) ->
    reachable cfg opts angleDeg sheetEl (c, flushWatch opts sheetEl w).

(** A run given step by step, [None] when a step is not one of
    [reachable]. *)
Inductive Step :=
| SOp (op : Op)
| SFlush.

Definition op_validb (op : Op) : bool :=
  match op with
  | OResize (Some h) => Qle_bool 0 h
  | _ => true
  end.

Definition clock_okb (op : Op) (g : Gesture) : bool :=
  match op with
  | OPointerMove _ now | OTouchMove _ now | OMouseMove _ now =>
      negb (dragging (sheet g)) || Qltb (lastT (sheet g)) now
  | _ => true
  end.

Fixpoint run_steps (cfg : Config) (opts : InputOptions)
  (angleDeg : Q -> Q -> Q) (sheetEl : nat) (l : list Step)
  (st : Z * Watched) : option (Z * Watched) :=
  match l with
  | [] => Some st
  | SFlush :: r =>
      run_steps cfg opts angleDeg sheetEl r
        (fst st, flushWatch opts sheetEl (snd st))
  | SOp op :: r =>
      if op_validb op && clock_okb op (inst (snd st)) then
        match exec cfg opts angleDeg op (fst st, inst (snd st)) with
        | Some st1 =>
            run_steps cfg opts angleDeg sheetEl r
              (fst st1,
               mkWatched (snd st1) (seenOpen (snd st)) (lastFocused (snd st)))
        | None => None
        end
      else None
  end.

(** The option ranges the rubber band and the open animation rely on. *)
Definition config_ok (cfg : Config) : Prop :=
  0 < overdragUpPx cfg /\ 0 < overdragDownPx cfg
  /\ 0 <= overdragDamping cfg <= 1
  /\ 0 <= openAnimationExtraPx cfg.

Definition task_ok (t : Task) : Prop :=
  match t with
  | TCloseFrame h _ => 0 <= h
  | _ => True
  end.

Definition height_ok (h : option Q) : Prop :=
  match h with
  | Some x => 0 <= x
  | None => True
  end.

(** The offset is never negative, the upward overdrag stays within [0,1],
    the sheet is open exactly when it holds a stack index, and that index
    is positive. *)
Definition sheet_ok (s : Sheet) : Prop :=
  0 <= translateY s
  /\ 0 <= overUp s <= 1
  /\ (isOpen s = true <-> stackIndex s <> None)
  /\ (forall i, stackIndex s = Some i -> (1 <= i)%Z)
  /\ height_ok (sheetHeight s)
  /\ Forall task_ok (pending s).

Definition state_ok (st : Z * Gesture) : Prop :=
  (0 <= fst st)%Z /\ sheet_ok (sheet (snd st)).

(** The fields that [sheet_ok] reads. *)
Definition same_core (s s1 : Sheet) : Prop :=
  translateY s1 = translateY s /\ overUp s1 = overUp s
  /\ isOpen s1 = isOpen s /\ stackIndex s1 = stackIndex s
  /\ sheetHeight s1 = sheetHeight s /\ pending s1 = pending s.

(** A stand-in for [Math.atan2(dy, dx) * (180 / Math.PI)] that agrees with
    it on the two axes and on the diagonal of the first quadrant. *)
Definition axisAngle (dy dx : Q) : Q :=
  if Qeq_bool dx 0 then 90 else if Qeq_bool dy 0 then 0 else 45.

(** A primary-button press or move of pointer 1 at the given position, on
    a target that may start a drag and has no scrollable ancestor. *)
Definition pointerAt (x y : Q) : PointerEv :=
  mkPointerEv false 0 1 x y true None.

(** Mount at 400px on a phone, open, let the watcher and the animation
    frames run, let the resize observer report, then drag 300px down,
    release, and let the close animation and the watcher run. *)
Definition session : list Step :=
  [SOp (OResize (Some 400)); SOp (OMedia true true); SOp OOpen; SFlush;
   SOp (OFire 0); SOp (OFire 0); SOp (OFire 0); SOp (OContentResize 0);
   SOp (OPointerDown (pointerAt 50 100) 1000);
   SOp (OPointerMove (pointerAt 50 120) 1016);
   SOp (OPointerMove (pointerAt 50 400) 1400);
   SOp (OPointerUp (pointerAt 50 400));
   SOp (OFire 0); SOp (OFire 0); SFlush].


(** The 400px sheet with three focusable elements, the focus on the last. *)
Definition focused400 : Sheet :=
  mkSheet true false (Some 400) 800 false 0 0 false None 0 false None 0 0 0
    (Some 1%Z) 0 [0; 1 # 2; 1] false [10; 11; 12]%nat (Some 12%nat)
    (mkRegistry [] [] 0) [] [].

(** [a] comes before [b]: higher priority first, and among equal
    priorities the registration made earlier. *)
Definition before (R : Registry) (a b : nat) : Prop :=
  priority_of R b < priority_of R a
  \/ (priority_of R b == priority_of R a /\ (a < b)%nat).

(** What [on], the [off] closures, [run] and [clear] keep true of a
    registry: no registration is listed twice, every listed one is an
    active object of the store, ids are the sequence numbers handed out so
    far, and the list is in dispatch order. *)
Definition reg_ok (R : Registry) : Prop :=
  NoDup (regs R)
  /\ (forall id, In id (regs R) ->
        exists reg, lookup_reg id R = Some reg /\ active reg = true)
  /\ (forall reg, In reg (objs R) -> (reg_id reg <= seq R)%nat)
  /\ StronglySorted (before R) (regs R).

(** Where [regs.push(reg); regs.sort(...)] puts a new registration in a
    list that is already in order: in front of the first entry of strictly
    lower priority. *)
Fixpoint place (prio : nat -> Q) (x : nat) (l : list nat) : list nat :=
  match l with
  | [] => [x]
  | y :: r => if Qltb (prio y) (prio x) then x :: y :: r
              else y :: place prio x r
  end.

Definition offs (ids : list nat) (R : Registry) : Registry :=
  fold_left (fun acc i => keydown_off i acc) ids R.

(** The registration [id] exists with handler [h] and [once] flag [o]. *)
Definition has_handler (id : nat) (h : KeyEvent -> HandlerOutcome) (o : bool)
  (R : Registry) : Prop :=
  exists r, lookup_reg id R = Some r /\ handler r = h /\ once r = o.

(** The registration [id] cannot be called: it is unknown or inactive. *)
Definition inactive (id : nat) (R : Registry) : Prop :=
  forall r, lookup_reg id R = Some r -> active r = false.

(** The calls a user of the registry can make, and a registry built by a
    sequence of them from the one [createKeydownRegistry] starts with. *)
Inductive RegOp :=
| ROn (h : KeyEvent -> HandlerOutcome) (prio : option Q) (onceOpt : option bool)
| ROff (id : nat)
| RRun (e : KeyEvent)
| RClear.

Definition emptyRegistry : Registry := mkRegistry [] [] 0.

Definition reg_exec (op : RegOp) (R : Registry) : Registry :=
  match op with
  | ROn h prio onceOpt => fst (keydown_on h prio onceOpt R)
  | ROff id => keydown_off id R
  | RRun e => snd (fst (fst (run e R)))
  | RClear => keydown_clear R
  end.


(** A handler that unregisters [b] and returns nothing. *)
Definition unhooking (b : nat) : KeyEvent -> HandlerOutcome :=
  fun _ => mkOutcome false [b] (Returns None).

(** [unhooking 2] at priority 10, then [quiet] at priority 0. *)
Definition unhooking_then_quiet : Registry :=
  fst (keydown_on quiet None None
         (fst (keydown_on (unhooking 2) (Some 10) None emptyRegistry))).

(** [quiet] registered with [once: true]. *)
Definition quiet_once : Registry :=
  fst (keydown_on quiet None (Some true) emptyRegistry).

(** The input that can follow a press: moves and releases. *)
Definition is_follow (op : Op) : bool :=
  match op with
  | OPointerMove _ _ | OPointerUp _ | OTouchMove _ _ | OTouchEnd
  | OMouseMove _ _ | OMouseUp => true
  | _ => false
  end.

(** A move below the point of the press, or a release. *)
Definition pulls_down (y0 : Q) (op : Op) : Prop :=
  match op with
  | OPointerMove e _ | OMouseMove e _ => y0 < clientY e
  | OTouchMove e _ => y0 < touchY e
  | OPointerUp _ | OTouchEnd | OMouseUp => True
  | _ => False
  end.

(** The press went down inside the scrollable element [el], whose content
    was not at the top then and is not now, and no drag is active. *)
Definition scroll_held (el : nat) (g : Gesture) : Prop :=
  dragging (sheet g) = false /\ inScroll (sheet g) = true
  /\ originScrollEl g = Some el /\ startAtTop g = false
  /\ atTop (dom g el) = false.

(** What a gesture that starts no drag leaves as it was. *)
Definition untouched (g g1 : Gesture) : Prop :=
  events (sheet g1) = events (sheet g)
  /\ translateY (sheet g1) = translateY (sheet g)
  /\ startY (sheet g1) = startY (sheet g)
  /\ isOpen (sheet g1) = isOpen (sheet g).

(** The state in which a vertical lock begins the drag. *)
Definition begin_drag (y now : Q) (g : Gesture) : Gesture :=
  with_sheet (fun s1 => set_preDrag false (startDrag y now s1))
             (with_sheet (set_axisLocked (Some AxisY)) g).

Definition pointerMoves (cfg : Config) (opts : InputOptions)
  (angleDeg : Q -> Q -> Q) (ms : list (PointerEv * Q)) (g : Gesture)
  : Gesture :=
  fold_left (fun acc m => onPointerMove cfg opts angleDeg (fst m) (snd m) acc)
            ms g.

(** The press passes the four guards of [onPointerDown]. *)
Definition accepted (opts : InputOptions) (e : PointerEv) (g : Gesture)
  : Prop :=
  isOpen (sheet g) = true
  /\ (isMouse e = false \/ button e = 0%Z)
  /\ desktopBlocked opts g = false
  /\ canStart e = true.



(** [sheet400] on a phone whose browser has pointer events; the sheet has
    no scroll area. *)
Definition phone400 : Gesture := {|
  sheet := sheet400;
  startX := 0;
  originScrollEl := None; startScrollTop := 0;
  startAtTop := false; startAtBottom := false;
  scrollAreaRef := None; bsScroll := None;
  dom := fun _ => mkScrollEl 0 0 0 false;
  lastTapTs := 0; lastTapY := 0; lastWheelTs := 0;
  isMobile := true; supportsPointer := true
|}.

(** The phone instance around a given sheet, with a watcher that last ran
    for [seen]. *)
Definition watching (s : Sheet) (seen : bool) : Watched :=
  mkWatched (with_sheet (fun _ => s) phone400) seen None.

(** The same with a scroll area, element 1: 300px tall, 900px of content,
    scrolled down by 120px. *)
Definition scrolling400 : Gesture := {|
  sheet := sheet400;
  startX := 0;
  originScrollEl := None; startScrollTop := 0;
  startAtTop := false; startAtBottom := false;
  scrollAreaRef := Some 1%nat; bsScroll := None;
  dom := fun _ => mkScrollEl 120 300 900 true;
  lastTapTs := 0; lastTapY := 0; lastWheelTs := 0;
  isMobile := true; supportsPointer := true
|}.

(** Pointer 1 pressed at (50, 100), at time 1000. *)
Definition pressed400 : Gesture :=
  onPointerDown defaultInput (pointerAt 50 100) 1000 phone400.

Definition pressed_in_scroll : Gesture :=
  onPointerDown defaultInput (pointerAt 50 100) 1000 scrolling400.

(** The drag that a move to (50, 120) starts from [pressed400]. *)
Definition dragging400 : Gesture :=
  onPointerMove defaultConfig defaultInput axisAngle (pointerAt 50 120) 1016
    pressed400.

(** * Part II: properties *)

(** Normal form of a chain of field updates. *)
Ltac sheet_fields :=
  cbn [isOpen isAnimating sheetHeight innerHeight reduceMotion translateY
       overUp dragging activePointerId startY preDrag axisLocked lastY lastT
       vY stackIndex lastSnapIndexMem snapPointsRef inScroll focusables
       activeElement keydown events pending
       set_isOpen set_isAnimating set_translateY set_overUp set_dragging
       clear_pointer set_velocity set_stackIndex set_lastSnapIndexMem
       set_inScroll set_activeElement set_keydown set_pending emit defer
       cleanupGesture fst snd].

(** ** Numbers *)

Lemma Qltb_lt (a b : Q) : Qltb a b = true <-> a < b.
Proof.
  unfold Qltb. rewrite negb_true_iff. split; intro H.
  - apply Qnot_le_lt. intro Hle. apply Qle_bool_iff in Hle. congruence.
  - destruct (Qle_bool b a) eqn:E; [|reflexivity].
    apply Qle_bool_iff in E. exfalso. apply (Qlt_not_le _ _ H E).
Qed.

Lemma Qltb_ge (a b : Q) : Qltb a b = false <-> b <= a.
Proof.
  unfold Qltb. rewrite negb_false_iff. apply Qle_bool_iff.
Qed.

Lemma truthy_true (x : Q) : truthy x = true <-> ~ x == 0.
Proof.
  unfold truthy. rewrite negb_true_iff. split; intro H.
  - intro E. apply Qeq_bool_iff in E. congruence.
  - destruct (Qeq_bool x 0) eqn:E; [|reflexivity].
    apply Qeq_bool_iff in E. contradiction.
Qed.

Lemma or_else_pos (x d : Q) : 0 < x -> or_else x d = x.
Proof.
  intro H. unfold or_else.
  replace (truthy x) with true; [reflexivity|].
  symmetry. apply truthy_true. lra.
Qed.

Lemma clamp01_range (x : Q) : 0 <= clamp01 x <= 1.
Proof.
  unfold clamp01. split.
  - apply Q.min_glb; [lra | apply Q.le_max_l].
  - apply Q.le_min_l.
Qed.

Lemma clamp01_id (x : Q) : 0 <= x <= 1 -> clamp01 x == x.
Proof.
  intros [H0 H1]. unfold clamp01.
  rewrite (Q.max_r 0 x H0). apply Q.min_r. exact H1.
Qed.

#[global] Instance clamp01_proper : Proper (Qeq ==> Qeq) clamp01.
Proof.
  intros x y E. unfold clamp01. rewrite E. reflexivity.
Qed.

(** ** The snap set *)

Lemma memQ_false (x : Q) (l : list Q) :
  memQ x l = false <-> Forall (fun y => ~ x == y) l.
Proof.
  unfold memQ. induction l as [|y r IH]; simpl.
  - split; [constructor | reflexivity].
  - rewrite orb_false_iff, IH. split.
    + intros [H1 H2]. constructor; [|exact H2].
      intro E. apply Qeq_bool_iff in E. congruence.
    + intro H. inversion H; subst. split; [|assumption].
      destruct (Qeq_bool x y) eqn:E; [|reflexivity].
      apply Qeq_bool_iff in E. contradiction.
Qed.

Lemma set_from_In (seen xs : list Q) (x : Q) :
  In x (set_from seen xs) -> In x xs.
Proof.
  revert seen. induction xs as [|a r IH]; intros seen; simpl; [tauto|].
  destruct (memQ a seen).
  - intro H. right. eapply IH, H.
  - intros [H|H]; [left; exact H | right; eapply IH, H].
Qed.

Lemma set_from_fresh (seen xs : list Q) :
  Forall (fun x => memQ x seen = false) (set_from seen xs).
Proof.
  revert seen. induction xs as [|a r IH]; intros seen; simpl; [constructor|].
  destruct (memQ a seen) eqn:E; [apply IH|].
  constructor; [exact E|].
  specialize (IH (a :: seen)).
  eapply Forall_impl; [|exact IH].
  intros y Hy. unfold memQ in *. simpl in Hy.
  apply orb_false_iff in Hy. tauto.
Qed.

Lemma set_from_distinct (seen xs : list Q) : distinctQ (set_from seen xs).
Proof.
  revert seen. induction xs as [|a r IH]; intros seen; simpl; [constructor|].
  destruct (memQ a seen) eqn:E; [apply IH|].
  constructor; [|apply IH].
  pose proof (set_from_fresh (a :: seen) r) as F.
  eapply Forall_impl; [|exact F].
  intros y Hy. unfold memQ in Hy. simpl in Hy.
  apply orb_false_iff in Hy. destruct Hy as [Hy _].
  intro Eq. symmetry in Eq. apply Qeq_bool_iff in Eq. congruence.
Qed.

(** Every input value survives [new Set], up to numeric equality. *)
Lemma set_from_complete (seen xs : list Q) (x : Q) :
  In x xs -> memQ x seen = true \/ exists y, In y (set_from seen xs) /\ y == x.
Proof.
  revert seen. induction xs as [|a r IH]; intros seen; simpl; [tauto|].
  intros [->|H].
  - destruct (memQ x seen) eqn:E; [left; reflexivity|].
    right. exists x. split; [left; reflexivity | reflexivity].
  - destruct (memQ a seen) eqn:E.
    + apply IH, H.
    + destruct (IH (a :: seen) H) as [M|[y [Hy Ey]]].
      * unfold memQ in M. simpl in M. apply orb_true_iff in M.
        destruct M as [M|M].
        -- right. exists a. split; [left; reflexivity|].
           apply Qeq_bool_iff in M. symmetry. exact M.
        -- left. exact M.
      * right. exists y. split; [right; exact Hy | exact Ey].
Qed.

Lemma insert_asc_In (a x : Q) (l : list Q) :
  In x (insert_asc a l) <-> x = a \/ In x l.
Proof.
  induction l as [|y r IH]; simpl.
  - intuition congruence.
  - destruct (Qltb y a); simpl; rewrite ?IH; intuition congruence.
Qed.

Lemma sort_asc_In (x : Q) (l : list Q) : In x (sort_asc l) <-> In x l.
Proof.
  induction l as [|a r IH]; simpl; [tauto|].
  rewrite insert_asc_In, IH. intuition congruence.
Qed.

Lemma insert_asc_sorted (a : Q) (l : list Q) :
  StronglySorted Qlt l -> Forall (fun y => ~ a == y) l ->
  StronglySorted Qlt (insert_asc a l).
Proof.
  induction 1 as [|y r Hs IH Hy]; intros Hne; simpl.
  - constructor; constructor.
  - inversion Hne as [|? ? Hay Hr]; subst.
    destruct (Qltb y a) eqn:E.
    + apply Qltb_lt in E. constructor; [apply IH, Hr|].
      apply Forall_forall. intros z Hz. apply insert_asc_In in Hz.
      destruct Hz as [->|Hz]; [exact E|].
      rewrite Forall_forall in Hy. apply Hy, Hz.
    + apply Qltb_ge in E.
      assert (a < y) as Hlt by (apply Qle_lt_or_eq in E; tauto).
      constructor; [constructor; assumption|].
      constructor; [exact Hlt|].
      eapply Forall_impl; [|exact Hy].
      intros z Hz. simpl in Hz. lra.
Qed.

Lemma sort_asc_sorted (l : list Q) :
  distinctQ l -> StronglySorted Qlt (sort_asc l).
Proof.
  induction 1 as [|a r Ha Hr IH]; simpl; [constructor|].
  apply insert_asc_sorted; [exact IH|].
  apply Forall_forall. intros z Hz. rewrite sort_asc_In in Hz.
  rewrite Forall_forall in Ha. apply Ha, Hz.
Qed.

Lemma sort_asc_length (l : list Q) : length (sort_asc l) = length l.
Proof.
  assert (forall a m, length (insert_asc a m) = S (length m)) as Hi.
  { intros a m. induction m as [|y r IH]; simpl; [reflexivity|].
    destruct (Qltb y a); simpl; [rewrite IH|]; reflexivity. }
  induction l as [|a r IH]; simpl; [reflexivity|].
  rewrite Hi, IH. reflexivity.
Qed.

Lemma uniqSorted_sorted (arr : list Q) : StronglySorted Qlt (uniqSorted arr).
Proof.
  unfold uniqSorted. apply sort_asc_sorted, set_from_distinct.
Qed.

Lemma uniqSorted_in01 (arr : list Q) : Forall in01 (uniqSorted arr).
Proof.
  unfold uniqSorted. apply Forall_forall. intros x Hx.
  rewrite sort_asc_In in Hx. apply set_from_In, in_map_iff in Hx.
  destruct Hx as [y [<- _]]. apply clamp01_range.
Qed.

Lemma uniqSorted_nonempty (arr : list Q) : arr <> [] -> uniqSorted arr <> [].
Proof.
  intros Hne E. apply (f_equal (@length Q)) in E.
  unfold uniqSorted in E. rewrite sort_asc_length in E.
  destruct arr as [|a r]; [congruence|]. simpl in E. discriminate E.
Qed.

Lemma sorted_lt_NoDup (l : list Q) : StronglySorted Qlt l -> NoDup l.
Proof.
  induction 1 as [|a r Hs IH Ha]; constructor; [|exact IH].
  intro Hin. rewrite Forall_forall in Ha. specialize (Ha a Hin). lra.
Qed.

Lemma snaps_of_nonempty (points : list Q) : snaps_of points <> [].
Proof.
  unfold snaps_of. apply uniqSorted_nonempty.
  destruct points; discriminate.
Qed.

Lemma nearest_from_bound (p : Q) (pts : list Q) :
  forall i acc, (fst acc < i + length pts)%nat ->
                (fst (nearest_from p pts i acc) < i + length pts)%nat.
Proof.
  induction pts as [|sp r IH]; intros i acc H; simpl in *; [exact H|].
  replace (i + S (length r))%nat with (S i + length r)%nat in * by lia.
  apply IH. destruct (match snd acc with None => true | Some dmin => _ end);
    simpl; lia.
Qed.

Lemma nearestIndex_valid (p : Q) (pts : list Q) :
  pts <> [] -> (nearestIndex p pts < length pts)%nat.
Proof.
  intro Hne. unfold nearestIndex.
  apply (nearest_from_bound p pts 0%nat (0%nat, None)).
  destruct pts; [congruence | simpl; lia].
Qed.

(** The snap set of finite snap points, read on every number, is the one
    [snaps_of] computes. *)
Lemma sort_ascJ_Fin (l : list Q) : sort_ascJ (map Fin l) = map Fin (sort_asc l).
Proof.
  assert (forall a m, insert_ascJ (Fin a) (map Fin m)
                      = map Fin (insert_asc a m)) as Hi.
  { intros a m. induction m as [|y r IH]; [reflexivity|].
    cbn [map insert_ascJ insert_asc belowJ].
    destruct (Qltb y a); cbn [map]; [rewrite IH|]; reflexivity. }
  induction l as [|a r IH]; [reflexivity|].
  cbn [map sort_ascJ sort_asc]. rewrite IH. apply Hi.
Qed.

Lemma set_fromJ_Fin (seen xs : list Q) :
  set_fromJ (map Fin seen) (map Fin xs) = map Fin (set_from seen xs).
Proof.
  assert (forall x l, memJ (Fin x) (map Fin l) = memQ x l) as Hm.
  { intros x l. unfold memJ, memQ. induction l as [|y r IH]; [reflexivity|].
    cbn [map existsb sameJ]. rewrite IH. reflexivity. }
  revert seen. induction xs as [|a r IH]; intro seen; [reflexivity|].
  cbn [map set_fromJ set_from]. rewrite Hm.
  destruct (memQ a seen); [apply IH|].
  cbn [map]. f_equal. apply (IH (a :: seen)).
Qed.

(** Off [NaN], [clamp01] has a finite value within [0,1]. *)
Lemma clamp01J_finite (x : Num) :
  x <> NaN -> clamp01J x = Fin (rep (clamp01J x)) /\ in01 (rep (clamp01J x)).
Proof.
  intro Hx. destruct x as [q| | |]; [| | |congruence].
  - split; [reflexivity|]. apply clamp01_range.
  - split; [reflexivity|]. cbn. unfold in01. lra.
  - split; [reflexivity|]. cbn. unfold in01. lra.
Qed.

Lemma clamp01J_Fin (q : Q) : clamp01J (Fin q) = Fin (clamp01 q).
Proof. reflexivity. Qed.

Lemma map_clamp01J_finite (l : list Num) :
  Forall (fun x => x <> NaN) l ->
  map clamp01J l = map Fin (map (fun x => rep (clamp01J x)) l).
Proof.
  induction 1 as [|x r Hx Hr IH]; [reflexivity|].
  cbn [map]. rewrite <- IH. f_equal. apply clamp01J_finite, Hx.
Qed.

Lemma uniqSortedJ_finite (l : list Num) :
  Forall (fun x => x <> NaN) l ->
  uniqSortedJ l
  = map Fin (sort_asc (set_from [] (map (fun x => rep (clamp01J x)) l))).
Proof.
  intro H. unfold uniqSortedJ. rewrite (map_clamp01J_finite l H).
  rewrite (set_fromJ_Fin [] _). apply sort_ascJ_Fin.
Qed.

Lemma snaps_ofJ_Fin (points : list Q) :
  snaps_ofJ (map Fin points) = map Fin (snaps_of points).
Proof.
  unfold snaps_ofJ, snaps_of, uniqSorted.
  assert (forall l, uniqSortedJ (map Fin l)
                    = map Fin (sort_asc (set_from [] (map clamp01 l)))) as H.
  { intro l. unfold uniqSortedJ. rewrite map_map.
    rewrite (map_ext (fun q => clamp01J (Fin q)) (fun q => Fin (clamp01 q)))
      by (intro; reflexivity).
    rewrite <- (map_map clamp01 Fin).
    rewrite (set_fromJ_Fin [] _). apply sort_ascJ_Fin. }
  destruct points as [|a r]; [apply (H [0; 1])|apply (H (a :: r))].
Qed.

(** C6, as the code has it.  For every list of snap points that holds no
    [NaN] (the infinities included), the derived snap set consists of
    finite numbers that are strictly ascending (hence sorted and free of
    duplicates), lie within [0,1] and are at least one; it is [[0; 1]] when
    the input is empty, and it consists of exactly the clamped inputs (each
    input is present after clamping, and nothing else is); and the
    nearest-index lookup, for every progress [p], returns an index into
    that set. *)
Theorem C6_snap_set_normalized (points : list Num) (p : Q) (s : Sheet) :
  Forall (fun x => x <> NaN) points ->
  let inputs := match points with [] => [Fin 0; Fin 1] | _ => points end in
  exists qs : list Q,
    snaps_ofJ points = map Fin qs
    /\ StronglySorted Qlt qs
    /\ NoDup qs
    /\ Forall in01 qs
    /\ qs <> []
    /\ (points = [] -> qs = [0; 1])
    /\ Forall (fun y => In (Fin y) (map clamp01J inputs)) qs
    /\ Forall (fun x => exists y, In y qs /\ sameJ (Fin y) (clamp01J x) = true)
              inputs
    /\ (nearestIndex p qs < length qs)%nat
    /\ (currentSnapIndex s < length (snaps s))%nat.
Proof.
  intros Hfin inputs.
  assert (Forall (fun x => x <> NaN) inputs) as Hin.
  { unfold inputs. destruct points; [|exact Hfin].
    repeat constructor; discriminate. }
  assert (inputs <> []) as Hne by (unfold inputs; destruct points; discriminate).
  set (cl := fun x => rep (clamp01J x)).
  set (qs := sort_asc (set_from [] (map cl inputs))).
  assert (StronglySorted Qlt qs) as Hs
    by apply sort_asc_sorted, set_from_distinct.
  assert (qs <> []) as Hq.
  { intro E. apply (f_equal (@length Q)) in E. unfold qs in E.
    rewrite sort_asc_length in E.
    destruct inputs as [|a r]; [congruence|]. simpl in E. discriminate E. }
  exists qs. split; [apply (uniqSortedJ_finite inputs Hin)|].
  split; [exact Hs|]. split; [apply sorted_lt_NoDup, Hs|].
  split.
  { apply Forall_forall. intros y Hy. unfold qs in Hy.
    rewrite sort_asc_In in Hy. apply set_from_In, in_map_iff in Hy.
    destruct Hy as [x [<- Hx]]. rewrite Forall_forall in Hin.
    apply clamp01J_finite, Hin, Hx. }
  split; [exact Hq|]. split.
  { intros ->. reflexivity. }
  split.
  { apply Forall_forall. intros y Hy. unfold qs in Hy.
    rewrite sort_asc_In in Hy. apply set_from_In, in_map_iff in Hy.
    destruct Hy as [x [<- Hx]]. apply in_map_iff. exists x.
    split; [|exact Hx]. rewrite Forall_forall in Hin.
    apply clamp01J_finite, Hin, Hx. }
  split.
  { apply Forall_forall. intros x Hx.
    destruct (set_from_complete [] _ (cl x) (in_map cl _ x Hx))
      as [M|[y [Hy Ey]]]; [discriminate M|].
    exists y. split; [unfold qs; rewrite sort_asc_In; exact Hy|].
    rewrite Forall_forall in Hin.
    destruct (clamp01J_finite x (Hin x Hx)) as [-> _].
    cbn [sameJ]. apply Qeq_bool_iff. exact Ey. }
  split; [apply nearestIndex_valid, Hq|].
  apply nearestIndex_valid, snaps_of_nonempty.
Qed.

(** Six snap points, two of them infinite, one repeated and one below 0. *)
Lemma C6_snap_set_normalized_witness :
  Forall (fun x => x <> NaN)
         [Fin (9 # 10); PosInf; Fin (1 # 5); Fin (1 # 5); NegInf; Fin (-3)]
  /\ snaps_ofJ [Fin (9 # 10); PosInf; Fin (1 # 5); Fin (1 # 5); NegInf;
                Fin (-3)]
     = [Fin 0; Fin (1 # 5); Fin (9 # 10); Fin 1]
  /\ exists qs : list Q,
       snaps_ofJ [Fin (9 # 10); PosInf; Fin (1 # 5); Fin (1 # 5); NegInf;
                  Fin (-3)] = map Fin qs
       /\ StronglySorted Qlt qs /\ Forall in01 qs /\ qs <> [].
Proof.
  assert (Forall (fun x => x <> NaN)
            [Fin (9 # 10); PosInf; Fin (1 # 5); Fin (1 # 5); NegInf;
             Fin (-3)]) as H by (repeat constructor; discriminate).
  split; [exact H|]. split; [reflexivity|].
  destruct (C6_snap_set_normalized _ 0 sheet400 H)
    as (qs & E & Hs & _ & Hr & Hq & _).
  exists qs. repeat split; assumption.
Defined.

(** [clamp01(NaN)] is [NaN], so the snap points [[NaN]] give the snap set
    [[NaN]], whose one element is not within [0,1], where the claim has
    every element within [0,1] for every input; a [NaN] next to a finite
    snap point stays in the set as well. *)
Lemma C6_counterexample_nan :
  clamp01J NaN = NaN
  /\ snaps_ofJ [NaN] = [NaN]
  /\ ~ Forall in01J (snaps_ofJ [NaN])
  /\ In NaN (snaps_ofJ [Fin (1 # 2); NaN]).
Proof.
  split; [reflexivity|]. split; [reflexivity|]. split.
  - intro H. inversion H as [|x l Hx Hl]; subst. exact Hx.
  - cbn. tauto.
Qed.

(** ** Snapping to an index *)

Lemma wrap32_small (z : Z) :
  (- 2 ^ 31 <= z < 2 ^ 31)%Z -> wrap32 z = z.
Proof.
  intro H. unfold wrap32. rewrite Z.mod_small; lia.
Qed.

Lemma Qtrunc_inject_Z (z : Z) : Qtrunc (inject_Z z) = z.
Proof.
  unfold Qtrunc, inject_Z. simpl. apply Z.quot_1_r.
Qed.

(** Within the signed 32-bit range, [index | 0] is plain truncation. *)
Lemma toInt32_trunc (x : Q) :
  (- 2 ^ 31 <= Qtrunc x < 2 ^ 31)%Z -> toInt32 x = Qtrunc x.
Proof.
  intro H. unfold toInt32. apply wrap32_small, H.
Qed.

Lemma toInt32_inject_Z (z : Z) :
  (- 2 ^ 31 <= z < 2 ^ 31)%Z -> toInt32 (inject_Z z) = z.
Proof.
  intro H. unfold toInt32. rewrite Qtrunc_inject_Z. apply wrap32_small, H.
Qed.

Lemma clampIndex_in_range (pts : list Q) (index : Q) :
  pts <> [] -> (0 <= clampIndex pts index < Z.of_nat (length pts))%Z.
Proof.
  intro Hne. unfold clampIndex.
  assert (0 < Z.of_nat (length pts))%Z.
  { destruct pts; [congruence | simpl length; lia]. }
  lia.
Qed.




Lemma snapToIndex_fields (index : Q) (animate : bool) (s : Sheet) :
  let i := clampIndex (snaps s) index in
  let p := nth (Z.to_nat i) (snaps s) 0 in
  events (snapToIndex index animate s) = events s ++ [EvSnap i p]
  /\ lastSnapIndexMem (snapToIndex index animate s) = inject_Z i
  /\ translateY (snapToIndex index animate s) = clamp01 p * offsetHeight_or 0 s
  /\ sheetHeight (snapToIndex index animate s) = sheetHeight s
  /\ snapPointsRef (snapToIndex index animate s) = snapPointsRef s
  /\ isOpen (snapToIndex index animate s) = isOpen s
  /\ pending (snapToIndex index animate s) = pending s.
Proof.
  unfold snapToIndex, snapTo.
  destruct (negb animate || reduceMotion s); repeat split.
Qed.

(** Truncation toward zero: the integer part of a number, of the number's
    own sign. *)
Lemma Qtrunc_spec (q : Q) :
  (0 <= q -> inject_Z (Qtrunc q) <= q < inject_Z (Qtrunc q) + 1)
  /\ (q <= 0 -> inject_Z (Qtrunc q) - 1 < q <= inject_Z (Qtrunc q)).
Proof.
  destruct q as [n d]. unfold Qtrunc. cbn [Qnum Qden].
  pose proof (Z.quot_rem' n (Zpos d)) as E.
  assert (0 < Z.pos d)%Z as Hd by lia.
  unfold Qle, Qlt, Qplus, Qminus, Qopp, inject_Z. cbn [Qnum Qden].
  split; intro H; rewrite ?Z.mul_1_r in *.
  - assert (0 <= n)%Z as Hn by lia.
    pose proof (Z.rem_bound_pos n (Zpos d) Hn Hd) as B.
    set (k := (n ÷ Z.pos d)%Z) in *. set (r := Z.rem n (Z.pos d)) in *.
    clearbody k r. nia.
  - assert (n <= 0)%Z as Hn by lia.
    assert (- Z.pos d < Z.rem n (Z.pos d) <= 0)%Z as B.
    { apply Z.rem_bound_pos_neg; assumption. }
    set (k := (n ÷ Z.pos d)%Z) in *. set (r := Z.rem n (Z.pos d)) in *.
    clearbody k r. cbn [Qnum Qplus Qden Qopp Z.opp]. rewrite !Z.mul_1_r.
    set (D := Z.pos d) in *. clearbody D. nia.
Qed.

Lemma wrap32_range (z : Z) : (- 2 ^ 31 <= wrap32 z < 2 ^ 31)%Z.
Proof.
  unfold wrap32. pose proof (Z.mod_pos_bound (z + 2 ^ 31) (2 ^ 32)). lia.
Qed.

Lemma wrap32_congruent (z : Z) : ((wrap32 z - z) mod 2 ^ 32 = 0)%Z.
Proof.
  unfold wrap32.
  replace ((z + 2 ^ 31) mod 2 ^ 32 - 2 ^ 31 - z)%Z
    with (- (2 ^ 32 * ((z + 2 ^ 31) / 2 ^ 32)))%Z.
  - rewrite <- Z.mul_opp_r, Z.mul_comm. apply Z.mod_mul. lia.
  - pose proof (Z.div_mod (z + 2 ^ 31) (2 ^ 32)). lia.
Qed.

Lemma snapToIndexJ_Fin (q : Q) (animate : bool) (s : Sheet) :
  snapToIndexJ (Fin q) animate s = snapToIndex q animate s.
Proof. reflexivity. Qed.

(** C10.  [snapToIndex] is defined for every number passed as [index],
    [NaN] and the infinities included.  [index | 0] is a signed 32-bit
    integer: 0 for [NaN] and the infinities; for a finite [index] the
    truncation of [index] toward zero, taken modulo 2^32 into the signed
    range, hence the truncation itself when that lies in the range.  The
    index used is [index | 0] clamped into [0, snaps.length - 1], which is
    an index into the snap set; the one [snap] event emitted carries that
    index together with the snap value stored at it, and the offset moves
    to that value times the sheet height. *)
Theorem C10_snapToIndex_total (index : Num) (animate : bool) (s : Sheet) :
  let t := toInt32J index in
  let i := Z.max 0 (Z.min (Z.of_nat (length (snaps s)) - 1) t) in
  (- 2 ^ 31 <= t < 2 ^ 31)%Z
  /\ (forall q, index = Fin q ->
        exists z,
          (0 <= q -> inject_Z z <= q < inject_Z z + 1)
          /\ (q <= 0 -> inject_Z z - 1 < q <= inject_Z z)
          /\ ((t - z) mod 2 ^ 32 = 0)%Z
          /\ ((- 2 ^ 31 <= z < 2 ^ 31)%Z -> t = z))
  /\ (index = NaN \/ index = PosInf \/ index = NegInf -> t = 0%Z)
  /\ exists p,
       (0 <= i < Z.of_nat (length (snaps s)))%Z
       /\ nth_error (snaps s) (Z.to_nat i) = Some p
       /\ events (snapToIndexJ index animate s) = events s ++ [EvSnap i p]
       /\ lastSnapIndexMem (snapToIndexJ index animate s) = inject_Z i
       /\ translateY (snapToIndexJ index animate s)
          = clamp01 p * offsetHeight_or 0 s.
Proof.
  intros t i. split.
  { unfold t. destruct index; cbn [toInt32J]; [apply wrap32_range|lia..]. }
  split.
  { intros q ->. exists (Qtrunc q).
    destruct (Qtrunc_spec q) as [Hp Hn].
    split; [exact Hp|]. split; [exact Hn|].
    split; [apply wrap32_congruent|]. intro Hr. apply toInt32_trunc, Hr. }
  split.
  { intros [->|[->| ->]]; reflexivity. }
  assert (0 <= i < Z.of_nat (length (snaps s)))%Z as Hi.
  { pose proof (snaps_of_nonempty (snapPointsRef s)) as Hne.
    fold (snaps s) in Hne. unfold i.
    assert (0 < Z.of_nat (length (snaps s)))%Z
      by (destruct (snaps s); [congruence | simpl length; lia]).
    lia. }
  exists (nth (Z.to_nat i) (snaps s) 0).
  split; [exact Hi|]. split; [apply nth_error_nth'; lia|].
  unfold snapToIndexJ, snapTo. fold t. fold i.
  destruct (negb animate || reduceMotion s); repeat split.
Qed.

(** ** Reading the snap index back *)







(** ** Closing *)

(** [close] in one piece: the new [STACK_COUNT] and the new state. *)
Lemma close_eq (reason : CloseReason) (count : Z) (s : Sheet) :
  close reason count s
  = (match stackIndex s with
     | Some _ => Z.max 0 (count - 1)
     | None => count
     end,
     emit (EvClose reason)
       (set_stackIndex None
          (clear_pointer (set_overUp 0 (set_translateY 0 (set_isOpen false s)))))).
Proof.
  unfold close. sheet_fields. destruct (stackIndex s) eqn:E; [reflexivity|].
  rewrite <- E. reflexivity.
Qed.

Lemma close_closed (reason : CloseReason) (count : Z) (s : Sheet) :
  isOpen (snd (close reason count s)) = false
  /\ translateY (snd (close reason count s)) = 0
  /\ overUp (snd (close reason count s)) = 0
  /\ stackIndex (snd (close reason count s)) = None
  /\ events (snd (close reason count s)) = events s ++ [EvClose reason]
  /\ pending (snd (close reason count s)) = pending s.
Proof.
  rewrite close_eq. repeat split.
Qed.



(** ** Asking to close *)

Lemma remove_nth_last {A : Type} (l : list A) (x : A) :
  remove_nth (length l) (l ++ [x]) = l.
Proof.
  induction l as [|a r IH]; simpl; [reflexivity | now rewrite IH].
Qed.

Lemma nth_error_last {A : Type} (l : list A) (x : A) :
  nth_error (l ++ [x]) (length l) = Some x.
Proof.
  induction l as [|a r IH]; simpl; [reflexivity | exact IH].
Qed.

(** Firing the callback that was deferred last. *)
Lemma fire_last (cfg : Config) (t : Task) (count : Z) (s : Sheet)
  (l : list Task) :
  pending s = l ++ [t] ->
  fire cfg (length l) count s = run_task cfg t count (set_pending l s).
Proof.
  intro H. unfold fire. rewrite H, nth_error_last, remove_nth_last.
  reflexivity.
Qed.

Lemma fire_deferred (cfg : Config) (t : Task) (count : Z) (s : Sheet) :
  fire cfg (length (pending s)) count (defer t s) = run_task cfg t count s.
Proof.
  apply (fire_last cfg t count (defer t s) (pending s)). reflexivity.
Qed.

Lemma run_task_denied (cfg : Config) (reason : CloseReason) (ok : option bool)
  (count : Z) (s : Sheet) :
  ok <> Some true -> run_task cfg (TResumeClose reason ok) count s = (count, s).
Proof.
  intro H. unfold run_task. destruct ok as [[|]|]; congruence.
Qed.

(** C5.  When the [onBeforeClose] hook throws, resolves to [false] or
    rejects, [requestClose] leaves [STACK_COUNT], the lifecycle state, the
    offset, the overdrag and the event feed as they were; all it can leave
    behind is the continuation of its [await], which changes nothing in
    whatever state it is resumed, and after which the state is the one
    [requestClose] was called in. *)
Theorem C5_requestClose_denied
  (cfg : Config) (hook : CloseReason -> HookOutcome)
  (reason : CloseReason) (count : Z) (s : Sheet) :
  onBeforeClose cfg = Some hook ->
  hook reason <> HookResolves true ->
  let count1 := fst (requestClose cfg reason count s) in
  let s1 := snd (requestClose cfg reason count s) in
  count1 = count
  /\ isOpen s1 = isOpen s
  /\ translateY s1 = translateY s
  /\ overUp s1 = overUp s
  /\ stackIndex s1 = stackIndex s
  /\ events s1 = events s
  /\ (forall t, In t (pending s1) -> In t (pending s) \/
        forall count0 s0, run_task cfg t count0 s0 = (count0, s0))
  /\ fire cfg (length (pending s)) count1 s1 = (count, s).
Proof.
  intros Hhook Hdeny. unfold requestClose. rewrite Hhook.
  destruct (hook reason) as [|ok|] eqn:E; cbv [fst snd].
  - repeat split; try (intros t Ht; left; exact Ht).
    unfold fire.
    replace (nth_error (pending s) (length (pending s))) with (@None Task);
      [reflexivity|].
    symmetry. apply nth_error_None. lia.
  - assert (Some ok <> Some true) as Hok by congruence.
    repeat split.
    + intros t Ht. apply in_app_or in Ht.
      destruct Ht as [Ht|[<-|[]]]; [left; exact Ht | right].
      intros count0 s0. apply run_task_denied, Hok.
    + rewrite fire_deferred. apply run_task_denied, Hok.
  - repeat split.
    + intros t Ht. apply in_app_or in Ht.
      destruct Ht as [Ht|[<-|[]]]; [left; exact Ht | right].
      intros count0 s0. apply run_task_denied. discriminate.
    + rewrite fire_deferred. apply run_task_denied. discriminate.
Qed.

(** Scenario D on the open 400px sheet. *)
Lemma C5_requestClose_denied_witness :
  onBeforeClose denyAll = Some (fun _ => HookResolves false)
  /\ HookResolves false <> HookResolves true
  /\ isOpen (snd (requestClose denyAll esc 1 sheet400)) = true
  /\ events (snd (requestClose denyAll esc 1 sheet400)) = []
  /\ fire denyAll 0 (fst (requestClose denyAll esc 1 sheet400))
       (snd (requestClose denyAll esc 1 sheet400)) = (1%Z, sheet400).
Proof.
  assert (HookResolves false <> HookResolves true) as Hd by discriminate.
  pose proof (C5_requestClose_denied denyAll (fun _ => HookResolves false)
                esc 1 sheet400 eq_refl Hd) as H.
  cbv zeta in H.
  destruct H as (_ & Ho & _ & _ & _ & He & _ & Hf).
  split; [reflexivity|]. split; [exact Hd|].
  split; [exact Ho|]. split; [exact He | exact Hf].
Defined.

(** ** Releasing a drag *)

Lemma closeAnimated_open (cfg : Config) (reason : CloseReason) (s : Sheet) :
  isOpen s = true ->
  closeAnimated cfg reason s
  = defer (TCloseFrame (offsetHeight_or 0 s + openAnimationExtraPx cfg) reason)
      (set_isAnimating true s).
Proof.
  intro H. unfold closeAnimated. rewrite H. reflexivity.
Qed.

(** Outside the open state [closeAnimated] does nothing. *)
Lemma closeAnimated_closed (cfg : Config) (reason : CloseReason) (s : Sheet) :
  isOpen s = false -> closeAnimated cfg reason s = s.
Proof.
  intro H. unfold closeAnimated. rewrite H. reflexivity.
Qed.

Lemma fling_test (cfg : Config) (v : Q) :
  flingVelocityPxPerMs cfg < v -> 0 < v ->
  Qltb (flingVelocityPxPerMs cfg) (Qabs v) && Qltb 0 v = true.
Proof.
  intros Hf Hv. apply andb_true_iff. split; apply Qltb_lt; [|exact Hv].
  rewrite Qabs_pos by lra. exact Hf.
Qed.

(** The fling branch of [endDrag]. *)
Lemma endDrag_fling (cfg : Config) (s : Sheet) :
  dragging s = true -> isOpen s = true ->
  flingVelocityPxPerMs cfg < vY s -> 0 < vY s ->
  endDrag cfg s
  = cleanupGesture
      (defer (TCloseFrame (offsetHeight_or 0 s + openAnimationExtraPx cfg) drag)
         (set_isAnimating true (set_overUp 0 (set_dragging false s)))).
Proof.
  intros Hdrag Hopen Hfling Hdown. unfold endDrag. rewrite Hdrag.
  cbv [negb].
  change (vY (set_overUp 0 (set_dragging false s))) with (vY s).
  rewrite (fling_test cfg (vY s) Hfling Hdown).
  rewrite closeAnimated_open by exact Hopen. reflexivity.
Qed.

(** C3, as the code has it.  Releasing an active drag on an open sheet
    with a velocity above the fling threshold and downward makes [endDrag]
    start the animated close with reason [drag], whatever the offset: the
    drag ends, the frame callback of [closeAnimated] is scheduled, and once
    that callback and then [onDone] have run the sheet is closed, its offset
    is back at 0 and [close {reason: 'drag'}] is the one event emitted. *)
Theorem C3_fling_closes (cfg : Config) (count : Z) (s : Sheet) :
  dragging s = true -> isOpen s = true ->
  flingVelocityPxPerMs cfg < vY s -> 0 < vY s ->
  let k := length (pending s) in
  let s1 := endDrag cfg s in
  let frame := fire cfg k count s1 in
  let done := fire cfg k (fst frame) (snd frame) in
  dragging s1 = false
  /\ isOpen s1 = true
  /\ isAnimating s1 = true
  /\ events s1 = events s
  /\ pending s1
     = pending s
       ++ [TCloseFrame (offsetHeight_or 0 s + openAnimationExtraPx cfg) drag]
  /\ pending (snd frame) = pending s ++ [TOnDone drag]
  /\ isOpen (snd done) = false
  /\ translateY (snd done) = 0
  /\ stackIndex (snd done) = None
  /\ events (snd done) = events s ++ [EvClose drag]
  /\ pending (snd done) = pending s.
Proof.
  intros Hdrag Hopen Hfling Hdown k s1 frame done.
  assert (pending s1
          = pending s ++ [TCloseFrame (offsetHeight_or 0 s
                                       + openAnimationExtraPx cfg) drag])
    as Hp1 by (unfold s1; rewrite endDrag_fling by assumption; reflexivity).
  assert (frame = (count, defer (TOnDone drag)
                            (set_translateY (offsetHeight_or 0 s
                                             + openAnimationExtraPx cfg)
                               (set_pending (pending s) s1)))) as Hframe.
  { unfold frame, k. rewrite (fire_last cfg _ count s1 (pending s) Hp1).
    reflexivity. }
  assert (done = close drag count
                   (set_isAnimating false
                      (set_pending (pending s) (snd frame)))) as Hdone.
  { unfold done, k. rewrite Hframe. cbv [fst snd].
    rewrite (fire_last cfg (TOnDone drag) count _ (pending s));
      reflexivity. }
  destruct (close_closed drag count
              (set_isAnimating false (set_pending (pending s) (snd frame))))
    as (C1 & C2 & C3 & C4 & C5 & C6).
  rewrite <- Hdone in C1, C2, C3, C4, C5, C6.
  rewrite Hframe in C5. cbv [snd] in C5.
  unfold s1 in C5 |- *. rewrite endDrag_fling in C5 |- * by assumption.
  repeat split; try assumption.
  rewrite Hframe. reflexivity.
Qed.

(** A fling released 20px below the open extreme of a 400px sheet. *)
Lemma C3_fling_closes_witness :
  dragging (dragged 400 20 2) = true /\ isOpen (dragged 400 20 2) = true
  /\ flingVelocityPxPerMs defaultConfig < vY (dragged 400 20 2)
  /\ 0 < vY (dragged 400 20 2)
  /\ isOpen (snd (fire defaultConfig 0
                    (fst (fire defaultConfig 0 1
                            (endDrag defaultConfig (dragged 400 20 2))))
                    (snd (fire defaultConfig 0 1
                            (endDrag defaultConfig (dragged 400 20 2))))))
     = false
  /\ events (snd (fire defaultConfig 0
                    (fst (fire defaultConfig 0 1
                            (endDrag defaultConfig (dragged 400 20 2))))
                    (snd (fire defaultConfig 0 1
                            (endDrag defaultConfig (dragged 400 20 2))))))
     = [EvDragStart; EvClose drag].
Proof.
  assert (flingVelocityPxPerMs defaultConfig < vY (dragged 400 20 2)) as Hf
    by reflexivity.
  assert (0 < vY (dragged 400 20 2)) as Hv by reflexivity.
  pose proof (C3_fling_closes defaultConfig 1 (dragged 400 20 2)
                eq_refl eq_refl Hf Hv) as H.
  cbv zeta in H.
  destruct H as (_ & _ & _ & _ & _ & _ & Ho & _ & _ & He & _).
  split; [reflexivity|]. split; [reflexivity|]. split; [exact Hf|].
  split; [exact Hv|]. split; [exact Ho | exact He].
Defined.

(** [close] does not end a drag: after [close('esc')] in the middle of one,
    [dragging] is still set and the sampled velocity is kept.  The release
    that follows is above the fling threshold and downward, yet
    [closeAnimated] returns at once on the closed sheet: the release ends
    the drag, schedules nothing and emits no [close {reason: 'drag'}], where
    the claim has the sheet close with reason [drag]. *)
Lemma C3_counterexample_closed_sheet :
  dragging closedMidDrag = true
  /\ isOpen closedMidDrag = false
  /\ flingVelocityPxPerMs defaultConfig < vY closedMidDrag
  /\ 0 < vY closedMidDrag
  /\ events closedMidDrag = [EvDragStart; EvClose esc]
  /\ dragging (endDrag defaultConfig closedMidDrag) = false
  /\ isOpen (endDrag defaultConfig closedMidDrag) = false
  /\ pending (endDrag defaultConfig closedMidDrag) = []
  /\ events (endDrag defaultConfig closedMidDrag) = [EvDragStart; EvClose esc]
  /\ ~ In (EvClose drag) (events (endDrag defaultConfig closedMidDrag)).
Proof.
  repeat split.
  cbn. intros [H|[H|H]]; [discriminate H | discriminate H | exact H].
Qed.

Lemma no_fling_test (cfg : Config) (v : Q) :
  v <= flingVelocityPxPerMs cfg ->
  Qltb (flingVelocityPxPerMs cfg) (Qabs v) && Qltb 0 v = false.
Proof.
  intro H. apply andb_false_iff.
  destruct (Qlt_le_dec 0 v) as [Hv|Hv].
  - left. apply Qltb_ge. rewrite Qabs_pos by lra. exact H.
  - right. apply Qltb_ge. exact Hv.
Qed.

(** The last branch of [endDrag]: no fling, the close threshold not
    exceeded, and a nearest snap point below 0.999. *)
Lemma endDrag_snap (cfg : Config) (s : Sheet)
  (nearest : Q) (dmin : option Q) (ni : nat) :
  let h := offsetHeight_or 0 s in
  let p := if truthy h then translateY s / h else 0 in
  dragging s = true ->
  vY s <= flingVelocityPxPerMs cfg ->
  translateY s <= Qmax (closeThresholdPx cfg) (h * closeThresholdRatio cfg) ->
  nearest_scan p (snaps s) 0%nat (nth 0 (snaps s) 0, None, 0%nat)
  = (nearest, dmin, ni) ->
  nearest < 999 # 1000 ->
  endDrag cfg s
  = cleanupGesture
      (emit (EvSnap (Z.of_nat ni) nearest)
         (emit (EvDragEnd false)
            (snapTo nearest true
               (set_isAnimating true (set_overUp 0 (set_dragging false s)))))).
Proof.
  intros h p Hdrag Hv Hth Hscan Hnear. unfold endDrag. rewrite Hdrag.
  cbv [negb].
  change (vY (set_overUp 0 (set_dragging false s))) with (vY s).
  change (translateY (set_overUp 0 (set_dragging false s)))
    with (translateY s).
  change (offsetHeight_or 0 (set_overUp 0 (set_dragging false s))) with h.
  change (snaps (set_overUp 0 (set_dragging false s))) with (snaps s).
  rewrite (no_fling_test cfg (vY s) Hv).
  replace (Qltb (Qmax (closeThresholdPx cfg) (h * closeThresholdRatio cfg))
             (translateY s)) with false
    by (symmetry; apply Qltb_ge; exact Hth).
  fold p. rewrite Hscan.
  replace (Qle_bool (999 # 1000) nearest) with false; [reflexivity|].
  symmetry. destruct (Qle_bool (999 # 1000) nearest) eqn:E; [|reflexivity].
  apply Qle_bool_iff in E. lra.
Qed.

Lemma scenarioA_nearest (p : Q) :
  p == 3 # 5 ->
  nearest_scan p [0; 1 # 2; 1] 0%nat (0, None, 0%nat)
  = (1 # 2, Some (Qabs (p - (1 # 2))), 1%nat).
Proof.
  intro Hp. cbn [nearest_scan fst snd].
  assert (Qabs (p - 0) == 3 # 5) as H0 by (rewrite Hp; reflexivity).
  assert (Qabs (p - (1 # 2)) == 1 # 10) as H1 by (rewrite Hp; reflexivity).
  assert (Qabs (p - 1) == 2 # 5) as H2 by (rewrite Hp; reflexivity).
  replace (Qltb (Qabs (p - (1 # 2))) (Qabs (p - 0))) with true
    by (symmetry; apply Qltb_lt; rewrite H0, H1; reflexivity).
  cbn [fst snd].
  replace (Qltb (Qabs (p - 1)) (Qabs (p - (1 # 2)))) with false
    by (symmetry; apply Qltb_ge; rewrite H1, H2; discriminate).
  reflexivity.
Qed.

(** C2, as the code has it.  With the default options and the snap points
    [0, 0.5, 1], releasing a drag at offset 0.6 x sheetHeight with a
    velocity not above the fling threshold snaps to 0.5 and emits
    [dragEnd {closed: false}] and [snap {index: 1, progress: 0.5}],
    provided the offset does not exceed the close threshold
    [max(120, 0.25 x sheetHeight)], that is for a sheet height of at most
    200px; nothing is scheduled and the sheet stays open. *)
Theorem C2_scenarioA_snaps (s : Sheet) (h : Q) :
  dragging s = true -> sheetHeight s = Some h -> 0 < h -> h <= 200 ->
  snapPointsRef s = [0; 1 # 2; 1] ->
  translateY s == (3 # 5) * h ->
  vY s <= flingVelocityPxPerMs defaultConfig ->
  let s1 := endDrag defaultConfig s in
  events s1 = events s ++ [EvDragEnd false; EvSnap 1 (1 # 2)]
  /\ translateY s1 = (1 # 2) * h
  /\ isAnimating s1 = true
  /\ dragging s1 = false
  /\ isOpen s1 = isOpen s
  /\ pending s1 = pending s.
Proof.
  intros Hdrag Hh Hpos Hsmall Hpts Hty Hv s1.
  assert (offsetHeight_or 0 s = h) as H0
    by (unfold offsetHeight_or; rewrite Hh; apply or_else_pos, Hpos).
  assert (snaps s = [0; 1 # 2; 1]) as Hsn
    by (unfold snaps; rewrite Hpts; reflexivity).
  assert (endDrag defaultConfig s
          = cleanupGesture
              (emit (EvSnap (Z.of_nat 1) (1 # 2))
                 (emit (EvDragEnd false)
                    (snapTo (1 # 2) true
                       (set_isAnimating true
                          (set_overUp 0 (set_dragging false s)))))))
    as Hend.
  { apply (endDrag_snap defaultConfig s (1 # 2)
             (Some (Qabs (translateY s / h - (1 # 2)))) 1%nat).
    - exact Hdrag.
    - exact Hv.
    - rewrite H0, Hty. apply Qle_trans with 120; [lra | apply Q.le_max_l].
    - rewrite H0, Hsn.
      replace (truthy h) with true by (symmetry; apply truthy_true; lra).
      apply scenarioA_nearest. rewrite Hty. field. lra.
    - reflexivity. }
  unfold s1. rewrite Hend. unfold snapTo.
  change (offsetHeight_or 0 (set_isAnimating true
                               (set_overUp 0 (set_dragging false s))))
    with (offsetHeight_or 0 s).
  rewrite H0.
  destruct (negb true || reduceMotion _); sheet_fields;
    rewrite <- app_assoc; repeat split.
Qed.

(** Scenario A on a sheet 200px high, released at 0.1 px/ms. *)
Lemma C2_scenarioA_snaps_witness :
  dragging (dragged 200 120 (1 # 10)) = true
  /\ sheetHeight (dragged 200 120 (1 # 10)) = Some 200
  /\ 0 < 200 /\ 200 <= 200
  /\ snapPointsRef (dragged 200 120 (1 # 10)) = [0; 1 # 2; 1]
  /\ translateY (dragged 200 120 (1 # 10)) == (3 # 5) * 200
  /\ vY (dragged 200 120 (1 # 10)) <= flingVelocityPxPerMs defaultConfig
  /\ events (endDrag defaultConfig (dragged 200 120 (1 # 10)))
     = [EvDragStart; EvDragEnd false; EvSnap 1 (1 # 2)]
  /\ isOpen (endDrag defaultConfig (dragged 200 120 (1 # 10))) = true.
Proof.
  assert (0 < 200) as H1 by reflexivity.
  assert (200 <= 200) as H2 by discriminate.
  assert (translateY (dragged 200 120 (1 # 10)) == (3 # 5) * 200) as H3
    by reflexivity.
  assert (vY (dragged 200 120 (1 # 10)) <= flingVelocityPxPerMs defaultConfig)
    as H4 by discriminate.
  pose proof (C2_scenarioA_snaps (dragged 200 120 (1 # 10)) 200
                eq_refl eq_refl H1 H2 eq_refl H3 H4) as H.
  cbv zeta in H. destruct H as (He & _ & _ & _ & Ho & _).
  do 2 (split; [reflexivity|]). split; [exact H1|]. split; [exact H2|].
  split; [reflexivity|]. split; [exact H3|]. split; [exact H4|].
  split; [exact He | exact Ho].
Defined.

(** Scenario A on a sheet 500px high: the offset 300 exceeds the close
    threshold [max(120, 125)], so [endDrag] starts the animated close; no
    [snap] event is emitted, and the sheet ends up closed. *)
Lemma C2_counterexample_closes :
  let s := dragged 500 300 0 in
  let s1 := endDrag defaultConfig s in
  let frame := fire defaultConfig 0 1 s1 in
  let done := fire defaultConfig 0 (fst frame) (snd frame) in
  snaps s = [0; 1 # 2; 1]
  /\ translateY s == (3 # 5) * 500
  /\ vY s <= flingVelocityPxPerMs defaultConfig
  /\ events s1 = [EvDragStart; EvDragEnd true]
  /\ ~ In (EvSnap 1 (1 # 2)) (events s1)
  /\ pending s1 = [TCloseFrame (500 + 120) drag]
  /\ isOpen (snd done) = false
  /\ events (snd done) = [EvDragStart; EvDragEnd true; EvClose drag].
Proof.
  cbv zeta. repeat split; try discriminate.
  intros [E|[E|[]]]; discriminate E.
Qed.

(** ** The rubber band *)

Lemma moveDrag_fields (cfg : Config) (y now : Q) (s : Sheet) :
  dragging s = true ->
  let band := rubberBand cfg (offsetHeight_or 0 s) (y - startY s) in
  translateY (moveDrag cfg y now s) = Qmax 0 (snd band)
  /\ overUp (moveDrag cfg y now s) = fst band
  /\ isOpen (moveDrag cfg y now s) = isOpen s
  /\ pending (moveDrag cfg y now s) = pending s.
Proof.
  intros Hdrag band. unfold moveDrag. rewrite Hdrag. cbv [negb].
  fold band. destruct band as [ou dy1]. repeat split.
Qed.

(** The easing factor [1 - (1 - damping) * t] stays within [0,1]. *)
Lemma easing_range (d t : Q) :
  0 <= d <= 1 -> 0 <= t <= 1 -> 0 <= 1 - (1 - d) * t <= 1.
Proof.
  intros [Hd0 Hd1] [Ht0 Ht1]. split; nra.
Qed.

Lemma rubberBand_up (cfg : Config) (h dy : Q) :
  0 <= overdragDamping cfg <= 1 -> dy < 0 ->
  snd (rubberBand cfg h dy) = 0
  /\ 0 <= fst (rubberBand cfg h dy) <= 1.
Proof.
  intros Hd Hdy. unfold rubberBand.
  replace (Qltb dy 0) with true by (symmetry; apply Qltb_lt; exact Hdy).
  cbv [fst snd]. split; [reflexivity|].
  pose proof (clamp01_range (Qabs dy / overdragUpPx cfg)) as Ht.
  pose proof (easing_range _ _ Hd Ht) as He.
  set (t := clamp01 _) in *. set (f := 1 - _) in *. split; nra.
Qed.

Lemma rubberBand_down (cfg : Config) (h dy : Q) :
  0 <= overdragDamping cfg <= 1 -> 0 < overdragDownPx cfg ->
  0 <= dy ->
  fst (rubberBand cfg h dy) = 0
  /\ 0 <= snd (rubberBand cfg h dy)
  /\ (0 < h -> snd (rubberBand cfg h dy) <= h + overdragDownPx cfg).
Proof.
  intros Hd Hpx Hdy. unfold rubberBand.
  replace (Qltb dy 0) with false by (symmetry; apply Qltb_ge; exact Hdy).
  cbv [fst snd]. split; [reflexivity|].
  destruct (Qltb 0 h && Qltb h dy) eqn:E.
  - apply andb_true_iff in E. destruct E as [E1 E2].
    apply Qltb_lt in E1. apply Qltb_lt in E2.
    pose proof (clamp01_range (Qmin (overdragDownPx cfg) (dy - h)
                               / overdragDownPx cfg)) as Ht.
    pose proof (easing_range _ _ Hd Ht) as He.
    assert (0 <= Qmin (overdragDownPx cfg) (dy - h)) as Hc0
      by (apply Q.min_glb; lra).
    assert (Qmin (overdragDownPx cfg) (dy - h) <= overdragDownPx cfg) as Hc1
      by apply Q.le_min_l.
    set (capped := Qmin _ _) in *. set (t := clamp01 _) in *.
    set (f := 1 - _) in *. split; [nra | intros _; nra].
  - split; [exact Hdy|]. intro Hh.
    apply andb_false_iff in E. destruct E as [E|E]; apply Qltb_ge in E; lra.
Qed.

(** C4, as the code has it.  While a drag is active, with positive overdrag
    travel limits and a damping within its documented range 0..1: an upward
    pointer displacement leaves the offset at exactly 0 and [overUp] within
    [0,1]; a downward displacement gives a non-negative offset which, when
    the sheet height is positive, does not exceed
    [sheetHeight + overdragDownPx]. *)
Theorem C4_rubber_band_bound (cfg : Config) (y now : Q) (s : Sheet) :
  dragging s = true ->
  0 < overdragUpPx cfg -> 0 < overdragDownPx cfg ->
  0 <= overdragDamping cfg <= 1 ->
  let h := offsetHeight_or 0 s in
  let s1 := moveDrag cfg y now s in
  (y < startY s ->
     translateY s1 = 0 /\ 0 <= overUp s1 <= 1)
  /\ (startY s <= y ->
        overUp s1 = 0 /\ 0 <= translateY s1
        /\ (0 < h -> translateY s1 <= h + overdragDownPx cfg)).
Proof.
  intros Hdrag Hup Hdown Hd h s1.
  destruct (moveDrag_fields cfg y now s Hdrag) as (Ht & Ho & _).
  fold s1 h in Ht, Ho. split.
  - intro Hy.
    destruct (rubberBand_up cfg h (y - startY s) Hd) as [Hs Hf]; [lra|].
    rewrite Ht, Ho, Hs. split; [reflexivity | exact Hf].
  - intro Hy.
    destruct (rubberBand_down cfg h (y - startY s) Hd Hdown) as (Hf & Hs & Hb);
      [lra|].
    rewrite Ht, Ho. split; [exact Hf|]. split; [apply Q.le_max_l|].
    intro Hh. apply Q.max_lub; [|apply Hb, Hh].
    specialize (Hb Hh). lra.
Qed.

(** A drag 600px below its start on a 400px sheet: the offset is capped at
    [400 + 120 * (1 - 0.5)]. *)
Lemma C4_rubber_band_bound_witness :
  dragging (dragged 400 0 0) = true
  /\ 0 < overdragUpPx defaultConfig /\ 0 < overdragDownPx defaultConfig
  /\ 0 <= overdragDamping defaultConfig <= 1
  /\ translateY (moveDrag defaultConfig 700 1016 (dragged 400 0 0))
     <= 400 + overdragDownPx defaultConfig.
Proof.
  assert (0 < overdragUpPx defaultConfig) as H1 by reflexivity.
  assert (0 < overdragDownPx defaultConfig) as H2 by reflexivity.
  assert (0 <= overdragDamping defaultConfig <= 1) as H3
    by (split; discriminate).
  pose proof (C4_rubber_band_bound defaultConfig 700 1016 (dragged 400 0 0)
                eq_refl H1 H2 H3) as H.
  cbv zeta in H. destruct H as [_ H].
  assert (startY (dragged 400 0 0) <= 700) as Hy by discriminate.
  destruct (H Hy) as (_ & _ & Hb).
  split; [reflexivity|]. split; [exact H1|]. split; [exact H2|].
  split; [exact H3|]. apply Hb. reflexivity.
Defined.

(** A sheet element of height 0: the guard [h > 0] of [moveDrag] skips the
    cap, and a drag 500px down puts the offset at 500, above
    [0 + overdragDownPx = 120]. *)
Lemma C4_counterexample_zero_height :
  let s := dragged 0 0 0 in
  let s1 := moveDrag defaultConfig 600 1016 s in
  dragging s = true
  /\ sheetHeight s = Some 0
  /\ startY s <= 600
  /\ translateY s1 == 500
  /\ ~ translateY s1 <= 0 + overdragDownPx defaultConfig.
Proof.
  cbv zeta. split; [reflexivity|]. split; [reflexivity|].
  split; [discriminate|]. split; [reflexivity|].
  intro H. vm_compute in H. apply H. reflexivity.
Qed.

(** ** The stacking counter *)

Lemma nth_error_update_nth {A : Type} (l : list A) (k k' : nat) (x : A) :
  nth_error (update_nth k x l) k'
  = if Nat.eqb k k'
    then match nth_error l k with Some _ => Some x | None => None end
    else nth_error l k'.
Proof.
  revert k k'. induction l as [|a r IH]; intros k k'.
  - destruct k, k'; simpl; try reflexivity.
    destruct (Nat.eqb k k'); reflexivity.
  - destruct k, k'; simpl; try reflexivity. apply IH.
Qed.

Lemma open_at_spec (w : World) (k : nat) (s : Sheet) :
  nth_error (sheets w) k = Some s ->
  STACK_COUNT (open_at k w) = (STACK_COUNT w + 1)%Z
  /\ holds (open_at k w) k (STACK_COUNT w + 1)
  /\ forall k' i, k' <> k -> (holds (open_at k w) k' i <-> holds w k' i).
Proof.
  intro Hk. unfold open_at, at_sheet, holds. rewrite Hk. unfold open.
  cbn [STACK_COUNT sheets]. split; [reflexivity|]. split.
  - eexists. rewrite nth_error_update_nth, Nat.eqb_refl, Hk.
    split; reflexivity.
  - intros k' i Hne. rewrite nth_error_update_nth.
    replace (Nat.eqb k k') with false; [reflexivity|].
    symmetry. apply Nat.eqb_neq. congruence.
Qed.

Lemma close_at_spec (reason : CloseReason) (w : World) (k : nat) (s : Sheet) :
  nth_error (sheets w) k = Some s ->
  STACK_COUNT (close_at reason k w)
  = match stackIndex s with
    | Some _ => Z.max 0 (STACK_COUNT w - 1)
    | None => STACK_COUNT w
    end
  /\ (forall i, ~ holds (close_at reason k w) k i)
  /\ forall k' i, k' <> k -> (holds (close_at reason k w) k' i <-> holds w k' i).
Proof.
  intro Hk. unfold close_at, at_sheet, holds. rewrite Hk, close_eq.
  cbn [STACK_COUNT sheets]. split; [reflexivity|]. split.
  - intros i [s' [Hs' Hi]].
    rewrite nth_error_update_nth, Nat.eqb_refl, Hk in Hs'.
    injection Hs' as <-. discriminate Hi.
  - intros k' i Hne. rewrite nth_error_update_nth.
    replace (Nat.eqb k k') with false; [reflexivity|].
    symmetry. apply Nat.eqb_neq. congruence.
Qed.

Lemma lifo_stack_ok (w : World) : lifo w -> stack_ok w.
Proof.
  induction 1 as [ss Hss | w k Hw IH | w k reason Hw IH Htop].
  - split; [cbn; lia|]. split.
    + intros k i [s [Hs Hi]]. cbn in Hs. rewrite Forall_forall in Hss.
      rewrite (Hss s (nth_error_In _ _ Hs)) in Hi. discriminate Hi.
    + intros k1 k2 i [s [Hs Hi]] _. cbn in Hs. rewrite Forall_forall in Hss.
      rewrite (Hss s (nth_error_In _ _ Hs)) in Hi. discriminate Hi.
  - destruct IH as (H0 & Hr & Hd).
    destruct (nth_error (sheets w) k) as [s|] eqn:Hk.
    2:{ unfold open_at, at_sheet. rewrite Hk. exact (conj H0 (conj Hr Hd)). }
    destruct (open_at_spec w k s Hk) as (Hc & Hnew & Hold).
    assert (forall i, holds (open_at k w) k i -> i = (STACK_COUNT w + 1)%Z)
      as Honly.
    { intros i [s1 [Hs1 Hi1]]. destruct Hnew as [s2 [Hs2 Hi2]]. congruence. }
    split; [lia|]. split.
    + intros k' i Hh. destruct (Nat.eq_dec k' k) as [->|Hne].
      * rewrite (Honly i Hh). lia.
      * apply Hold in Hh; [|exact Hne]. specialize (Hr k' i Hh). lia.
    + intros k1 k2 i H1 H2.
      destruct (Nat.eq_dec k1 k) as [->|N1], (Nat.eq_dec k2 k) as [->|N2];
        try reflexivity.
      * rewrite (Honly i H1) in H2. apply Hold in H2; [|exact N2].
        specialize (Hr _ _ H2). lia.
      * rewrite (Honly i H2) in H1. apply Hold in H1; [|exact N1].
        specialize (Hr _ _ H1). lia.
      * apply Hold in H1; [|exact N1]. apply Hold in H2; [|exact N2].
        exact (Hd _ _ _ H1 H2).
  - destruct IH as (H0 & Hr & Hd).
    destruct Htop as [s [Hk Hi]].
    destruct (close_at_spec reason w k s Hk) as (Hc & Hnone & Hold).
    rewrite Hi in Hc.
    assert (1 <= STACK_COUNT w)%Z as Hpos
      by (apply (Hr k (STACK_COUNT w)); exists s; split; assumption).
    split; [lia|]. split.
    + intros k' i Hh. destruct (Nat.eq_dec k' k) as [->|Hne].
      * destruct (Hnone i Hh).
      * apply Hold in Hh; [|exact Hne].
        pose proof (Hr k' i Hh) as Hri.
        assert (i <> STACK_COUNT w) as Hni.
        { intros ->. apply Hne. apply (Hd k' k (STACK_COUNT w) Hh).
          exists s. split; assumption. }
        lia.
    + intros k1 k2 i H1 H2.
      destruct (Nat.eq_dec k1 k) as [->|N1]; [destruct (Hnone i H1)|].
      destruct (Nat.eq_dec k2 k) as [->|N2]; [destruct (Hnone i H2)|].
      apply Hold in H1; [|exact N1]. apply Hold in H2; [|exact N2].
      exact (Hd _ _ _ H1 H2).
Qed.

(** C9, as the code has it.  [open] hands out [STACK_COUNT + 1] and [close]
    lowers the counter by one with a floor of 0.  As long as sheets close in
    reverse order of opening, no index is held by two sheets at once, and
    the index handed out by the next [open] is held by no other sheet. *)
Theorem C9_stack_index_lifo (w : World) :
  lifo w ->
  (forall k1 k2 i, holds w k1 i -> holds w k2 i -> k1 = k2)
  /\ (forall k s, nth_error (sheets w) k = Some s ->
        holds (open_at k w) k (STACK_COUNT w + 1)
        /\ STACK_COUNT (open_at k w) = (STACK_COUNT w + 1)%Z
        /\ forall k', k' <> k -> ~ holds (open_at k w) k' (STACK_COUNT w + 1))
  /\ (forall reason k i, holds w k i ->
        STACK_COUNT (close_at reason k w) = Z.max 0 (STACK_COUNT w - 1)
        /\ forall j, ~ holds (close_at reason k w) k j).
Proof.
  intro Hw. destruct (lifo_stack_ok w Hw) as (H0 & Hr & Hd).
  split; [exact Hd|]. split.
  - intros k s Hk. destruct (open_at_spec w k s Hk) as (Hc & Hnew & Hold).
    split; [exact Hnew|]. split; [exact Hc|].
    intros k' Hne Hh. apply Hold in Hh; [|exact Hne].
    specialize (Hr _ _ Hh). lia.
  - intros reason k i [s [Hk Hi]].
    destruct (close_at_spec reason w k s Hk) as (Hc & Hnone & _).
    rewrite Hi in Hc. split; [exact Hc | exact Hnone].
Qed.

(** The first two sheets open, the first one closes, the third opens: the
    counter is back at 1 and hands out 2 again, while the second sheet
    still holds 2. *)
Lemma C9_counterexample_out_of_order :
  let w := open_at 2 (close_at programmatic 0
                        (open_at 1 (open_at 0 three_sheets))) in
  holds (open_at 1 (open_at 0 three_sheets)) 1 2
  /\ holds w 1 2 /\ holds w 2 2.
Proof.
  cbv zeta. repeat split; eexists; (split; [reflexivity|]); reflexivity.
Qed.

(** Two sheets open one after the other; the second one closes first. *)
Lemma C9_stack_index_lifo_witness :
  lifo (open_at 1 (open_at 0 three_sheets))
  /\ STACK_COUNT (close_at programmatic 1 (open_at 1 (open_at 0 three_sheets)))
     = Z.max 0 (STACK_COUNT (open_at 1 (open_at 0 three_sheets)) - 1).
Proof.
  assert (lifo (open_at 1 (open_at 0 three_sheets))) as Hw.
  { apply lifo_open, lifo_open, lifo_start. repeat constructor. }
  split; [exact Hw|].
  destruct (C9_stack_index_lifo _ Hw) as (_ & _ & Hc).
  apply (Hc programmatic 1%nat 2%Z).
  eexists. split; reflexivity.
Defined.

(** ** The keydown registry *)

Lemma run_loop_app (a b : list nat) :
  forall R e inv,
    run_loop (a ++ b) R e inv
    = let '(handled, R1, e1, inv1) := run_loop a R e inv in
      if handled then (true, R1, e1, inv1) else run_loop b R1 e1 inv1.
Proof.
  induction a as [|id rest IH]; intros R e inv; [reflexivity|].
  cbn [app run_loop].
  destruct (lookup_reg id R) as [reg|]; [|apply IH].
  destruct (negb (active reg)); [apply IH|].
  destruct (ho_result (handler reg e)) as [v|]; [|apply IH].
  destruct (is_true v || defaultPrevented _); [reflexivity | apply IH].
Qed.

Lemma run_loop_handled (id : nat) (rest : list nat) (R : Registry)
  (e : KeyEvent) (inv : list nat) (reg : KeydownReg) (v : option bool) :
  lookup_reg id R = Some reg -> active reg = true ->
  ho_result (handler reg e) = Returns v ->
  v = Some true \/ ho_prevent (handler reg e) = true
  \/ defaultPrevented e = true ->
  run_loop (id :: rest) R e inv
  = (true, after_call id reg e R, after_event reg e, inv ++ [id]).
Proof.
  intros Hreg Hact Hres Hsig. cbn [run_loop].
  rewrite Hreg, Hact, Hres. cbv [negb].
  replace (is_true v || defaultPrevented _) with true; [reflexivity|].
  symmetry. destruct Hsig as [->|[Hp|Hp]].
  - reflexivity.
  - rewrite Hp. apply orb_true_r.
  - destruct (ho_prevent (handler reg e)); cbn [preventDefault defaultPrevented];
      [|rewrite Hp]; apply orb_true_r.
Qed.

(** C8, as the code has it.  In [run], a handler that is called and returns
    normally, either with [true] or with the event default-prevented when it
    returns, ends the dispatch: [run] returns [true], the handlers behind it
    in the snapshot are not called, and [focusTrapKeydown] returns without
    its Tab, Escape or arrow-key behaviour, leaving the sheet as it was
    apart from the registry. *)
Theorem C8_handled_short_circuits
  (cfg : Config) (e : KeyEvent) (count : Z) (s : Sheet) (h : Q)
  (before behind : list nat) (id : nat) (reg : KeydownReg)
  (R1 : Registry) (e1 : KeyEvent) (inv1 : list nat) (v : option bool) :
  isOpen s = true -> sheetHeight s = Some h ->
  regs (keydown s) = before ++ id :: behind ->
  run_loop before (keydown s) e [] = (false, R1, e1, inv1) ->
  lookup_reg id R1 = Some reg -> active reg = true ->
  ho_result (handler reg e1) = Returns v ->
  v = Some true \/ ho_prevent (handler reg e1) = true
  \/ defaultPrevented e1 = true ->
  run e (keydown s)
  = (true, after_call id reg e1 R1, after_event reg e1, inv1 ++ [id])
  /\ focusTrapKeydown cfg e count s
     = (count, set_keydown (after_call id reg e1 R1) s, after_event reg e1).
Proof.
  intros Hopen Hh Hregs Hbefore Hreg Hact Hres Hsig.
  assert (run e (keydown s)
          = (true, after_call id reg e1 R1, after_event reg e1, inv1 ++ [id]))
    as Hrun.
  { unfold run. rewrite Hregs, run_loop_app, Hbefore.
    apply (run_loop_handled id behind R1 e1 inv1 reg v); assumption. }
  split; [exact Hrun|].
  unfold focusTrapKeydown. rewrite Hopen, Hh, Hrun. reflexivity.
Qed.

(** The first handler marks the event consumed, and the handler below it is
    called all the same; with the first handler alone, [run] returns [false]
    and Escape closes the sheet. *)
Lemma C8_counterexample_throwing_handler :
  regs throwing_then_quiet = [1%nat; 2%nat]
  /\ ho_prevent (throwing escapeKey) = true
  /\ snd (run escapeKey throwing_then_quiet) = [1%nat; 2%nat]
  /\ fst (fst (fst (run escapeKey only_throwing))) = false
  /\ defaultPrevented (snd (fst (run escapeKey only_throwing))) = true
  /\ isOpen (snd (fst (focusTrapKeydown defaultConfig escapeKey 1
                         (set_keydown only_throwing sheet400)))) = false
  /\ events (snd (fst (focusTrapKeydown defaultConfig escapeKey 1
                         (set_keydown only_throwing sheet400))))
     = [EvClose esc].
Proof.
  repeat split.
Qed.

(** The handler at priority 10 returns [true] on Escape: [quiet] is not
    called and the sheet stays open. *)
Lemma C8_handled_short_circuits_witness :
  isOpen (set_keydown handling_then_quiet sheet400) = true
  /\ sheetHeight (set_keydown handling_then_quiet sheet400) = Some 400
  /\ regs handling_then_quiet = [] ++ 1%nat :: [2%nat]
  /\ snd (run escapeKey handling_then_quiet) = [1%nat]
  /\ focusTrapKeydown defaultConfig escapeKey 1
       (set_keydown handling_then_quiet sheet400)
     = (1%Z, set_keydown handling_then_quiet sheet400, escapeKey).
Proof.
  pose proof (C8_handled_short_circuits defaultConfig escapeKey 1
                (set_keydown handling_then_quiet sheet400) 400
                [] [2%nat] 1%nat
                (mkReg 1 handling 10 false true)
                handling_then_quiet escapeKey [] (Some true)
                eq_refl eq_refl eq_refl eq_refl eq_refl eq_refl eq_refl
                (or_introl eq_refl)) as [Hrun Hkey].
  split; [reflexivity|]. split; [reflexivity|]. split; [reflexivity|].
  split; [exact (f_equal snd Hrun) | exact Hkey].
Defined.

(** * Part III: further properties of the engine *)

(** Normal form of field updates on the gesture state. *)
Ltac gesture_fields :=
  cbn [sheet startX originScrollEl startScrollTop startAtTop startAtBottom
       scrollAreaRef bsScroll dom lastTapTs lastTapY lastWheelTs isMobile
       supportsPointer with_sheet set_startX set_origin set_scrollAreaRef
       set_lastTap set_lastWheelTs
       isOpen isAnimating sheetHeight innerHeight reduceMotion translateY
       overUp dragging activePointerId startY preDrag axisLocked lastY lastT
       vY stackIndex lastSnapIndexMem snapPointsRef inScroll focusables
       activeElement keydown events pending
       set_isOpen set_isAnimating set_translateY set_overUp set_dragging
       clear_pointer set_velocity set_stackIndex set_lastSnapIndexMem
       set_inScroll set_activeElement set_keydown set_pending emit defer
       set_snapPointsRef set_sheetHeight set_activePointerId set_startY
       set_preDrag set_axisLocked cleanupGesture startDrag fst snd].

(** ** The nearest snap point *)

Lemma first_min_snoc_keep (dist : Q -> Q) (seen : list Q) (x : Q) (i : nat) :
  first_min dist seen i -> dist (nth i seen 0) <= dist x ->
  first_min dist (seen ++ [x]) i.
Proof.
  intros (Hi & Hmin & Hfirst) Hx.
  assert (forall j, (j < length seen)%nat ->
                    nth j (seen ++ [x]) 0 = nth j seen 0) as Hnth
    by (intros j Hj; apply app_nth1, Hj).
  split; [rewrite length_app; simpl; lia|]. rewrite (Hnth i Hi). split.
  - intros j Hj. rewrite length_app in Hj. simpl in Hj.
    destruct (Nat.eq_dec j (length seen)) as [->|Hne].
    + rewrite nth_middle. exact Hx.
    + rewrite Hnth by lia. apply Hmin. lia.
  - intros j Hj. rewrite Hnth by lia. apply Hfirst, Hj.
Qed.

Lemma first_min_snoc_new (dist : Q -> Q) (seen : list Q) (x : Q) (i : nat) :
  first_min dist seen i -> dist x < dist (nth i seen 0) ->
  first_min dist (seen ++ [x]) (length seen).
Proof.
  intros (Hi & Hmin & Hfirst) Hx.
  split; [rewrite length_app; simpl; lia|]. rewrite nth_middle. split.
  - intros j Hj. rewrite length_app in Hj. simpl in Hj.
    destruct (Nat.eq_dec j (length seen)) as [->|Hne].
    + rewrite nth_middle. apply Qle_refl.
    + rewrite app_nth1 by lia. specialize (Hmin j ltac:(lia)). lra.
  - intros j Hj. rewrite app_nth1 by lia. specialize (Hmin j Hj). lra.
Qed.

Lemma first_min_single (dist : Q -> Q) (x : Q) : first_min dist [x] 0.
Proof.
  split; [simpl; lia|]. split.
  - intros j Hj. simpl in Hj. assert (j = 0%nat) as -> by lia. apply Qle_refl.
  - intros j Hj. lia.
Qed.

(** Two first minima of the same distances are the same index. *)
Lemma first_min_unique (dist1 dist2 : Q -> Q) (pts : list Q) (i j : nat) :
  (forall x, dist1 x == dist2 x) ->
  first_min dist1 pts i -> first_min dist2 pts j -> i = j.
Proof.
  intros Heq (Hi & Hmin1 & Hfirst1) (Hj & Hmin2 & Hfirst2).
  destruct (Nat.lt_trichotomy i j) as [Hlt|[->|Hgt]]; [|reflexivity|].
  - specialize (Hfirst2 i Hlt). specialize (Hmin1 j Hj).
    rewrite !Heq in Hmin1. lra.
  - specialize (Hfirst1 j Hgt). specialize (Hmin2 i Hi).
    rewrite !Heq in Hfirst1. lra.
Qed.

Lemma nearest_fromR_first_min (rnd : Q -> Q) (p : Q) (rest : list Q) :
  forall seen k idx d,
    k = length seen ->
    first_min (fun x => Qabs (rnd (x - p))) seen idx ->
    d == Qabs (rnd (nth idx seen 0 - p)) ->
    first_min (fun x => Qabs (rnd (x - p))) (seen ++ rest)
      (fst (nearest_fromR rnd p rest k (idx, Some d))).
Proof.
  induction rest as [|sp r IH]; intros seen k idx d Hk Hbest Hd.
  - rewrite app_nil_r. exact Hbest.
  - cbn [nearest_fromR snd].
    change (sp :: r) with ([sp] ++ r). rewrite app_assoc.
    assert (S k = length (seen ++ [sp])) as Hk1
      by (rewrite length_app; simpl; lia).
    destruct (Qltb (Qabs (rnd (sp - p))) d) eqn:E.
    + apply Qltb_lt in E. apply IH; [exact Hk1 | |].
      * rewrite Hk. apply (first_min_snoc_new _ seen sp idx Hbest).
        cbv beta. rewrite <- Hd. exact E.
      * rewrite Hk, nth_middle. reflexivity.
    + apply Qltb_ge in E. apply IH; [exact Hk1 | |].
      * apply (first_min_snoc_keep _ seen sp idx Hbest).
        cbv beta. rewrite <- Hd. exact E.
      * rewrite app_nth1 by apply Hbest. exact Hd.
Qed.

(** The [forEach] of [currentSnapIndex] finds the first point at the least
    computed distance. *)
Lemma nearestIndexR_first_min (rnd : Q -> Q) (p : Q) (pts : list Q) :
  pts <> [] ->
  first_min (fun x => Qabs (rnd (x - p))) pts (nearestIndexR rnd p pts).
Proof.
  intro Hne. destruct pts as [|sp r]; [congruence|].
  unfold nearestIndexR. cbn [nearest_fromR snd].
  apply (nearest_fromR_first_min rnd p r [sp] 1%nat 0%nat
           (Qabs (rnd (sp - p))));
    [reflexivity | apply first_min_single | reflexivity].
Qed.

(** The same for the [for] loop of [endDrag], which also keeps the point. *)
Lemma nearest_scanR_first_min (rnd : Q -> Q) (p : Q) (rest : list Q) :
  forall seen idx d,
    first_min (fun x => Qabs (rnd (p - x))) seen idx ->
    d == Qabs (rnd (p - nth idx seen 0)) ->
    exists ni dmin,
      nearest_scanR rnd p rest (length seen) (nth idx seen 0, Some d, idx)
      = (nth ni (seen ++ rest) 0, dmin, ni)
      /\ first_min (fun x => Qabs (rnd (p - x))) (seen ++ rest) ni.
Proof.
  induction rest as [|pt r IH]; intros seen idx d Hbest Hd.
  - exists idx, (Some d). rewrite app_nil_r. split; [reflexivity | exact Hbest].
  - cbn [nearest_scanR fst snd].
    change (pt :: r) with ([pt] ++ r). rewrite app_assoc.
    assert (length (seen ++ [pt]) = S (length seen)) as Hlen
      by (rewrite length_app; simpl; lia).
    destruct (Qltb (Qabs (rnd (p - pt))) d) eqn:E.
    + apply Qltb_lt in E.
      destruct (IH (seen ++ [pt]) (length seen) (Qabs (rnd (p - pt))))
        as (ni & dmin & Hscan & Hmin).
      * apply (first_min_snoc_new _ seen pt idx Hbest).
        cbv beta. rewrite <- Hd. exact E.
      * rewrite nth_middle. reflexivity.
      * rewrite Hlen, nth_middle in Hscan. exists ni, dmin.
        split; [exact Hscan | exact Hmin].
    + apply Qltb_ge in E.
      destruct (IH (seen ++ [pt]) idx d) as (ni & dmin & Hscan & Hmin).
      * apply (first_min_snoc_keep _ seen pt idx Hbest).
        cbv beta. rewrite <- Hd. exact E.
      * rewrite app_nth1 by apply Hbest. exact Hd.
      * rewrite Hlen, app_nth1 in Hscan by apply Hbest. exists ni, dmin.
        split; [exact Hscan | exact Hmin].
Qed.

(** What the scan of [endDrag] returns: the first point at the least
    computed distance, and its index. *)
Lemma nearest_scanR_result (rnd : Q -> Q) (p : Q) (pts : list Q) :
  pts <> [] ->
  exists ni dmin,
    nearest_scanR rnd p pts 0%nat (nth 0 pts 0, None, 0%nat)
    = (nth ni pts 0, dmin, ni)
    /\ first_min (fun x => Qabs (rnd (p - x))) pts ni.
Proof.
  intro Hne. destruct pts as [|pt r]; [congruence|].
  cbn [nearest_scanR fst snd].
  destruct (nearest_scanR_first_min rnd p r [pt] 0%nat (Qabs (rnd (p - pt)))
              (first_min_single _ pt) ltac:(reflexivity))
    as (ni & dmin & Hscan & Hmin).
  cbn [nth app length] in Hscan, Hmin. exists ni, dmin.
  split; [exact Hscan | exact Hmin].
Qed.

(** With the identity for rounding, the functions of the rounded engine
    are those of the engine. *)
Lemma nearest_fromR_exact (p : Q) (pts : list Q) :
  forall i acc,
    nearest_fromR (fun x => x) p pts i acc = nearest_from p pts i acc.
Proof.
  induction pts as [|sp r IH]; intros i acc; [reflexivity|].
  cbn [nearest_fromR nearest_from]. apply IH.
Qed.

Lemma nearest_scanR_exact (p : Q) (pts : list Q) :
  forall i acc,
    nearest_scanR (fun x => x) p pts i acc = nearest_scan p pts i acc.
Proof.
  induction pts as [|pt r IH]; intros i acc; [reflexivity|].
  cbn [nearest_scanR nearest_scan]. apply IH.
Qed.

Lemma endDragR_exact (cfg : Config) (s : Sheet) :
  endDragR (fun x => x) cfg s = endDrag cfg s.
Proof.
  unfold endDragR, endDrag. rewrite nearest_scanR_exact. reflexivity.
Qed.

(** [rnd64] is the rounding of the machine on the operations of the
    examples below: the differences of 0.45 from 0.01 and from 0.89, and
    of 0.85 from 0.7 and from 1, are each a pair of equal floats. *)
Lemma rnd64_machine :
  float_value (floatOf 45 100) = Some (rnd64 (45 # 100))
  /\ float_value (PrimFloat.sub (floatOf 1 100) (floatOf 45 100))
     = Some (rnd64 (rnd64 (1 # 100) - rnd64 (45 # 100)))
  /\ float_value (PrimFloat.sub (floatOf 89 100) (floatOf 45 100))
     = Some (rnd64 (rnd64 (89 # 100) - rnd64 (45 # 100)))
  /\ float_value (PrimFloat.sub (floatOf 85 100) (floatOf 7 10))
     = Some (rnd64 (rnd64 (85 # 100) - rnd64 (7 # 10)))
  /\ float_value (PrimFloat.sub (floatOf 85 100) (floatOf 1 1))
     = Some (rnd64 (rnd64 (85 # 100) - 1))
  /\ float_value (PrimFloat.sub (floatOf 11 20) (floatOf 1 10))
     = Some (rnd64 (rnd64 (11 # 20) - rnd64 (1 # 10)))
  /\ float_value (PrimFloat.mul (floatOf 7 10) (floatOf 100 1))
     = Some (rnd64 (rnd64 (7 # 10) * 100))
  /\ float_value (floatOf 999 1000) = Some (rnd64 (999 # 1000)).
Proof.
  repeat split; vm_compute; reflexivity.
Qed.

(** X1.  For a non-empty list of snap points, the index returned by the
    nearest-snap lookup names a point at the least distance from the
    progress, and no earlier point is as close: ties go to the lower index.
    The distances are the ones the lookup computes, whatever the rounding
    of the subtraction; with exact subtraction the lookup is the engine's
    [nearestIndex]. *)
Theorem nearestIndex_closest (rnd : Q -> Q) (p : Q) (pts : list Q)
  (s : Sheet) :
  pts <> [] ->
  let dist := fun sp => Qabs (rnd (sp - p)) in
  let i := nearestIndexR rnd p pts in
  (i < length pts)%nat
  /\ (forall j, (j < length pts)%nat ->
         dist (nth i pts 0) <= dist (nth j pts 0))
  /\ (forall j, (j < i)%nat -> dist (nth i pts 0) < dist (nth j pts 0))
  /\ nearestIndexR (fun x => x) p pts = nearestIndex p pts
  /\ (let h := offsetHeight_or 1 s in
      let ps := clamp01 (if truthy h then rnd (translateY s / h) else 0) in
      first_min (fun sp => Qabs (rnd (sp - ps))) (snaps s)
        (currentSnapIndexR rnd s))
  /\ currentSnapIndexR (fun x => x) s = currentSnapIndex s.
Proof.
  intros Hne dist i.
  destruct (nearestIndexR_first_min rnd p pts Hne) as (H1 & H2 & H3).
  split; [exact H1|]. split; [exact H2|]. split; [exact H3|].
  split; [unfold nearestIndexR, nearestIndex; rewrite nearest_fromR_exact;
          reflexivity|].
  split; [apply nearestIndexR_first_min, snaps_of_nonempty|].
  unfold currentSnapIndexR, currentSnapIndex, nearestIndexR, nearestIndex.
  rewrite nearest_fromR_exact. reflexivity.
Qed.

(** Progress 0.45 between the snap points 0.01 and 0.89, as floats: the two
    computed distances are equal and the lower index wins, although the
    float 0.89 is the closer one. *)
Lemma nearestIndex_closest_witness :
  [rnd64 (1 # 100); rnd64 (89 # 100); 1] <> []
  /\ nearestIndexR rnd64 (rnd64 (45 # 100))
       [rnd64 (1 # 100); rnd64 (89 # 100); 1] = 0%nat
  /\ nearestIndex (rnd64 (45 # 100))
       [rnd64 (1 # 100); rnd64 (89 # 100); 1] = 1%nat
  /\ Qabs (rnd64 (rnd64 (1 # 100) - rnd64 (45 # 100)))
     <= Qabs (rnd64 (rnd64 (89 # 100) - rnd64 (45 # 100))).
Proof.
  assert ([rnd64 (1 # 100); rnd64 (89 # 100); 1] <> []) as Hne
    by discriminate.
  destruct (nearestIndex_closest rnd64 (rnd64 (45 # 100))
              [rnd64 (1 # 100); rnd64 (89 # 100); 1] sheet400 Hne)
    as (_ & Hmin & _).
  split; [exact Hne|]. split; [vm_compute; reflexivity|].
  split; [vm_compute; reflexivity|].
  specialize (Hmin 1%nat ltac:(simpl; lia)).
  replace (nearestIndexR rnd64 (rnd64 (45 # 100))
             [rnd64 (1 # 100); rnd64 (89 # 100); 1]) with 0%nat in Hmin
    by (vm_compute; reflexivity).
  exact Hmin.
Defined.

(** ** Releasing a drag: the branches without a fling *)

Lemma closeAnimated_fields (cfg : Config) (reason : CloseReason) (s : Sheet) :
  dragging (closeAnimated cfg reason s) = dragging s
  /\ events (closeAnimated cfg reason s) = events s
  /\ translateY (closeAnimated cfg reason s) = translateY s
  /\ overUp (closeAnimated cfg reason s) = overUp s
  /\ isOpen (closeAnimated cfg reason s) = isOpen s
  /\ stackIndex (closeAnimated cfg reason s) = stackIndex s
  /\ sheetHeight (closeAnimated cfg reason s) = sheetHeight s.
Proof.
  unfold closeAnimated. destruct (negb (isOpen s)); repeat split.
Qed.

Lemma snapTo_fields (progress : Q) (animate : bool) (s : Sheet) :
  dragging (snapTo progress animate s) = dragging s
  /\ overUp (snapTo progress animate s) = overUp s
  /\ stackIndex (snapTo progress animate s) = stackIndex s
  /\ lastSnapIndexMem (snapTo progress animate s) = lastSnapIndexMem s
  /\ keydown (snapTo progress animate s) = keydown s
  /\ activeElement (snapTo progress animate s) = activeElement s.
Proof.
  unfold snapTo. destruct (negb animate || reduceMotion s); repeat split.
Qed.

(** Every path of [endDrag] through an active drag ends in
    [cleanupGesture], applied to a state in which the drag is over. *)
Lemma endDrag_shape (cfg : Config) (s : Sheet) :
  dragging s = true ->
  exists s0, endDrag cfg s = cleanupGesture s0 /\ dragging s0 = false.
Proof.
  intro Hdrag. unfold endDrag. rewrite Hdrag. cbv [negb].
  set (s0 := set_overUp 0 (set_dragging false s)).
  assert (dragging (closeAnimated cfg drag s0) = false) as Hc
    by (destruct (closeAnimated_fields cfg drag s0) as (-> & _); reflexivity).
  destruct (_ && _).
  - eexists. split; [reflexivity | exact Hc].
  - destruct (Qltb _ _).
    + eexists. split; [reflexivity | exact Hc].
    + destruct (nearest_scan _ _ _ _) as [[nearest dmin] ni].
      destruct (Qle_bool _ _).
      * eexists. split; [reflexivity | exact Hc].
      * eexists. split; [reflexivity|].
        change (dragging (snapTo nearest true (set_isAnimating true s0)) = false).
        destruct (snapTo_fields nearest true (set_isAnimating true s0))
          as (-> & _). reflexivity.
Qed.

(** X2.  Whatever branch [endDrag] takes on an active drag, the gesture
    state is cleared: no drag, no upward overdrag, no captured pointer, no
    pre-drag, no axis lock, and the velocity sampler is reset. *)
Theorem endDrag_clears_gesture (cfg : Config) (s : Sheet) :
  dragging s = true ->
  let s1 := endDrag cfg s in
  dragging s1 = false /\ overUp s1 = 0
  /\ activePointerId s1 = None /\ preDrag s1 = false /\ axisLocked s1 = None
  /\ lastY s1 = 0 /\ lastT s1 = 0 /\ vY s1 = 0
  /\ inScroll s1 = false.
Proof.
  intros Hdrag s1. destruct (endDrag_shape cfg s Hdrag) as (s0 & Heq & H0).
  unfold s1. rewrite Heq. sheet_fields. rewrite H0. repeat split.
Qed.

Lemma endDrag_clears_gesture_witness :
  dragging (dragged 400 20 2) = true
  /\ dragging (endDrag defaultConfig (dragged 400 20 2)) = false
  /\ activePointerId (endDrag defaultConfig (dragged 400 20 2)) = None
  /\ axisLocked (endDrag defaultConfig (dragged 400 20 2)) = None.
Proof.
  destruct (endDrag_clears_gesture defaultConfig (dragged 400 20 2) eq_refl)
    as (H1 & _ & H2 & _ & H3 & _).
  split; [reflexivity|]. split; [exact H1|]. split; [exact H2 | exact H3].
Defined.

Lemma closeAnimatedR_open (rnd : Q -> Q) (cfg : Config)
  (reason : CloseReason) (s : Sheet) :
  isOpen s = true ->
  closeAnimatedR rnd cfg reason s
  = defer (TCloseFrame (rnd (offsetHeight_or 0 s + openAnimationExtraPx cfg))
             reason)
      (set_isAnimating true s).
Proof.
  intro H. unfold closeAnimatedR. rewrite H. reflexivity.
Qed.

(** X3.  A release without a fling and within the close threshold, whose
    nearest snap point lies below 0.999, animates to that point: the first
    snap point at the least distance from the release progress, as the
    scan computes the distances. It emits [dragEnd {closed: false}] and
    then [snap] with the index and value of that point, schedules nothing
    and leaves the lifecycle state alone.  This holds whatever the rounding
    of the arithmetic. *)
Theorem endDrag_snaps_to_nearest (rnd : Q -> Q) (cfg : Config) (s : Sheet) :
  let h := offsetHeight_or 0 s in
  let p := if truthy h then rnd (translateY s / h) else 0 in
  let i := snd (nearest_scanR rnd p (snaps s) 0%nat
                  (nth 0 (snaps s) 0, None, 0%nat)) in
  dragging s = true ->
  vY s <= flingVelocityPxPerMs cfg ->
  translateY s
  <= Qmax (closeThresholdPx cfg) (rnd (h * closeThresholdRatio cfg)) ->
  nth i (snaps s) 0 < rnd (999 # 1000) ->
  let s1 := endDragR rnd cfg s in
  first_min (fun pt => Qabs (rnd (p - pt))) (snaps s) i
  /\ events s1
     = events s ++ [EvDragEnd false; EvSnap (Z.of_nat i) (nth i (snaps s) 0)]
  /\ translateY s1 = rnd (clamp01 (nth i (snaps s) 0) * h)
  /\ isAnimating s1 = true
  /\ pending s1 = pending s
  /\ isOpen s1 = isOpen s.
Proof.
  intros h p i Hdrag Hv Hth Hnear s1.
  destruct (nearest_scanR_result rnd p (snaps s) (snaps_of_nonempty _))
    as (ni & dmin & Hscan & Hmin).
  assert (i = ni) as Hi by (unfold i; rewrite Hscan; reflexivity).
  rewrite Hi in *. clear Hi i. split; [exact Hmin|].
  assert (s1 = cleanupGesture
                 (emit (EvSnap (Z.of_nat ni) (nth ni (snaps s) 0))
                    (emit (EvDragEnd false)
                       (snapToR rnd (nth ni (snaps s) 0) true
                          (set_isAnimating true
                             (set_overUp 0 (set_dragging false s)))))))
    as Hend.
  { unfold s1, endDragR. rewrite Hdrag. cbv [negb].
    change (vY (set_overUp 0 (set_dragging false s))) with (vY s).
    change (translateY (set_overUp 0 (set_dragging false s)))
      with (translateY s).
    change (offsetHeight_or 0 (set_overUp 0 (set_dragging false s))) with h.
    change (snaps (set_overUp 0 (set_dragging false s))) with (snaps s).
    rewrite (no_fling_test cfg (vY s) Hv).
    replace (Qltb (Qmax (closeThresholdPx cfg)
                     (rnd (h * closeThresholdRatio cfg))) (translateY s))
      with false by (symmetry; apply Qltb_ge; exact Hth).
    fold p. rewrite Hscan.
    replace (Qle_bool (rnd (999 # 1000)) (nth ni (snaps s) 0)) with false;
      [reflexivity|].
    symmetry.
    destruct (Qle_bool (rnd (999 # 1000)) (nth ni (snaps s) 0)) eqn:E;
      [|reflexivity].
    apply Qle_bool_iff in E. lra. }
  rewrite Hend. unfold snapToR.
  change (offsetHeight_or 0 (set_isAnimating true
                               (set_overUp 0 (set_dragging false s))))
    with h.
  destruct (negb true || reduceMotion _); sheet_fields;
    rewrite <- app_assoc; repeat split.
Qed.

(** Released at 85px on a 100px sheet with the snap points 0.7 and 1, as
    floats: the two computed distances are equal, so the sheet goes back to
    0.7, where exact arithmetic dismisses it. *)
Lemma endDrag_snaps_to_nearest_witness :
  dragging (released 100 85 [rnd64 (7 # 10); 1]) = true
  /\ vY (released 100 85 [rnd64 (7 # 10); 1])
     <= flingVelocityPxPerMs defaultConfig
  /\ events (endDragR rnd64 defaultConfig
               (released 100 85 [rnd64 (7 # 10); 1]))
     = [EvDragStart; EvDragEnd false; EvSnap 0 (rnd64 (7 # 10))]
  /\ translateY (endDragR rnd64 defaultConfig
                   (released 100 85 [rnd64 (7 # 10); 1])) == 70
  /\ events (endDrag defaultConfig (released 100 85 [rnd64 (7 # 10); 1]))
     = [EvDragStart; EvDragEnd true].
Proof.
  assert (vY (released 100 85 [rnd64 (7 # 10); 1])
          <= flingVelocityPxPerMs defaultConfig) as Hv
    by discriminate.
  pose proof (endDrag_snaps_to_nearest rnd64 defaultConfig
                (released 100 85 [rnd64 (7 # 10); 1])
                eq_refl Hv ltac:(vm_compute; discriminate)
                ltac:(vm_compute; reflexivity)) as H.
  cbv zeta in H. destruct H as (_ & He & Ht & _).
  split; [reflexivity|]. split; [exact Hv|]. split.
  - rewrite He. vm_compute. reflexivity.
  - split; [rewrite Ht; vm_compute; reflexivity|].
    vm_compute. reflexivity.
Defined.

(** X4.  A release without a fling is a dismissal when the offset exceeds
    the close threshold, or when the nearest snap point, the first at the
    least computed distance from the release progress, is at 0.999 or
    beyond: [dragEnd {closed: true}] is emitted, no [snap] event, and on an
    open sheet the animated close with reason [drag] is scheduled from the
    current height plus [openAnimationExtraPx].  This holds whatever the
    rounding of the arithmetic. *)
Theorem endDrag_dismisses (rnd : Q -> Q) (cfg : Config) (s : Sheet) :
  let h := offsetHeight_or 0 s in
  let p := if truthy h then rnd (translateY s / h) else 0 in
  let i := snd (nearest_scanR rnd p (snaps s) 0%nat
                  (nth 0 (snaps s) 0, None, 0%nat)) in
  dragging s = true -> isOpen s = true ->
  vY s <= flingVelocityPxPerMs cfg ->
  Qmax (closeThresholdPx cfg) (rnd (h * closeThresholdRatio cfg))
  < translateY s
  \/ rnd (999 # 1000) <= nth i (snaps s) 0 ->
  let s1 := endDragR rnd cfg s in
  first_min (fun pt => Qabs (rnd (p - pt))) (snaps s) i
  /\ events s1 = events s ++ [EvDragEnd true]
  /\ pending s1
     = pending s ++ [TCloseFrame (rnd (h + openAnimationExtraPx cfg)) drag]
  /\ translateY s1 = translateY s
  /\ isOpen s1 = true
  /\ dragging s1 = false.
Proof.
  intros h p i Hdrag Hopen Hv Hcase s1.
  destruct (nearest_scanR_result rnd p (snaps s) (snaps_of_nonempty _))
    as (ni & dmin & Hscan & Hmin).
  assert (i = ni) as Hi by (unfold i; rewrite Hscan; reflexivity).
  rewrite Hi in *. clear Hi i. split; [exact Hmin|].
  assert (s1
          = cleanupGesture
              (emit (EvDragEnd true)
                 (closeAnimatedR rnd cfg drag
                    (set_overUp 0 (set_dragging false s))))) as Hend.
  { unfold s1, endDragR. rewrite Hdrag. cbv [negb].
    change (vY (set_overUp 0 (set_dragging false s))) with (vY s).
    change (translateY (set_overUp 0 (set_dragging false s)))
      with (translateY s).
    change (offsetHeight_or 0 (set_overUp 0 (set_dragging false s))) with h.
    change (snaps (set_overUp 0 (set_dragging false s))) with (snaps s).
    rewrite (no_fling_test cfg (vY s) Hv). fold p.
    destruct (Qltb (Qmax (closeThresholdPx cfg)
                      (rnd (h * closeThresholdRatio cfg)))
                (translateY s)) eqn:E; [reflexivity|].
    apply Qltb_ge in E. destruct Hcase as [Hc|Hc]; [lra|].
    rewrite Hscan.
    replace (Qle_bool (rnd (999 # 1000)) (nth ni (snaps s) 0)) with true;
      [reflexivity|].
    symmetry. apply Qle_bool_iff. exact Hc. }
  rewrite Hend, closeAnimatedR_open by exact Hopen.
  change (offsetHeight_or 0 (set_overUp 0 (set_dragging false s))) with h.
  sheet_fields. repeat split. exact Hopen.
Qed.

(** Released at 11px on a 20px sheet with the snap points 0.1 and 1, as
    floats: the computed distance to 1 is the smaller one and the sheet is
    dismissed, where exact arithmetic on 0.55 and 0.1 finds a tie and
    snaps back. *)
Lemma endDrag_dismisses_witness :
  dragging (released 20 11 [rnd64 (1 # 10); 1]) = true
  /\ isOpen (released 20 11 [rnd64 (1 # 10); 1]) = true
  /\ vY (released 20 11 [rnd64 (1 # 10); 1])
     <= flingVelocityPxPerMs defaultConfig
  /\ events (endDragR rnd64 defaultConfig
               (released 20 11 [rnd64 (1 # 10); 1]))
     = [EvDragStart; EvDragEnd true]
  /\ pending (endDragR rnd64 defaultConfig
                (released 20 11 [rnd64 (1 # 10); 1]))
     = [TCloseFrame 140 drag]
  /\ events (endDrag defaultConfig (released 20 11 [1 # 10; 1]))
     = [EvDragStart; EvDragEnd false; EvSnap 0 (1 # 10)].
Proof.
  assert (vY (released 20 11 [rnd64 (1 # 10); 1])
          <= flingVelocityPxPerMs defaultConfig) as Hv
    by discriminate.
  pose proof (endDrag_dismisses rnd64 defaultConfig
                (released 20 11 [rnd64 (1 # 10); 1])
                eq_refl eq_refl Hv) as H.
  cbv zeta in H.
  destruct H as (_ & He & Hp & _);
    [right; vm_compute; discriminate|].
  split; [reflexivity|]. split; [reflexivity|]. split; [exact Hv|].
  split; [exact He|]. split; [rewrite Hp; vm_compute; reflexivity|].
  vm_compute. reflexivity.
Defined.

(** ** Replacing the snap points *)

Lemma set_from_distinct_id (xs : list Q) :
  forall seen,
    distinctQ xs -> Forall (fun x => memQ x seen = false) xs ->
    set_from seen xs = xs.
Proof.
  induction xs as [|x r IH]; intros seen Hd Hs; [reflexivity|].
  inversion Hd as [|? ? Hx Hr]; subst. inversion Hs as [|? ? Hx1 Hr1]; subst.
  cbn [set_from]. rewrite Hx1. f_equal. apply IH; [exact Hr|].
  rewrite Forall_forall in *. intros y Hy. unfold memQ. cbn [existsb].
  apply orb_false_iff. split.
  - destruct (Qeq_bool y x) eqn:E; [|reflexivity].
    apply Qeq_bool_iff in E. exfalso. apply (Hx y Hy). symmetry. exact E.
  - apply Hr1, Hy.
Qed.

Lemma sorted_lt_distinct (l : list Q) : StronglySorted Qlt l -> distinctQ l.
Proof.
  induction 1 as [|a r Hs IH Ha]; constructor; [|exact IH].
  eapply Forall_impl; [|exact Ha]. intros y Hy. simpl in Hy. lra.
Qed.

Lemma sort_asc_sorted_id (l : list Q) : StronglySorted Qlt l -> sort_asc l = l.
Proof.
  induction 1 as [|a r Hs IH Ha]; [reflexivity|].
  cbn [sort_asc]. rewrite IH. destruct r as [|y r']; [reflexivity|].
  cbn [insert_asc]. inversion Ha as [|? ? Hay _]; subst.
  replace (Qltb y a) with false; [reflexivity|].
  symmetry. apply Qltb_ge. lra.
Qed.

Lemma sorted_lt_Forall2 (l m : list Q) :
  Forall2 Qeq m l -> StronglySorted Qlt l -> StronglySorted Qlt m.
Proof.
  induction 1 as [|x y m' l' Hxy Hrest IH]; intro Hs; [constructor|].
  inversion Hs as [|? ? Hs' Hall]; subst. constructor; [apply IH, Hs'|].
  clear IH Hs Hs'. induction Hrest as [|x' y' m'' l'' Hxy' Hrest' IH'];
    [constructor|].
  inversion Hall; subst. constructor; [lra | apply IH'; assumption].
Qed.

Lemma map_clamp01_in01 (l : list Q) :
  Forall in01 l -> Forall2 Qeq (map clamp01 l) l.
Proof.
  induction 1 as [|x r Hx Hr IH]; [constructor|].
  constructor; [apply clamp01_id, Hx | exact IH].
Qed.

(** A normalized list is a fixed point of [uniqSorted], up to the way a
    number is written. *)
Lemma uniqSorted_normal (l : list Q) :
  StronglySorted Qlt l -> Forall in01 l -> uniqSorted l = map clamp01 l.
Proof.
  intros Hs Hin. unfold uniqSorted.
  assert (StronglySorted Qlt (map clamp01 l)) as Hm
    by (apply (sorted_lt_Forall2 l); [apply map_clamp01_in01, Hin | exact Hs]).
  rewrite set_from_distinct_id.
  - apply sort_asc_sorted_id, Hm.
  - apply sorted_lt_distinct, Hm.
  - apply Forall_forall. intros; reflexivity.
Qed.

Lemma snaps_set_snapPointsRef (points : list Q) (s : Sheet) :
  points <> [] ->
  snaps (set_snapPointsRef (uniqSorted points) s)
  = map clamp01 (uniqSorted points).
Proof.
  intro Hne. unfold snaps, snaps_of. cbn [snapPointsRef set_snapPointsRef].
  pose proof (uniqSorted_nonempty points Hne) as Hu.
  destruct (uniqSorted points) as [|a r] eqn:E; [congruence|].
  rewrite <- E. apply uniqSorted_normal;
    [apply uniqSorted_sorted | apply uniqSorted_in01].
Qed.

(** X5.  [setSnapPoints(points)] with a non-empty list makes the snap set
    the normalized list, entry by entry, and touches neither the offset nor
    the lifecycle state, whereas with an empty list it does nothing at all.
    The snap set is normalized a second time when it is read, which changes
    no value. *)
Theorem setSnapPoints_snaps (points : list Q) (s : Sheet) :
  points <> [] ->
  setSnapPoints [] None s = Some s
  /\ exists s1,
       setSnapPoints points None s = Some s1
       /\ Forall2 Qeq (snaps s1) (uniqSorted points)
       /\ translateY s1 = translateY s
       /\ isOpen s1 = isOpen s
       /\ events s1 = events s.
Proof.
  intro Hne. split; [reflexivity|].
  exists (set_snapPointsRef (uniqSorted points) s).
  split; [destruct points; [congruence | reflexivity]|].
  split; [|repeat split].
  rewrite snaps_set_snapPointsRef by exact Hne.
  apply map_clamp01_in01, uniqSorted_in01.
Qed.

Lemma setSnapPoints_snaps_witness :
  [9 # 10; 1 # 5; 1 # 5; 3 # 2] <> []
  /\ exists s1,
       setSnapPoints [9 # 10; 1 # 5; 1 # 5; 3 # 2] None sheet400 = Some s1
       /\ Forall2 Qeq (snaps s1) [1 # 5; 9 # 10; 1].
Proof.
  assert ([9 # 10; 1 # 5; 1 # 5; 3 # 2] <> []) as Hne by discriminate.
  destruct (setSnapPoints_snaps [9 # 10; 1 # 5; 1 # 5; 3 # 2] sheet400 Hne)
    as (_ & s1 & Hs & Hf & _).
  split; [exact Hne|]. exists s1. split; [exact Hs | exact Hf].
Defined.





(** ** Opening and closing *)

Lemma snapToIndex_rest (index : Q) (animate : bool) (s : Sheet) :
  stackIndex (snapToIndex index animate s) = stackIndex s
  /\ overUp (snapToIndex index animate s) = overUp s
  /\ dragging (snapToIndex index animate s) = dragging s
  /\ keydown (snapToIndex index animate s) = keydown s
  /\ activeElement (snapToIndex index animate s) = activeElement s.
Proof.
  unfold snapToIndex, snapTo.
  destruct (negb animate || reduceMotion s); repeat split.
Qed.

(** X7.  [closeAnimated] on an open sheet runs to completion: the frame
    callback moves the sheet off screen while it is still open, and
    [onDone], whether the transition end or the fallback timer calls it,
    leaves the sheet closed at offset 0, releases the stack index and emits
    one [close] event with the reason given. *)
Theorem closeAnimated_completes
  (cfg : Config) (reason : CloseReason) (count : Z) (s : Sheet) :
  isOpen s = true ->
  let k := length (pending s) in
  let s1 := closeAnimated cfg reason s in
  let frame := fire cfg k count s1 in
  let done := fire cfg k (fst frame) (snd frame) in
  isAnimating s1 = true
  /\ translateY (snd frame) = offsetHeight_or 0 s + openAnimationExtraPx cfg
  /\ isOpen (snd frame) = true
  /\ events (snd frame) = events s
  /\ isOpen (snd done) = false
  /\ isAnimating (snd done) = false
  /\ translateY (snd done) = 0
  /\ stackIndex (snd done) = None
  /\ fst done = match stackIndex s with
                | Some _ => Z.max 0 (count - 1)
                | None => count
                end
  /\ events (snd done) = events s ++ [EvClose reason]
  /\ pending (snd done) = pending s.
Proof.
  intros Hopen k s1 frame done.
  assert (s1 = defer (TCloseFrame (offsetHeight_or 0 s
                                   + openAnimationExtraPx cfg) reason)
                 (set_isAnimating true s)) as Hs1
    by (apply closeAnimated_open, Hopen).
  assert (frame = (count, defer (TOnDone reason)
                            (set_translateY (offsetHeight_or 0 s
                                             + openAnimationExtraPx cfg)
                               (set_isAnimating true s)))) as Hframe.
  { unfold frame, k. rewrite Hs1.
    rewrite (fire_last cfg (TCloseFrame (offsetHeight_or 0 s
                                         + openAnimationExtraPx cfg) reason)
               count _ (pending s)); reflexivity. }
  assert (done = close reason count
                   (set_isAnimating false
                      (set_translateY (offsetHeight_or 0 s
                                       + openAnimationExtraPx cfg)
                         (set_isAnimating true s)))) as Hdone.
  { unfold done, k. rewrite Hframe. cbv [fst snd].
    rewrite (fire_last cfg (TOnDone reason) count _ (pending s));
      reflexivity. }
  rewrite Hdone, Hframe, Hs1, close_eq. sheet_fields.
  repeat split. exact Hopen.
Qed.

Lemma closeAnimated_completes_witness :
  isOpen sheet400 = true
  /\ isOpen (snd (fire defaultConfig 0
                    (fst (fire defaultConfig 0 1
                            (closeAnimated defaultConfig backdrop sheet400)))
                    (snd (fire defaultConfig 0 1
                            (closeAnimated defaultConfig backdrop sheet400)))))
     = false
  /\ events (snd (fire defaultConfig 0
                    (fst (fire defaultConfig 0 1
                            (closeAnimated defaultConfig backdrop sheet400)))
                    (snd (fire defaultConfig 0 1
                            (closeAnimated defaultConfig backdrop sheet400)))))
     = [EvClose backdrop].
Proof.
  pose proof (closeAnimated_completes defaultConfig backdrop 1 sheet400
                eq_refl) as H.
  cbv zeta in H. destruct H as (_ & _ & _ & _ & Ho & _ & _ & _ & _ & He & _).
  split; [reflexivity|]. split; [exact Ho | exact He].
Defined.

Lemma clampIndex_Z (pts : list Q) (i : Z) :
  (0 <= i < Z.of_nat (length pts))%Z -> (i < 2 ^ 31)%Z ->
  clampIndex pts (inject_Z i) = i.
Proof.
  intros Hi Hsmall. unfold clampIndex.
  rewrite toInt32_inject_Z by lia. lia.
Qed.

Lemma fire_at (cfg : Config) (t : Task) (count : Z) (s : Sheet)
  (l r : list Task) :
  pending s = l ++ t :: r ->
  fire cfg (length l) count s = run_task cfg t count (set_pending (l ++ r) s).
Proof.
  intro H. unfold fire. rewrite H.
  assert (nth_error (l ++ t :: r) (length l) = Some t) as ->.
  { rewrite nth_error_app2 by lia. rewrite Nat.sub_diag. reflexivity. }
  assert (remove_nth (length l) (l ++ t :: r) = l ++ r) as ->.
  { clear H. induction l as [|a l IH]; simpl; [reflexivity | now rewrite IH]. }
  reflexivity.
Qed.

(** A task that leaves [isOpen] as the watcher last saw it does not wake
    the watcher. *)
Lemma task_quiet (opts : InputOptions) (sheetEl : nat)
  (f : Z -> Sheet -> Z * Sheet) (c : Z) (w : Watched) :
  isOpen (snd (f c (sheet (inst w)))) = seenOpen w ->
  task opts sheetEl f (c, w)
  = (fst (f c (sheet (inst w))),
     mkWatched (with_sheet (fun _ => snd (f c (sheet (inst w)))) (inst w))
       (seenOpen w) (lastFocused w)).
Proof.
  intro H. unfold task, lift, flushWatch. cbn [fst snd inst seenOpen].
  destruct (f c (sheet (inst w))) as [c1 s1] eqn:E. cbn [fst snd] in *.
  gesture_fields. cbn [inst seenOpen lastFocused].
  rewrite H, Bool.eqb_reflx. reflexivity.
Qed.

Lemma frames_step (cfg : Config) (opts : InputOptions) (sheetEl : nat)
  (n : nat) (c : Z) (w : Watched) (l r : list Task) (t : Task) :
  pending (sheet (inst w)) = l ++ t :: r ->
  isOpen (snd (run_task cfg t c (set_pending (l ++ r) (sheet (inst w)))))
  = seenOpen w ->
  frames cfg opts sheetEl (S n) (length l) (c, w)
  = frames cfg opts sheetEl n (length l)
      (fst (run_task cfg t c (set_pending (l ++ r) (sheet (inst w)))),
       mkWatched
         (with_sheet
            (fun _ => snd (run_task cfg t c
                             (set_pending (l ++ r) (sheet (inst w)))))
            (inst w))
         (seenOpen w) (lastFocused w)).
Proof.
  intros Hp Ho. cbn [frames snd]. rewrite Hp, length_app. cbn [length].
  replace (length l <? length l + S (length r))%nat with true
    by (symmetry; apply Nat.ltb_lt; lia).
  rewrite task_quiet; rewrite (fire_at cfg t c _ l r Hp); [reflexivity|].
  exact Ho.
Qed.

Lemma frames_stop (cfg : Config) (opts : InputOptions) (sheetEl : nat)
  (n : nat) (c : Z) (w : Watched) :
  frames cfg opts sheetEl n (length (pending (sheet (inst w)))) (c, w)
  = (c, w).
Proof.
  destruct n; [reflexivity|]. cbn [frames snd].
  rewrite Nat.ltb_irrefl. reflexivity.
Qed.

Lemma snapToIndex_pending (index : Q) (animate : bool) (s : Sheet) :
  pending (snapToIndex index animate s) = pending s.
Proof. apply snapToIndex_fields. Qed.

Lemma snapToIndex_isOpen (index : Q) (animate : bool) (s : Sheet) :
  isOpen (snapToIndex index animate s) = isOpen s.
Proof. apply snapToIndex_fields. Qed.

Lemma snapToIndex_set_pending (l : list Task) (index : Q) (animate : bool)
  (s : Sheet) :
  set_pending l (snapToIndex index animate s)
  = snapToIndex index animate (set_pending l s).
Proof.
  unfold snapToIndex, snapTo. sheet_fields.
  change (snaps (set_pending l s)) with (snaps s).
  change (offsetHeight_or 0 (set_pending l s)) with (offsetHeight_or 0 s).
  destruct (negb animate || reduceMotion s); reflexivity.
Qed.

Lemma frames_done (cfg : Config) (opts : InputOptions) (sheetEl : nat)
  (n k : nat) (c : Z) (w : Watched) :
  length (pending (sheet (inst w))) = k ->
  frames cfg opts sheetEl n k (c, w) = (c, w).
Proof. intros <-. apply frames_stop. Qed.

Lemma performOpenAnimation_isOpen (cfg : Config) (s : Sheet) :
  isOpen (performOpenAnimation cfg s) = isOpen s.
Proof.
  unfold performOpenAnimation. destruct (sheetHeight s); [|reflexivity].
  destruct (openAnimation cfg); rewrite ?snapToIndex_isOpen; reflexivity.
Qed.

Ltac frame l t r :=
  match goal with
  | |- context [frames ?cfg ?opts ?el (S ?n) _ (?c, ?w)] =>
      rewrite (frames_step cfg opts el n c w l r t)
  end.

Ltac frame_side :=
  cbn [inst seenOpen lastFocused run_task fst snd]; gesture_fields;
  rewrite ?performOpenAnimation_isOpen;
  rewrite ?snapToIndex_pending, ?snapToIndex_isOpen; sheet_fields;
  rewrite ?app_nil_r; try reflexivity.

Ltac frames_end :=
  match goal with
  | |- context [frames ?cfg ?opts ?el ?n ?k (?c, ?w)] =>
      rewrite (frames_done cfg opts el n k c w)
  end.

(** [open()] as a task, followed by the watcher and the animation frames,
    on a mounted sheet: the state in which they leave the instance. *)
Lemma open_and_frames_eq (cfg : Config) (opts : InputOptions)
  (sheetEl : nat) (count : Z) (w : Watched) (h : Q) :
  sheetHeight (sheet (inst w)) = Some h ->
  let s := sheet (inst w) in
  let target := if rememberLastSnapIndex cfg then lastSnapIndexMem s
                else initialSnapIndex cfg in
  let a := match openAnimation cfg with noAnim => false | _ => true end in
  exists g1 lf,
    open_and_frames cfg opts sheetEl (count, w)
    = ((count + 1)%Z,
       mkWatched
         (with_sheet
            (fun _ =>
               if seenOpen w then snapToIndex target a (opening cfg count s)
               else
                 match openAnimation cfg with
                 | fromBottom =>
                     snapToIndex target true
                       (emit EvAfterOpen
                          (emit EvOpen
                             (opening cfg count
                                (set_activeElement (Some sheetEl) s))))
                 | _ =>
                     emit EvAfterOpen
                       (emit EvOpen
                          (snapToIndex target a
                             (opening cfg count
                                (set_activeElement (Some sheetEl) s))))
                 end) g1)
         true lf).
Proof.
  intros Hh s target a. unfold open_and_frames. cbn [snd]. fold s.
  assert (sheetHeight s = Some h) as Hh' by exact Hh.
  unfold opening.
  destruct (seenOpen w) eqn:Hseen.
  - rewrite task_quiet by (cbn [open snd]; sheet_fields; symmetry; exact Hseen).
    cbn [open fst snd]. fold s. rewrite Hseen.
    frame (pending s) TPerformOpen (@nil Task); [|frame_side..].
    frame_side. unfold performOpenAnimation. sheet_fields. rewrite Hh'.
    destruct (openAnimation cfg) eqn:Hm.
    + frame (pending s) (TSnapToIndex target) (@nil Task); [|frame_side..].
      frame_side. frames_end; [|frame_side].
      eexists. eexists. reflexivity.
    + frames_end; [|frame_side]. eexists. eexists. reflexivity.
    + frames_end; [|frame_side]. eexists. eexists. reflexivity.
  - unfold task, lift, flushWatch.
    cbn [open fst snd inst seenOpen lastFocused]. gesture_fields.
    fold s. rewrite Hseen, Hh'. cbn [Bool.eqb].
    match goal with
    | |- context [with_sheet (defer TOpened) ?g] => set (g2 := g)
    end.
    assert (sheet g2
            = set_activeElement (Some sheetEl)
                (defer TPerformOpen
                   (set_stackIndex (Some (count + 1)%Z) (set_isOpen true s))))
      as Hg2.
    { unfold g2. gesture_fields.
      repeat match goal with
             | |- context [match ?x with _ => _ end] => destruct x
             end; reflexivity. }
    clearbody g2.
    frame (pending s) TPerformOpen [TOpened].
    2,3: frame_side; rewrite ?Hg2; sheet_fields; rewrite <- ?app_assoc;
      reflexivity.
    frame_side. rewrite Hg2. unfold performOpenAnimation. sheet_fields.
    rewrite Hh'.
    destruct (openAnimation cfg) eqn:Hm.
    + frame (pending s) TOpened [TSnapToIndex target].
      2,3: frame_side; rewrite <- ?app_assoc; reflexivity.
      frame_side.
      frame (pending s) (TSnapToIndex target) (@nil Task);
        [|frame_side..].
      frame_side. frames_end; [|frame_side].
      exists g2. eexists. reflexivity.
    + frame (pending s) TOpened (@nil Task); [|frame_side..].
      frame_side. frames_end; [|frame_side].
      rewrite snapToIndex_set_pending.
      exists g2. eexists. reflexivity.
    + frame (pending s) TOpened (@nil Task); [|frame_side..].
      frame_side. frames_end; [|frame_side].
      rewrite snapToIndex_set_pending.
      exists g2. eexists. reflexivity.
Qed.

Lemma snapToIndex_on (target : Q) (a : bool) (x s : Sheet) :
  snapPointsRef x = snapPointsRef s -> sheetHeight x = sheetHeight s ->
  let i := clampIndex (snaps s) target in
  let p := nth (Z.to_nat i) (snaps s) 0 in
  events (snapToIndex target a x) = events x ++ [EvSnap i p]
  /\ translateY (snapToIndex target a x) = clamp01 p * offsetHeight_or 0 s
  /\ lastSnapIndexMem (snapToIndex target a x) = inject_Z i
  /\ isOpen (snapToIndex target a x) = isOpen x
  /\ stackIndex (snapToIndex target a x) = stackIndex x
  /\ pending (snapToIndex target a x) = pending x.
Proof.
  intros Hsn Hh i p.
  destruct (snapToIndex_fields target a x) as (E1 & E2 & E3 & _ & _ & E6 & E7).
  destruct (snapToIndex_rest target a x) as (R1 & _).
  assert (snaps x = snaps s) as Hs by (unfold snaps; rewrite Hsn; reflexivity).
  assert (offsetHeight_or 0 x = offsetHeight_or 0 s) as Ho
    by (unfold offsetHeight_or; rewrite Hh; reflexivity).
  rewrite Hs, ?Ho in *. repeat split; assumption.
Qed.

(** The state in which [open], the watcher and the animation frames leave
    a mounted sheet. *)
Lemma open_and_frames_fields (cfg : Config) (opts : InputOptions)
  (sheetEl : nat) (count : Z) (w : Watched) (h : Q) :
  sheetHeight (sheet (inst w)) = Some h ->
  let s := sheet (inst w) in
  let target := if rememberLastSnapIndex cfg then lastSnapIndexMem s
                else initialSnapIndex cfg in
  let i := clampIndex (snaps s) target in
  let p := nth (Z.to_nat i) (snaps s) 0 in
  let final := open_and_frames cfg opts sheetEl (count, w) in
  let s1 := sheet (inst (snd final)) in
  fst final = (count + 1)%Z
  /\ seenOpen (snd final) = true
  /\ isOpen s1 = true
  /\ stackIndex s1 = Some (count + 1)%Z
  /\ (0 <= i < Z.of_nat (length (snaps s)))%Z
  /\ translateY s1 = clamp01 p * offsetHeight_or 0 s
  /\ lastSnapIndexMem s1 = inject_Z i
  /\ events s1
     = events s
       ++ (if seenOpen w then [EvSnap i p]
           else match openAnimation cfg with
                | fromBottom => [EvOpen; EvAfterOpen; EvSnap i p]
                | _ => [EvSnap i p; EvOpen; EvAfterOpen]
                end)
  /\ pending s1 = pending s
  /\ sheetHeight s1 = Some h
  /\ snapPointsRef s1 = snapPointsRef s.
Proof.
  intros Hh s target i p final s1.
  destruct (open_and_frames_eq cfg opts sheetEl count w h Hh)
    as (g1 & lf & E).
  fold s in E. fold target in E.
  unfold s1, final. rewrite E. clear E. cbn [fst snd inst seenOpen].
  gesture_fields.
  assert (0 <= i < Z.of_nat (length (snaps s)))%Z as Hi
    by apply clampIndex_in_range, snaps_of_nonempty.
  assert (forall a x,
            snapPointsRef x = snapPointsRef s -> sheetHeight x = Some h ->
            events (snapToIndex target a x) = events x ++ [EvSnap i p]
            /\ translateY (snapToIndex target a x)
               = clamp01 p * offsetHeight_or 0 s
            /\ lastSnapIndexMem (snapToIndex target a x) = inject_Z i
            /\ isOpen (snapToIndex target a x) = isOpen x
            /\ stackIndex (snapToIndex target a x) = stackIndex x
            /\ pending (snapToIndex target a x) = pending x
            /\ sheetHeight (snapToIndex target a x) = Some h
            /\ snapPointsRef (snapToIndex target a x) = snapPointsRef s)
    as Hon.
  { intros a x Hsn Hx.
    destruct (snapToIndex_on target a x s Hsn) as (E1 & E2 & E3 & E4 & E5 & E6);
      [rewrite Hx; symmetry; exact Hh|].
    destruct (snapToIndex_fields target a x) as (_ & _ & _ & F4 & F5 & _).
    repeat split; try assumption; [rewrite F4; exact Hx | rewrite F5; exact Hsn]. }
  split; [reflexivity|]. split; [reflexivity|].
  destruct (seenOpen w).
  - destruct (Hon (match openAnimation cfg with noAnim => false | _ => true end)
                (opening cfg count s))
      as (E1 & E2 & E3 & E4 & E5 & E6 & E7 & E8);
      [unfold opening; destruct (openAnimation cfg); reflexivity
      |unfold opening; destruct (openAnimation cfg); exact Hh|].
    rewrite E1, E2, E3, E4, E5, E6, E7, E8.
    unfold opening. destruct (openAnimation cfg); repeat split; apply Hi.
  - destruct (openAnimation cfg) eqn:Hm.
    + destruct (Hon true
                  (emit EvAfterOpen
                     (emit EvOpen
                        (opening cfg count
                           (set_activeElement (Some sheetEl) s)))))
        as (E1 & E2 & E3 & E4 & E5 & E6 & E7 & E8);
        [unfold opening; rewrite Hm; reflexivity
        |unfold opening; rewrite Hm; exact Hh|].
      rewrite E1, E2, E3, E4, E5, E6, E7, E8.
      unfold opening. rewrite Hm. sheet_fields.
      rewrite <- !app_assoc. repeat split; apply Hi.
    + destruct (Hon true
                  (opening cfg count (set_activeElement (Some sheetEl) s)))
        as (E1 & E2 & E3 & E4 & E5 & E6 & E7 & E8);
        [unfold opening; rewrite Hm; reflexivity
        |unfold opening; rewrite Hm; exact Hh|].
      sheet_fields. rewrite E1, E2, E3, E4, E5, E6, E7, E8.
      unfold opening. rewrite Hm. sheet_fields.
      rewrite <- !app_assoc. repeat split; apply Hi.
    + destruct (Hon false
                  (opening cfg count (set_activeElement (Some sheetEl) s)))
        as (E1 & E2 & E3 & E4 & E5 & E6 & E7 & E8);
        [unfold opening; rewrite Hm; reflexivity
        |unfold opening; rewrite Hm; exact Hh|].
      sheet_fields. rewrite E1, E2, E3, E4, E5, E6, E7, E8.
      unfold opening. rewrite Hm. sheet_fields.
      rewrite <- !app_assoc. repeat split; apply Hi.
Qed.

(** X8.  [open()] on a mounted sheet, followed by the watcher of [isOpen]
    and the animation frames: the sheet is open, holds the stack index
    [STACK_COUNT + 1], and rests at the snap point of the remembered index
    (or of [initialSnapIndex] when [rememberLastSnapIndex] is off), clamped
    into the snap set, whatever the [openAnimation] mode.  One [snap] event
    reports that index.  When the watcher last ran for a closed sheet it
    runs again and its frame emits [open] and [afterOpen]: before the
    [snap] event in the mode [fromBottom], whose snap waits for a second
    frame, and after it in the other modes. *)
Theorem open_settles_at_remembered_snap
  (cfg : Config) (opts : InputOptions) (sheetEl : nat) (count : Z)
  (w : Watched) (h : Q) :
  sheetHeight (sheet (inst w)) = Some h ->
  let s := sheet (inst w) in
  let target := if rememberLastSnapIndex cfg then lastSnapIndexMem s
                else initialSnapIndex cfg in
  let i := clampIndex (snaps s) target in
  let p := nth (Z.to_nat i) (snaps s) 0 in
  let final := open_and_frames cfg opts sheetEl (count, w) in
  let s1 := sheet (inst (snd final)) in
  fst final = (count + 1)%Z
  /\ seenOpen (snd final) = true
  /\ isOpen s1 = true
  /\ stackIndex s1 = Some (count + 1)%Z
  /\ (0 <= i < Z.of_nat (length (snaps s)))%Z
  /\ translateY s1 = clamp01 p * offsetHeight_or 0 s
  /\ lastSnapIndexMem s1 = inject_Z i
  /\ events s1
     = events s
       ++ (if seenOpen w then [EvSnap i p]
           else match openAnimation cfg with
                | fromBottom => [EvOpen; EvAfterOpen; EvSnap i p]
                | _ => [EvSnap i p; EvOpen; EvAfterOpen]
                end)
  /\ pending s1 = pending s.
Proof.
  intros Hh s target i p final s1.
  destruct (open_and_frames_fields cfg opts sheetEl count w h Hh)
    as (H1 & H2 & H3 & H4 & H5 & H6 & H7 & H8 & H9 & _).
  repeat split; try assumption; apply H5.
Qed.

(** A closed 400px sheet that last rested at index 1, opened with the
    default options. *)
Lemma open_settles_at_remembered_snap_witness :
  sheetHeight (sheet (inst (watching closed400 false))) = Some 400
  /\ translateY
       (sheet (inst (snd (open_and_frames defaultConfig defaultInput 9
                            (0%Z, watching closed400 false)))))
     = clamp01 (1 # 2) * offsetHeight_or 0 closed400
  /\ events
       (sheet (inst (snd (open_and_frames defaultConfig defaultInput 9
                            (0%Z, watching closed400 false)))))
     = [EvOpen; EvAfterOpen; EvSnap 1 (1 # 2)].
Proof.
  pose proof (open_settles_at_remembered_snap defaultConfig defaultInput 9 0
                (watching closed400 false) 400 eq_refl) as H.
  cbv zeta in H. destruct H as (_ & _ & _ & _ & _ & Ht & _ & He & _).
  split; [reflexivity|]. split; [exact Ht | exact He].
Defined.

(** X9.  With [rememberLastSnapIndex] on, closing a mounted sheet and
    opening it again, each call a task of its own, brings it back to the
    snap index it was last sent to: the offset after the open animation is
    the offset [snapToIndex] had set, and the [snap] event of the reopening
    repeats the index and value.  The watcher has seen the sheet close, so
    the reopening also emits [open] and [afterOpen]: before its [snap]
    event in the mode [fromBottom], after it in the other modes. *)
Theorem reopen_restores_snap
  (cfg : Config) (opts : InputOptions) (sheetEl : nat) (index : Q)
  (animate : bool) (reason : CloseReason) (count : Z) (w : Watched) (h : Q) :
  rememberLastSnapIndex cfg = true ->
  sheetHeight (sheet (inst w)) = Some h ->
  seenOpen w = isOpen (sheet (inst w)) ->
  (Z.of_nat (length (snaps (sheet (inst w)))) <= 2 ^ 31)%Z ->
  let s := sheet (inst w) in
  let i := clampIndex (snaps s) index in
  let p := nth (Z.to_nat i) (snaps s) 0 in
  let st1 := task opts sheetEl
               (fun c x => (c, snapToIndex index animate x)) (count, w) in
  let st2 := task opts sheetEl (close reason) st1 in
  let final := open_and_frames cfg opts sheetEl st2 in
  let s1 := sheet (inst (snd final)) in
  isOpen s1 = true
  /\ translateY s1 = translateY (sheet (inst (snd st1)))
  /\ lastSnapIndexMem s1 = inject_Z i
  /\ events s1
     = events s
       ++ [EvSnap i p; EvClose reason]
       ++ match openAnimation cfg with
          | fromBottom => [EvOpen; EvAfterOpen; EvSnap i p]
          | _ => [EvSnap i p; EvOpen; EvAfterOpen]
          end
  /\ pending s1 = pending s.
Proof.
  intros Hrem Hh Hsync Hlen s i p st1 st2 final s1.
  change (Z.of_nat (length (snaps s)) <= 2 ^ 31)%Z in Hlen.
  destruct (snapToIndex_fields index animate s)
    as (E1 & E2 & E3 & E4 & E5 & E6 & E7).
  fold i in E1, E2, E3. fold p in E1, E3.
  assert (0 <= i < Z.of_nat (length (snaps s)))%Z as Hi
    by apply clampIndex_in_range, snaps_of_nonempty.
  assert (st1 = (count,
                 mkWatched (with_sheet (fun _ => snapToIndex index animate s)
                              (inst w))
                   (seenOpen w) (lastFocused w))) as H1.
  { unfold st1. rewrite task_quiet; [reflexivity|].
    cbn [snd]. fold s. rewrite E6. symmetry. exact Hsync. }
  set (x := snapToIndex index animate s) in *.
  assert (exists g2,
            st2 = (fst (close reason count x),
                   mkWatched g2 false (if seenOpen w then None
                                       else lastFocused w))
            /\ (sheet g2 = snd (close reason count x)
                \/ exists el, sheet g2
                              = set_activeElement (Some el)
                                  (snd (close reason count x))))
    as (g2 & H2 & Hg2).
  { unfold st2. rewrite H1. unfold task, lift, flushWatch.
    cbn [fst snd inst seenOpen lastFocused]. gesture_fields.
    rewrite close_eq. cbn [fst snd]. sheet_fields.
    destruct (seenOpen w); cbn [Bool.eqb].
    - destruct (lastFocused w) as [el|]; eexists; (split; [reflexivity|]);
        gesture_fields; [right; exists el; reflexivity | left; reflexivity].
    - eexists. split; [reflexivity|]. gesture_fields. left. reflexivity. }
  assert (sheetHeight (sheet g2) = Some h
          /\ snapPointsRef (sheet g2) = snapPointsRef s
          /\ lastSnapIndexMem (sheet g2) = inject_Z i
          /\ events (sheet g2) = events s ++ [EvSnap i p; EvClose reason]
          /\ pending (sheet g2) = pending s) as (G1 & G2 & G3 & G4 & G5).
  { destruct Hg2 as [->|[el ->]]; rewrite close_eq; sheet_fields;
      rewrite E1, E2, E4, E5, E7, <- app_assoc; repeat split; exact Hh. }
  pose proof (open_and_frames_fields cfg opts sheetEl
                (fst (close reason count x))
                (mkWatched g2 false (if seenOpen w then None
                                     else lastFocused w)) h G1) as H.
  cbv zeta in H. cbn [inst seenOpen] in H.
  assert (snaps (sheet g2) = snaps s) as Hsn
    by (unfold snaps; rewrite G2; reflexivity).
  assert (offsetHeight_or 0 (sheet g2) = offsetHeight_or 0 s) as Hoh
    by (unfold offsetHeight_or; rewrite G1; unfold s; rewrite Hh;
        reflexivity).
  rewrite Hrem, G3, G4, G5, Hsn, Hoh in H.
  rewrite clampIndex_Z in H by lia. fold p in H.
  unfold s1, final. rewrite H2.
  destruct H as (_ & _ & Ho & _ & _ & Ht & Hm & He & Hp & _).
  split; [exact Ho|]. split.
  { rewrite Ht, H1. cbn [snd inst]. gesture_fields. fold x.
    rewrite E3. reflexivity. }
  split; [exact Hm|]. split; [|exact Hp].
  rewrite He, <- app_assoc. reflexivity.
Qed.

Lemma reopen_restores_snap_witness :
  rememberLastSnapIndex defaultConfig = true
  /\ sheetHeight (sheet (inst (watching sheet400 true))) = Some 400
  /\ seenOpen (watching sheet400 true)
     = isOpen (sheet (inst (watching sheet400 true)))
  /\ (Z.of_nat (length (snaps sheet400)) <= 2 ^ 31)%Z
  /\ events
       (sheet
          (inst
             (snd
                (open_and_frames defaultConfig defaultInput 9
                   (task defaultInput 9 (close esc)
                      (task defaultInput 9
                         (fun c x => (c, snapToIndex 1 true x))
                         (1%Z, watching sheet400 true)))))))
     = [EvSnap 1 (1 # 2); EvClose esc; EvOpen; EvAfterOpen; EvSnap 1 (1 # 2)].
Proof.
  assert (Z.of_nat (length (snaps sheet400)) <= 2 ^ 31)%Z as Hlen
    by (vm_compute; discriminate).
  pose proof (reopen_restores_snap defaultConfig defaultInput 9 1 true esc 1
                (watching sheet400 true) 400 eq_refl eq_refl eq_refl Hlen)
    as H.
  cbv zeta in H. destruct H as (_ & _ & _ & He & _).
  split; [reflexivity|]. split; [reflexivity|]. split; [reflexivity|].
  split; [exact Hlen|]. exact He.
Defined.

(** X10.  [open] followed by [close] gives the stack index back: the counter
    is what it was (it is never negative), the sheet is closed and holds no
    index, and the offset and overdrag are reset. *)
Theorem open_close_restores_count
  (reason : CloseReason) (count : Z) (s : Sheet) :
  (0 <= count)%Z ->
  let o := open count s in
  let c := close reason (fst o) (snd o) in
  stackIndex (snd o) = Some (count + 1)%Z
  /\ fst c = count
  /\ isOpen (snd c) = false
  /\ stackIndex (snd c) = None
  /\ translateY (snd c) = 0 /\ overUp (snd c) = 0
  /\ events (snd c) = events s ++ [EvClose reason].
Proof.
  intros Hc o c. unfold c, o, open. cbv [fst snd]. rewrite close_eq.
  sheet_fields. repeat split. lia.
Qed.

Lemma open_close_restores_count_witness :
  (0 <= 3)%Z
  /\ fst (close history (fst (open 3 closed400)) (snd (open 3 closed400)))
     = 3%Z.
Proof.
  assert (0 <= 3)%Z as H0 by lia.
  destruct (open_close_restores_count history 3 closed400 H0) as (_ & H & _).
  split; [exact H0 | exact H].
Defined.

(** X11.  A confirmed close is the plain close: when [onBeforeClose]
    resolves to [true], [requestClose] changes nothing until the hook has
    settled, and the continuation then does exactly what [close(reason)]
    does. *)
Theorem requestClose_approved
  (cfg : Config) (hook : CloseReason -> HookOutcome)
  (reason : CloseReason) (count : Z) (s : Sheet) :
  onBeforeClose cfg = Some hook ->
  hook reason = HookResolves true ->
  let r := requestClose cfg reason count s in
  fst r = count
  /\ isOpen (snd r) = isOpen s
  /\ events (snd r) = events s
  /\ pending (snd r) = pending s ++ [TResumeClose reason (Some true)]
  /\ fire cfg (length (pending s)) (fst r) (snd r) = close reason count s.
Proof.
  intros Hhook Hok r. unfold r, requestClose. rewrite Hhook, Hok.
  cbv [fst snd]. repeat split. apply fire_deferred.
Qed.

Lemma requestClose_approved_witness :
  onBeforeClose approveAll = Some (fun _ => HookResolves true)
  /\ fire approveAll 0 (fst (requestClose approveAll backdrop 1 sheet400))
       (snd (requestClose approveAll backdrop 1 sheet400))
     = close backdrop 1 sheet400.
Proof.
  destruct (requestClose_approved approveAll (fun _ => HookResolves true)
              backdrop 1 sheet400 eq_refl eq_refl) as (_ & _ & _ & _ & H).
  split; [reflexivity | exact H].
Defined.

(** ** What every reachable state satisfies *)

Lemma offsetHeight_nonneg (d : Q) (s : Sheet) :
  0 <= d -> height_ok (sheetHeight s) -> 0 <= offsetHeight_or d s.
Proof.
  intros Hd Hh. unfold offsetHeight_or, height_ok, or_else in *.
  destruct (sheetHeight s) as [h|]; [|exact Hd].
  destruct (truthy h); assumption.
Qed.

Lemma sheet_ok_core (s s1 : Sheet) :
  same_core s s1 -> sheet_ok s -> sheet_ok s1.
Proof.
  intros (E1 & E2 & E3 & E4 & E5 & E6). unfold sheet_ok.
  rewrite E1, E2, E3, E4, E5, E6. exact (fun H => H).
Qed.

Lemma same_core_refl (s : Sheet) : same_core s s.
Proof. repeat split. Qed.

Lemma same_core_trans (s s1 s2 : Sheet) :
  same_core s s1 -> same_core s1 s2 -> same_core s s2.
Proof.
  intros (E1 & E2 & E3 & E4 & E5 & E6) (F1 & F2 & F3 & F4 & F5 & F6).
  unfold same_core. rewrite F1, F2, F3, F4, F5, F6. repeat split; assumption.
Qed.

Lemma ok_snapTo (progress : Q) (animate : bool) (s : Sheet) :
  sheet_ok s -> sheet_ok (snapTo progress animate s).
Proof.
  intros (Ht & Ho & Hs & Hi & Hh & Hp).
  pose proof (offsetHeight_nonneg 0 s ltac:(lra) Hh) as H0.
  pose proof (clamp01_range progress) as Hc.
  unfold snapTo. destruct (negb animate || reduceMotion s);
    (split; [sheet_fields; nra|]); repeat split; try assumption;
    try apply Ho; try apply Hs.
Qed.

Lemma ok_snapToIndex (index : Q) (animate : bool) (s : Sheet) :
  sheet_ok s -> sheet_ok (snapToIndex index animate s).
Proof.
  intro H. unfold snapToIndex.
  apply (sheet_ok_core (snapTo (nth (Z.to_nat (clampIndex (snaps s) index))
                                    (snaps s) 0) animate s));
    [repeat split | apply ok_snapTo, H].
Qed.

Lemma ok_close (reason : CloseReason) (count : Z) (s : Sheet) :
  (0 <= count)%Z -> sheet_ok s ->
  (0 <= fst (close reason count s))%Z /\ sheet_ok (snd (close reason count s)).
Proof.
  intros Hc (Ht & Ho & Hs & Hi & Hh & Hp). rewrite close_eq. split.
  - cbv [fst]. destruct (stackIndex s); lia.
  - cbv [snd]. unfold sheet_ok. sheet_fields.
    split; [lra|]. split; [lra|]. split; [split; [discriminate | congruence]|].
    split; [discriminate|]. split; assumption.
Qed.

Lemma ok_open (count : Z) (s : Sheet) :
  (0 <= count)%Z -> sheet_ok s ->
  (0 <= fst (open count s))%Z /\ sheet_ok (snd (open count s)).
Proof.
  intros Hc (Ht & Ho & Hs & Hi & Hh & Hp). unfold open. split.
  - cbv [fst]. lia.
  - cbv [snd]. unfold sheet_ok. sheet_fields.
    split; [exact Ht|]. split; [exact Ho|].
    split; [split; [discriminate | reflexivity]|].
    split; [intros i E; injection E as <-; lia|]. split; [exact Hh|].
    apply Forall_app. split; [exact Hp | repeat constructor].
Qed.

Lemma ok_defer (t : Task) (s : Sheet) :
  task_ok t -> sheet_ok s -> sheet_ok (defer t s).
Proof.
  intros Hk (Ht & Ho & Hs & Hi & Hh & Hp). unfold sheet_ok. sheet_fields.
  repeat split; try assumption; try apply Ho; try apply Hs.
  apply Forall_app. split; [exact Hp | repeat constructor; exact Hk].
Qed.

Lemma ok_closeAnimated (cfg : Config) (reason : CloseReason) (s : Sheet) :
  config_ok cfg -> sheet_ok s -> sheet_ok (closeAnimated cfg reason s).
Proof.
  intros (_ & _ & _ & He) H. unfold closeAnimated.
  destruct (negb (isOpen s)); [exact H|].
  apply ok_defer.
  - cbn [task_ok]. destruct H as (_ & _ & _ & _ & Hh & _).
    pose proof (offsetHeight_nonneg 0 s ltac:(lra) Hh). lra.
  - apply (sheet_ok_core s); [repeat split | exact H].
Qed.

Lemma ok_requestClose (cfg : Config) (reason : CloseReason) (count : Z)
  (s : Sheet) :
  (0 <= count)%Z -> sheet_ok s ->
  (0 <= fst (requestClose cfg reason count s))%Z
  /\ sheet_ok (snd (requestClose cfg reason count s)).
Proof.
  intros Hc H. unfold requestClose.
  destruct (onBeforeClose cfg) as [hook|]; [|apply ok_close; assumption].
  destruct (hook reason); cbv [fst snd]; (split; [exact Hc|]);
    [exact H | apply ok_defer; [exact I | exact H] ..].
Qed.

Lemma ok_performOpenAnimation (cfg : Config) (s : Sheet) :
  config_ok cfg -> sheet_ok s -> sheet_ok (performOpenAnimation cfg s).
Proof.
  intros (_ & _ & _ & He) H. unfold performOpenAnimation.
  destruct (sheetHeight s) eqn:Eh; [|exact H].
  destruct (openAnimation cfg); try apply ok_snapToIndex, H.
  apply ok_defer; [exact I|].
  destruct H as (Ht & Ho & Hs & Hi & Hh & Hp).
  pose proof (offsetHeight_nonneg 0 s ltac:(lra) Hh) as H0.
  unfold sheet_ok. sheet_fields.
  split; [lra|]. repeat split; try assumption; try apply Ho; try apply Hs.
Qed.

Lemma ok_run_task (cfg : Config) (t : Task) (count : Z) (s : Sheet) :
  config_ok cfg -> task_ok t -> (0 <= count)%Z -> sheet_ok s ->
  (0 <= fst (run_task cfg t count s))%Z
  /\ sheet_ok (snd (run_task cfg t count s)).
Proof.
  intros Hcfg Hk Hc H. destruct t as [|index|h reason|reason|reason ok|];
    cbn [run_task].
  - split; [exact Hc | apply ok_performOpenAnimation; assumption].
  - split; [exact Hc | apply ok_snapToIndex, H].
  - split; [exact Hc|]. apply ok_defer; [exact I|].
    destruct H as (Ht & Ho & Hs & Hi & Hh & Hp). cbn [task_ok] in Hk.
    unfold sheet_ok. sheet_fields.
    repeat split; try assumption; try apply Ho; try apply Hs.
  - apply ok_close; [exact Hc|].
    apply (sheet_ok_core s); [repeat split | exact H].
  - destruct ok as [[|]|]; try (split; assumption).
    apply ok_close; assumption.
  - split; [exact Hc|].
    apply (sheet_ok_core s); [repeat split | exact H].
Qed.

Lemma Forall_remove_nth {A : Type} (P : A -> Prop) (l : list A) (k : nat) :
  Forall P l -> Forall P (remove_nth k l).
Proof.
  revert k. induction l as [|a r IH]; intros k H; [destruct k; constructor|].
  inversion H; subst. destruct k; cbn [remove_nth]; [assumption|].
  constructor; [assumption | apply IH; assumption].
Qed.

Lemma ok_fire (cfg : Config) (k : nat) (count : Z) (s : Sheet) :
  config_ok cfg -> (0 <= count)%Z -> sheet_ok s ->
  (0 <= fst (fire cfg k count s))%Z /\ sheet_ok (snd (fire cfg k count s)).
Proof.
  intros Hcfg Hc H. unfold fire.
  destruct (nth_error (pending s) k) as [t|] eqn:E; [|split; assumption].
  destruct H as (Ht & Ho & Hs & Hi & Hh & Hp).
  apply ok_run_task; [exact Hcfg | | exact Hc |].
  - rewrite Forall_forall in Hp. apply Hp. eapply nth_error_In, E.
  - unfold sheet_ok. sheet_fields.
    repeat split; try assumption; try apply Ho; try apply Hs.
    apply Forall_remove_nth, Hp.
Qed.

Lemma ok_cleanupGesture (s : Sheet) :
  sheet_ok s -> sheet_ok (cleanupGesture s).
Proof.
  intros (Ht & Ho & Hs & Hi & Hh & Hp). unfold sheet_ok. sheet_fields.
  split; [exact Ht|]. split; [lra|].
  repeat split; try assumption; try apply Hs.
Qed.

Lemma ok_emit (e : Event) (s : Sheet) : sheet_ok s -> sheet_ok (emit e s).
Proof.
  apply sheet_ok_core. repeat split.
Qed.

Lemma ok_release (s : Sheet) :
  sheet_ok s -> sheet_ok (set_overUp 0 (set_dragging false s)).
Proof.
  intros (Ht & Ho & Hs & Hi & Hh & Hp). unfold sheet_ok. sheet_fields.
  split; [exact Ht|]. split; [lra|].
  repeat split; try assumption; try apply Hs.
Qed.

Lemma ok_endDrag (cfg : Config) (s : Sheet) :
  config_ok cfg -> sheet_ok s -> sheet_ok (endDrag cfg s).
Proof.
  intros Hcfg H. unfold endDrag. destruct (negb (dragging s)); [exact H|].
  pose proof (ok_release s H) as H0.
  set (s0 := set_overUp 0 (set_dragging false s)) in *.
  destruct (_ && _).
  - apply ok_cleanupGesture, ok_closeAnimated; assumption.
  - destruct (Qltb _ _).
    + apply ok_cleanupGesture, ok_emit, ok_closeAnimated; assumption.
    + destruct (nearest_scan _ _ _ _) as [[nearest dmin] ni].
      destruct (Qle_bool _ _).
      * apply ok_cleanupGesture, ok_emit, ok_closeAnimated; assumption.
      * apply ok_cleanupGesture, ok_emit, ok_emit, ok_snapTo.
        apply (sheet_ok_core s0); [repeat split | exact H0].
Qed.

Lemma ok_startDrag (y now : Q) (s : Sheet) :
  sheet_ok s -> sheet_ok (startDrag y now s).
Proof.
  apply sheet_ok_core. repeat split.
Qed.

Lemma ok_moveDrag (cfg : Config) (y now : Q) (s : Sheet) :
  config_ok cfg -> sheet_ok s -> sheet_ok (moveDrag cfg y now s).
Proof.
  intros (Hu & Hd & Hdamp & _) H.
  destruct (dragging s) eqn:Edrag;
    [|unfold moveDrag; rewrite Edrag; exact H].
  destruct (moveDrag_fields cfg y now s Edrag) as (Et & Eo & Eop & Ep).
  destruct H as (Ht & Ho & Hs & Hi & Hh & Hp).
  assert (stackIndex (moveDrag cfg y now s) = stackIndex s
          /\ sheetHeight (moveDrag cfg y now s) = sheetHeight s) as [Es Eh].
  { unfold moveDrag. rewrite Edrag. cbv [negb].
    destruct (rubberBand _ _ _). split; reflexivity. }
  unfold sheet_ok. rewrite Et, Eo, Eop, Ep, Es, Eh.
  split; [apply Q.le_max_l|]. split.
  - destruct (Qlt_le_dec (y - startY s) 0) as [Hup|Hdown].
    + apply (rubberBand_up cfg _ _ Hdamp Hup).
    + destruct (rubberBand_down cfg (offsetHeight_or 0 s) _ Hdamp Hd Hdown)
        as (-> & _). lra.
  - repeat split; try assumption; apply Hs.
Qed.

Lemma ok_focusTrapKeydown (cfg : Config) (e : KeyEvent) (count : Z)
  (s : Sheet) :
  (0 <= count)%Z -> sheet_ok s ->
  (0 <= fst (fst (focusTrapKeydown cfg e count s)))%Z
  /\ sheet_ok (snd (fst (focusTrapKeydown cfg e count s))).
Proof.
  intros Hc H. unfold focusTrapKeydown.
  destruct (isOpen s); [|split; assumption].
  destruct (sheetHeight s) eqn:Eh; [|split; assumption].
  destruct (run e (keydown s)) as [[[handled R] e1] tr].
  assert (sheet_ok (set_keydown R s)) as H1
    by (apply (sheet_ok_core s); [repeat split | exact H]).
  set (s1 := set_keydown R s) in *.
  destruct handled; [split; assumption|].
  destruct (key e1); cbv [fst snd];
    try (split; [exact Hc | apply ok_snapToIndex, H1]);
    try (split; assumption).
  - destruct (trapFocus cfg); [|split; assumption].
    destruct (focusables s1) as [|first rest]; [split; assumption|].
    destruct (shiftKey e1).
    + destruct (_ || _); cbv [fst snd]; (split; [exact Hc|]);
        [apply (sheet_ok_core s1); [repeat split | exact H1] | exact H1].
    + match goal with |- context [if ?b then _ else _] => destruct b end;
        cbv [fst snd]; (split; [exact Hc|]);
        [apply (sheet_ok_core s1); [repeat split | exact H1] | exact H1].
  - destruct (closeOnEsc cfg); [|split; assumption].
    pose proof (ok_requestClose cfg esc count s1 Hc H1) as Hr.
    destruct (requestClose cfg esc count s1) as [c2 s2]. exact Hr.
Qed.

Lemma ok_setSnapPoints (points : list Q) (toIndex : option Q) (s s1 : Sheet) :
  setSnapPoints points toIndex s = Some s1 -> sheet_ok s -> sheet_ok s1.
Proof.
  intros E H. unfold setSnapPoints in E.
  destruct points as [|a r]; [injection E as <-; exact H|].
  assert (sheet_ok (set_snapPointsRef (uniqSorted (a :: r)) s)) as H1
    by (apply (sheet_ok_core s); [repeat split | exact H]).
  destruct toIndex as [t|]; [|injection E as <-; exact H1].
  destruct (Qeq_bool _ _); [|discriminate E]. injection E as <-.
  match goal with
  | |- sheet_ok (set_lastSnapIndexMem ?i (snapTo ?p ?a ?x)) =>
      apply (sheet_ok_core (snapTo p a x)); [repeat split | apply ok_snapTo, H1]
  end.
Qed.

Lemma ok_toggle (cfg : Config) (force : option bool) (count : Z) (s : Sheet) :
  (0 <= count)%Z -> sheet_ok s ->
  (0 <= fst (toggle cfg force count s))%Z
  /\ sheet_ok (snd (toggle cfg force count s)).
Proof.
  intros Hc H. unfold toggle.
  destruct (match force with Some b => b | None => negb (isOpen s) end);
    [apply ok_open | apply ok_requestClose]; assumption.
Qed.

Lemma core_evaluateAxisLock (opts : InputOptions) (angleDeg : Q -> Q -> Q)
  (x y now : Q) (g : Gesture) :
  same_core (sheet g) (sheet (evaluateAxisLock opts angleDeg x y now g)).
Proof.
  unfold evaluateAxisLock.
  destruct (_ || _); [apply same_core_refl|].
  destruct (_ && _); [apply same_core_refl|].
  destruct (Qle_bool _ _); [|repeat split].
  destruct (inScroll (sheet g)); [|repeat split].
  destruct (originScrollEl g); [|repeat split].
  destruct (_ || _); repeat split.
Qed.

Lemma core_primeDragContext (opts : InputOptions) (found : option nat)
  (g : Gesture) :
  same_core (sheet g) (sheet (primeDragContextFromTarget opts found g)).
Proof.
  unfold primeDragContextFromTarget.
  set (g0 := set_origin None 0 false false
               (with_sheet (set_inScroll false) g)).
  assert (forall g1 scrollEl,
             same_core (sheet g) (sheet g1) ->
             same_core (sheet g)
               (sheet (match scrollEl with
                       | Some el =>
                           if isScrollable (dom g1 el)
                           then set_origin (Some el) (scrollTop (dom g1 el))
                                  (atTop (dom g1 el)) (atBottom (dom g1 el))
                                  (with_sheet (set_inScroll true) g1)
                           else g1
                       | None => g1
                       end))) as Hfin.
  { intros g1 scrollEl Hg1. destruct scrollEl as [el|]; [|exact Hg1].
    destruct (isScrollable _); [|exact Hg1].
    apply (same_core_trans _ (sheet g1)); [exact Hg1 | repeat split]. }
  assert (same_core (sheet g) (sheet g0)) as H0 by repeat split.
  destruct (scrollAreaRef g0) as [el|]; [apply (Hfin g0 (Some el)), H0|].
  destruct (_ && _); [|apply (Hfin g0 found), H0].
  destruct (bsScroll g0) as [el|]; [|apply (Hfin g0 found), H0].
  apply (Hfin (set_scrollAreaRef (Some el) g0) (Some el)). repeat split.
Qed.

Lemma ok_maybeHandleDoubleTap (opts : InputOptions) (y now : Q) (g : Gesture) :
  sheet_ok (sheet g) -> sheet_ok (sheet (maybeHandleDoubleTap opts y now g)).
Proof.
  intro H. unfold maybeHandleDoubleTap.
  destruct (negb (enableDoubleTapToMax opts)); [exact H|].
  destruct (_ && _); [|exact H].
  gesture_fields. apply ok_snapToIndex, H.
Qed.

(** The common tail of the three press handlers. *)
Lemma ok_press (opts : InputOptions) (found : option nat) (y now : Q)
  (g g1 : Gesture) :
  same_core (sheet g) (sheet g1) -> sheet_ok (sheet g) ->
  sheet_ok (sheet (maybeHandleDoubleTap opts y now
                     (primeDragContextFromTarget opts found g1))).
Proof.
  intros Hcore H. apply ok_maybeHandleDoubleTap.
  apply (sheet_ok_core (sheet g1));
    [apply core_primeDragContext | apply (sheet_ok_core (sheet g)); assumption].
Qed.

Lemma ok_onPointerDown (opts : InputOptions) (e : PointerEv) (now : Q)
  (g : Gesture) :
  sheet_ok (sheet g) -> sheet_ok (sheet (onPointerDown opts e now g)).
Proof.
  intro H. unfold onPointerDown.
  destruct (negb (isOpen (sheet g))); [exact H|].
  destruct (_ && _); [exact H|].
  destruct (desktopBlocked opts g); [exact H|].
  destruct (negb (canStart e)); [exact H|].
  apply (ok_press opts _ _ _ g); [repeat split | exact H].
Qed.

Lemma ok_onMouseDown (opts : InputOptions) (e : PointerEv) (now : Q)
  (g : Gesture) :
  sheet_ok (sheet g) -> sheet_ok (sheet (onMouseDown opts e now g)).
Proof.
  intro H. unfold onMouseDown.
  destruct (negb (isOpen (sheet g))); [exact H|].
  destruct (negb (Z.eqb _ _)); [exact H|].
  destruct (desktopBlocked opts g); [exact H|].
  destruct (negb (canStart e)); [exact H|].
  apply (ok_press opts _ _ _ g); [repeat split | exact H].
Qed.

Lemma ok_onTouchStart (opts : InputOptions) (e : TouchEv) (now : Q)
  (g : Gesture) :
  sheet_ok (sheet g) -> sheet_ok (sheet (onTouchStart opts e now g)).
Proof.
  intro H. unfold onTouchStart.
  destruct (_ || _); [exact H|].
  destruct (desktopBlocked opts g); [exact H|].
  destruct (negb (touchCanStart e)); [exact H|].
  apply (ok_press opts _ _ _ g); [repeat split | exact H].
Qed.

Lemma ok_axis_then_move (cfg : Config) (opts : InputOptions)
  (angleDeg : Q -> Q -> Q) (x y now : Q) (gate : Gesture -> bool)
  (g : Gesture) :
  config_ok cfg -> sheet_ok (sheet g) ->
  let g1 := if preDrag (sheet g)
            then evaluateAxisLock opts angleDeg x y now g else g in
  sheet_ok (sheet (if gate g1 then with_sheet (moveDrag cfg y now) g1 else g1)).
Proof.
  intros Hcfg H g1.
  assert (sheet_ok (sheet g1)) as H1.
  { unfold g1. destruct (preDrag (sheet g)); [|exact H].
    apply (sheet_ok_core (sheet g));
      [apply core_evaluateAxisLock | exact H]. }
  destruct (gate g1); [|exact H1].
  gesture_fields. apply ok_moveDrag; assumption.
Qed.

Lemma ok_endDragG (cfg : Config) (g : Gesture) :
  config_ok cfg -> sheet_ok (sheet g) -> sheet_ok (sheet (endDragG cfg g)).
Proof.
  intros Hcfg H. unfold endDragG.
  destruct (negb (dragging (sheet g))); [exact H|].
  gesture_fields. apply ok_endDrag; assumption.
Qed.

Lemma ok_onWheel (cfg : Config) (opts : InputOptions) (deltaY now : Q)
  (g : Gesture) :
  config_ok cfg -> sheet_ok (sheet g) ->
  sheet_ok (sheet (onWheel cfg opts deltaY now g)).
Proof.
  intros Hcfg H. unfold onWheel.
  destruct (_ || _); [exact H|].
  destruct (negb _); [exact H|].
  destruct (Qltb (now - lastWheelTs g) _); [exact H|].
  destruct (Qltb 0 deltaY).
  - gesture_fields. destruct (Qle_bool _ _);
      [apply ok_closeAnimated; [exact Hcfg|] |]; apply ok_snapToIndex, H.
  - destruct (Qltb deltaY 0); [|exact H].
    gesture_fields. apply ok_snapToIndex, H.
Qed.

Lemma ok_lift (f : Z -> Sheet -> Z * Sheet) (st : Z * Gesture) :
  (forall c s, (0 <= c)%Z -> sheet_ok s ->
               (0 <= fst (f c s))%Z /\ sheet_ok (snd (f c s))) ->
  state_ok st -> state_ok (lift f st).
Proof.
  intros Hf [Hc Hs]. unfold lift, state_ok.
  specialize (Hf (fst st) (sheet (snd st)) Hc Hs).
  destruct (f (fst st) (sheet (snd st))) as [c s]. exact Hf.
Qed.

(** Every operation and every input event keeps the invariant. *)
(** The velocity that [moveDrag] stores is the program's sample when the
    clock has advanced, and in every case but that of a downward move at a
    repeated clock value the fling test reads it as it reads the
    program's. *)
Lemma moveDrag_sample (cfg : Config) (y now : Q) (s : Sheet) :
  dragging s = true -> truthy (lastT s) = true ->
  let v := sampleJ y (lastY s) now (lastT s) in
  (~ now == lastT s -> v = Fin (vY (moveDrag cfg y now s)))
  /\ (v <> PosInf ->
      flingJ (flingVelocityPxPerMs cfg) v
      = Qltb (flingVelocityPxPerMs cfg) (Qabs (vY (moveDrag cfg y now s)))
        && Qltb 0 (vY (moveDrag cfg y now s))).
Proof.
  intros Hd Hl v.
  assert (vY (moveDrag cfg y now s) = (y - lastY s) / (now - lastT s)) as Hv.
  { unfold moveDrag. rewrite Hd, Hl. cbv [negb].
    destruct (rubberBand cfg (offsetHeight_or 0 s) (y - startY s));
      reflexivity. }
  rewrite Hv. unfold v, sampleJ.
  destruct (Qeq_bool now (lastT s)) eqn:E.
  - apply Qeq_bool_iff in E. split; [intro H; contradiction|].
    assert (Qltb 0 ((y - lastY s) / (now - lastT s)) = false) as H0.
    { apply Qltb_ge. unfold Qdiv.
      assert (now - lastT s == 0) as -> by (rewrite E; ring).
      assert (/ 0 == 0) as -> by reflexivity. lra. }
    rewrite H0, andb_false_r.
    destruct (Qltb 0 (y - lastY s)); [congruence|].
    destruct (Qltb (y - lastY s) 0); reflexivity.
  - split; reflexivity.
Qed.

Lemma ok_keepProgress (progress : Q) (s : Sheet) :
  sheet_ok s -> sheet_ok (keepProgress progress s).
Proof.
  intros (Ht & Ho & Hs & Hi & Hh & Hp).
  pose proof (offsetHeight_nonneg 1 s ltac:(lra) Hh) as H1.
  pose proof (clamp01_range progress) as Hc.
  unfold keepProgress, sheet_ok. sheet_fields.
  split; [nra|]. repeat split; try assumption; try apply Ho; try apply Hs.
Qed.

Lemma ok_onWindowResize (mobile : bool) (progress : Q) (g : Gesture) :
  sheet_ok (sheet g) -> sheet_ok (sheet (onWindowResize mobile progress g)).
Proof.
  intro H. unfold onWindowResize, set_media. gesture_fields.
  destruct (isOpen (sheet g)); [|exact H].
  destruct (sheetHeight (sheet g)); [|exact H].
  gesture_fields. apply ok_keepProgress, H.
Qed.

Lemma ok_flushWatch (opts : InputOptions) (sheetEl : nat) (w : Watched) :
  sheet_ok (sheet (inst w)) ->
  sheet_ok (sheet (inst (flushWatch opts sheetEl w))).
Proof.
  intro H. unfold flushWatch.
  destruct (Bool.eqb _ _); [exact H|].
  destruct (isOpen (sheet (inst w))); cbn [inst].
  - match goal with
    | |- sheet_ok (sheet (with_sheet _ ?g2)) =>
        assert (same_core (sheet (inst w)) (sheet g2)) as Hg2
    end.
    { destruct (sheetHeight (sheet (inst w))); gesture_fields;
        rewrite ?andb_false_r, ?andb_true_r;
        repeat match goal with
               | |- context [match ?x with _ => _ end] => destruct x
               end; gesture_fields; repeat split. }
    gesture_fields. apply ok_defer; [exact I|].
    apply (sheet_ok_core (sheet (inst w))); assumption.
  - destruct (lastFocused w); [|exact H].
    gesture_fields. apply (sheet_ok_core (sheet (inst w))); [|exact H].
    repeat split.
Qed.

Lemma exec_ok (cfg : Config) (opts : InputOptions) (angleDeg : Q -> Q -> Q)
  (op : Op) (st st1 : Z * Gesture) :
  config_ok cfg -> op_valid op -> state_ok st ->
  exec cfg opts angleDeg op st = Some st1 -> state_ok st1.
Proof.
  intros Hcfg Hv Hst E. pose proof Hst as [Hc Hs].
  assert (forall f, same_core (sheet (snd st)) (f (sheet (snd st))) ->
                    state_ok (fst st, with_sheet f (snd st))) as Hcore.
  { intros f Hf. split; [exact Hc|]. gesture_fields.
    apply (sheet_ok_core (sheet (snd st))); assumption. }
  assert (forall f, sheet_ok (f (sheet (snd st))) ->
                    state_ok (fst st, with_sheet f (snd st))) as Hsheet
    by (intros f Hf; split; [exact Hc | exact Hf]).
  assert (forall g1 : Gesture, sheet_ok (sheet g1) -> state_ok (fst st, g1))
    as Hgest by (intros g1 Hg1; split; [exact Hc | exact Hg1]).
  destruct op; cbn [exec] in E.
  - injection E as <-. apply ok_lift; [|exact Hst].
    intros; apply ok_open; assumption.
  - injection E as <-. apply ok_lift; [|exact Hst].
    intros; apply ok_close; assumption.
  - injection E as <-. apply ok_lift; [|exact Hst].
    intros; apply ok_requestClose; assumption.
  - injection E as <-. apply Hsheet, ok_closeAnimated; assumption.
  - injection E as <-. apply ok_lift; [|exact Hst].
    intros; apply ok_toggle; assumption.
  - injection E as <-. apply Hsheet, ok_snapTo; assumption.
  - injection E as <-. apply Hsheet, ok_snapToIndex; assumption.
  - destruct (setSnapPoints points toIndex (sheet (snd st))) as [s|] eqn:Es;
      [|discriminate E].
    injection E as <-. apply (Hsheet (fun _ => s)).
    apply (ok_setSnapPoints points toIndex (sheet (snd st))); assumption.
  - injection E as <-. apply ok_lift; [|exact Hst].
    intros c s H0 H1. unfold onOverlayClick.
    destruct (closeOnBackdrop opts); [apply ok_requestClose | split];
      assumption.
  - injection E as <-. apply ok_lift; [|exact Hst].
    intros c s H0 H1. unfold onHistory.
    destruct (isOpen s); [apply ok_requestClose | split]; assumption.
  - injection E as <-. apply ok_lift; [|exact Hst].
    intros c s H0 H1. apply ok_focusTrapKeydown; assumption.
  - injection E as <-. apply Hcore. repeat split.
  - injection E as <-. apply Hcore. repeat split.
  - injection E as <-. apply Hcore. repeat split.
  - injection E as <-. apply ok_lift; [|exact Hst].
    intros; apply ok_fire; assumption.
  - injection E as <-. apply Hgest, ok_onPointerDown, Hs.
  - injection E as <-. apply Hgest.
    apply (ok_axis_then_move cfg opts angleDeg (clientX e) (clientY e) now
             (fun g1 => dragging (sheet g1) && isActivePointer e g1));
      assumption.
  - injection E as <-. apply Hgest. unfold onPointerUp.
    destruct (isActivePointer e (snd st)); [apply ok_endDragG|]; assumption.
  - injection E as <-. apply Hgest, ok_onTouchStart, Hs.
  - injection E as <-. apply Hgest. unfold onTouchMove.
    destruct (supportsPointer (snd st)); [exact Hs|].
    apply (ok_axis_then_move cfg opts angleDeg (touchX e) (touchY e) now
             (fun g1 => dragging (sheet g1))); assumption.
  - injection E as <-. apply Hgest. unfold onTouchEnd.
    destruct (negb (supportsPointer (snd st))); [apply ok_endDragG|];
      assumption.
  - injection E as <-. apply Hgest, ok_onMouseDown, Hs.
  - injection E as <-. apply Hgest.
    apply (ok_axis_then_move cfg opts angleDeg (clientX e) (clientY e) now
             (fun g1 => dragging (sheet g1))); assumption.
  - injection E as <-. apply Hgest. unfold onMouseUp.
    apply ok_endDragG; assumption.
  - injection E as <-. apply Hgest, ok_onWheel; assumption.
  - injection E as <-. apply Hsheet.
    destruct Hs as (Ht & Ho & Hs & Hi & Hh & Hp).
    unfold sheet_ok. sheet_fields.
    repeat split; try assumption; try apply Ho; try apply Hs;
      try (destruct h; exact Hv).
  - destruct (watchContentResize opts); injection E as <-; [|exact Hst].
    apply Hsheet. unfold onContentResize.
    destruct (sheetHeight (sheet (snd st))); [|exact Hs].
    apply ok_keepProgress, Hs.
  - injection E as <-. apply Hgest, ok_onWindowResize, Hs.
  - injection E as <-. apply Hgest, ok_endDragG; assumption.
  - injection E as <-. apply Hsheet. unfold onTransitionEnd.
    destruct (sheetHeight (sheet (snd st))); [|exact Hs].
    apply (sheet_ok_core (sheet (snd st))); [repeat split | exact Hs].
  - injection E as <-. apply Hgest. exact Hs.
  - injection E as <-. apply Hgest. exact Hs.
Qed.



Lemma initial_ok (cfg : Config) : state_ok (0%Z, initialGesture cfg).
Proof.
  split; [cbn; lia|]. unfold sheet_ok. cbn.
  split; [lra|]. split; [lra|].
  split; [split; [discriminate | congruence]|].
  split; [discriminate|]. split; [exact I | constructor].
Qed.

Lemma reachable_ok (cfg : Config) (opts : InputOptions)
  (angleDeg : Q -> Q -> Q) (sheetEl : nat) (st : Z * Watched) :
  config_ok cfg -> reachable cfg opts angleDeg sheetEl st ->
  state_ok (fst st, inst (snd st)).
Proof.
  intros Hcfg R. induction R as [|op c w st1 R IH Hv Hck E|c w R IH].
  - apply initial_ok.
  - apply (exec_ok cfg opts angleDeg op (c, inst w) st1 Hcfg Hv IH) in E.
    destruct st1 as [c1 g1]. exact E.
  - destruct IH as [Hc Hs]. split; [exact Hc|].
    apply ok_flushWatch, Hs.
Qed.

Lemma op_validb_valid (op : Op) : op_validb op = true -> op_valid op.
Proof.
  destruct op; try exact (fun _ => I). destruct h as [h|]; [|exact (fun _ => I)].
  intro H. apply Qle_bool_iff, H.
Qed.

Lemma clock_okb_ok (op : Op) (g : Gesture) :
  clock_okb op g = true -> clock_ok op g.
Proof.
  destruct op; try exact (fun _ => I); cbn [clock_okb clock_ok];
    intros H Hd; rewrite Hd in H; apply Qltb_lt, H.
Qed.

Lemma run_steps_reachable (cfg : Config) (opts : InputOptions)
  (angleDeg : Q -> Q -> Q) (sheetEl : nat) (l : list Step) :
  forall st st1,
    reachable cfg opts angleDeg sheetEl st ->
    run_steps cfg opts angleDeg sheetEl l st = Some st1 ->
    reachable cfg opts angleDeg sheetEl st1.
Proof.
  induction l as [|[op|] r IH]; intros [c w] st1 R E; cbn [run_steps] in E.
  - injection E as <-. exact R.
  - cbn [fst snd] in E.
    destruct (op_validb op && clock_okb op (inst w)) eqn:Ev;
      [|discriminate E].
    apply andb_true_iff in Ev. destruct Ev as [Ev Eck].
    destruct (exec cfg opts angleDeg op (c, inst w)) as [st2|] eqn:E2;
      [|discriminate E].
    refine (IH _ st1 _ E).
    apply (reach_exec cfg opts angleDeg sheetEl op c w st2 R);
      [apply op_validb_valid, Ev | apply clock_okb_ok, Eck | exact E2].
  - refine (IH _ st1 _ E). apply reach_flush, R.
Qed.

(** X12.  Every state that an instance and its watcher reach from the state
    in which [useBottomSheet] leaves them satisfies the invariant: the
    offset is never negative, the upward overdrag stays within [0,1],
    [STACK_COUNT] is never negative, the sheet is open exactly when it holds
    a stack index, and that index is at least 1.  The steps are the public
    calls, the input events, the deferred callbacks, the resize, pointer
    capture and transition callbacks and the runs of the watcher; their
    arguments are finite numbers, an element height is not negative, and
    during a drag the clock of a move has advanced since the last sample.
    A step whose result is not a finite number ([setSnapPoints] with an
    index that is not an integer) ends the run. *)
Theorem engine_invariant (cfg : Config) (opts : InputOptions)
  (angleDeg : Q -> Q -> Q) (sheetEl : nat) (st : Z * Watched) :
  config_ok cfg -> reachable cfg opts angleDeg sheetEl st ->
  (0 <= fst st)%Z
  /\ 0 <= translateY (sheet (inst (snd st)))
  /\ 0 <= renderedOffset (sheet (inst (snd st)))
  /\ 0 <= overUp (sheet (inst (snd st))) <= 1
  /\ (isOpen (sheet (inst (snd st))) = true
      <-> stackIndex (sheet (inst (snd st))) <> None)
  /\ (forall i, stackIndex (sheet (inst (snd st))) = Some i -> (1 <= i)%Z).
Proof.
  intros Hcfg R.
  destruct (reachable_ok cfg opts angleDeg sheetEl st Hcfg R)
    as [Hc (Ht & Ho & Hs & Hi & _)].
  split; [exact Hc|]. split; [exact Ht|].
  split; [apply Q.le_max_l|]. split; [exact Ho|]. split; assumption.
Qed.

Lemma engine_invariant_witness :
  config_ok defaultConfig
  /\ exists st,
       run_steps defaultConfig defaultInput axisAngle 9 session
         (0%Z, mkWatched (initialGesture defaultConfig) false None) = Some st
       /\ reachable defaultConfig defaultInput axisAngle 9 st
       /\ events (sheet (inst (snd st)))
          = [EvOpen; EvAfterOpen; EvSnap 0 0; EvDragStart;
             EvDrag 20 (20 # 400); EvDrag 300 (300 # 400); EvDragEnd true;
             EvClose drag]
       /\ seenOpen (snd st) = false
       /\ 0 <= translateY (sheet (inst (snd st)))
       /\ (isOpen (sheet (inst (snd st))) = true
           <-> stackIndex (sheet (inst (snd st))) <> None).
Proof.
  assert (config_ok defaultConfig) as Hcfg.
  { split; [reflexivity|]. split; [reflexivity|].
    split; [split; discriminate | discriminate]. }
  split; [exact Hcfg|].
  destruct (run_steps defaultConfig defaultInput axisAngle 9 session
              (0%Z, mkWatched (initialGesture defaultConfig) false None))
    as [st|] eqn:E; [|vm_compute in E; discriminate E].
  pose proof (run_steps_reachable defaultConfig defaultInput axisAngle 9
                session _ st (reach_init _ _ _ _) E) as R.
  destruct (engine_invariant defaultConfig defaultInput axisAngle 9 st Hcfg
              R) as (_ & Ht & _ & _ & Hs & _).
  exists st. split; [reflexivity|]. split; [exact R|].
  split; [|split; [|split; [exact Ht | exact Hs]]];
    clear R Ht Hs; vm_compute in E; injection E as <-; reflexivity.
Defined.

(** ** What the view is given to draw *)

Lemma dragProgress_range (s : Sheet) : 0 <= dragProgress s <= 1.
Proof. apply clamp01_range. Qed.

(** X13.  The derived render parameters at an offset that is any number.
    At an offset that is not [NaN] they are in range: the drag progress
    lies within [0,1], the scale is [1 - 0.02 p] for a [p] within [0,1] and
    so lies between 0.98 and 1, the overlay opacity lies between 0 and
    [overlayMaxOpacity] and is 0 when the drag progress is 1, and the drawn
    offset is not negative.  At the offset [NaN] the drawn offset, the
    scale and the opacity are all [NaN].  At the finite offset of an engine
    state they are the values of [renderedOffset], [sheetScale] and
    [overlayOpacity]. *)
Theorem render_parameters_in_range (overlayMaxOpacity : Q) (s : Sheet)
  (ty : Num) :
  0 <= overlayMaxOpacity ->
  (ty <> NaN ->
   exists dp p : Q,
     dragProgressJ s ty = Fin dp /\ 0 <= dp <= 1
     /\ 0 <= p <= 1
     /\ sheetScaleJ s ty = Fin (1 - (2 # 100) * p)
     /\ 98 # 100 <= 1 - (2 # 100) * p <= 1
     /\ overlayOpacityJ overlayMaxOpacity s ty
        = Fin (overlayMaxOpacity * (1 - dp))
     /\ 0 <= overlayMaxOpacity * (1 - dp) <= overlayMaxOpacity
     /\ (dp == 1 -> overlayMaxOpacity * (1 - dp) == 0)
     /\ (renderedOffsetJ ty = PosInf
         \/ exists q, renderedOffsetJ ty = Fin q /\ 0 <= q))
  /\ (ty = NaN ->
      renderedOffsetJ ty = NaN /\ sheetScaleJ s ty = NaN
      /\ overlayOpacityJ overlayMaxOpacity s ty = NaN)
  /\ renderedOffsetJ (Fin (translateY s)) = Fin (renderedOffset s)
  /\ sheetScaleJ s (Fin (translateY s)) = Fin (sheetScale s)
  /\ overlayOpacityJ overlayMaxOpacity s (Fin (translateY s))
     = Fin (overlayOpacity overlayMaxOpacity s).
Proof.
  intro Hmax. split; [|split; [|repeat split]].
  - intro Hty.
    assert (exists dp, dragProgressJ s ty = Fin dp /\ 0 <= dp <= 1)
      as (dp & Edp & Hdp).
    { unfold dragProgressJ.
      assert (divJ ty (viewHeight s) <> NaN) as Hd.
      { destruct ty; cbn [divJ]; try congruence;
          destruct (Qltb (viewHeight s) 0); discriminate. }
      destruct (clamp01J_finite _ Hd) as [E Hr].
      eexists. split; [exact E | exact Hr]. }
    exists dp, (Qmin 1 (Qmax 0 (dp + overUp s))).
    pose proof (clamp01_range (dp + overUp s)) as Hc. unfold clamp01 in Hc.
    set (p := Qmin 1 (Qmax 0 (dp + overUp s))) in *.
    split; [exact Edp|]. split; [exact Hdp|]. split; [exact Hc|].
    split; [unfold sheetScaleJ; rewrite Edp; reflexivity|].
    split; [split; lra|].
    split; [unfold overlayOpacityJ; rewrite Edp; reflexivity|].
    split; [split; nra|].
    split; [intro E; rewrite E; ring|].
    destruct ty as [q| | |]; [right | left | right | congruence].
    + exists (Qmax 0 q). split; [reflexivity | apply Q.le_max_l].
    + reflexivity.
    + exists 0. split; [reflexivity | lra].
  - intros ->. repeat split.
Qed.

(** A 400px sheet dragged to 300px, and the same sheet at the offset
    [NaN]. *)
Lemma render_parameters_in_range_witness :
  0 <= 4 # 10
  /\ sheetScaleJ (dragged 400 300 0) (Fin 300) = Fin (sheetScale (dragged 400 300 0))
  /\ 98 # 100 <= sheetScale (dragged 400 300 0) <= 1
  /\ overlayOpacityJ (4 # 10) (dragged 400 300 0) NaN = NaN
  /\ renderedOffsetJ NaN = NaN.
Proof.
  assert (0 <= 4 # 10) as H0 by discriminate.
  destruct (render_parameters_in_range (4 # 10) (dragged 400 300 0) NaN H0)
    as (_ & Hnan & _ & Hsc & _).
  destruct (Hnan eq_refl) as (Hr & _ & Ho).
  split; [exact H0|]. split; [exact Hsc|].
  split; [split; discriminate|]. split; [exact Ho | exact Hr].
Defined.

(** Of two sheets holding stack indices, the sheet layer of the first lies
    below the overlay of the second exactly when the bases and the indices
    say so; [zIndexBase] is an option of each instance. *)
Lemma stacked_layers_ordered (base1 base2 : Z) (s1 s2 : Sheet) (i1 i2 : Z) :
  stackIndex s1 = Some i1 -> stackIndex s2 = Some i2 ->
  (overlayZ base1 s1 < sheetZ base1 s1)%Z
  /\ ((sheetZ base1 s1 < overlayZ base2 s2)%Z
      <-> (base1 - base2 + 1 < 2 * (i2 - i1))%Z).
Proof.
  intros E1 E2. unfold sheetZ, overlayZ, baseZ. rewrite E1, E2. lia.
Qed.

(** X14.  In a world whose sheets close in reverse order of opening, two
    sheets that hold a stack index hold different ones.  Each instance has
    its own [zIndexBase]: the sheet layer of one lies below the overlay of
    the other exactly when [base1 - base2 + 1 < 2 (i2 - i1)].  When the
    sheet with the larger index has a base that is not the lower one, in
    particular when both have the same base, its overlay lies above the
    sheet layer of the other, so the layers neither share a level nor
    interleave; with different bases they can. *)
Theorem lifo_layers_disjoint (base1 base2 : Z) (w : World) (k1 k2 : nat)
  (s1 s2 : Sheet) (i1 i2 : Z) :
  lifo w ->
  nth_error (sheets w) k1 = Some s1 -> stackIndex s1 = Some i1 ->
  nth_error (sheets w) k2 = Some s2 -> stackIndex s2 = Some i2 ->
  k1 <> k2 ->
  i1 <> i2
  /\ (overlayZ base1 s1 < sheetZ base1 s1)%Z
  /\ (overlayZ base2 s2 < sheetZ base2 s2)%Z
  /\ ((sheetZ base1 s1 < overlayZ base2 s2)%Z
      <-> (base1 - base2 + 1 < 2 * (i2 - i1))%Z)
  /\ ((sheetZ base2 s2 < overlayZ base1 s1)%Z
      <-> (base2 - base1 + 1 < 2 * (i1 - i2))%Z)
  /\ ((i1 < i2)%Z -> (base1 <= base2)%Z ->
      (sheetZ base1 s1 < overlayZ base2 s2)%Z)
  /\ ((i2 < i1)%Z -> (base2 <= base1)%Z ->
      (sheetZ base2 s2 < overlayZ base1 s1)%Z)
  /\ (base1 = base2 ->
      (sheetZ base1 s1 < overlayZ base2 s2)%Z
      \/ (sheetZ base2 s2 < overlayZ base1 s1)%Z).
Proof.
  intros Hw H1 E1 H2 E2 Hne.
  destruct (lifo_stack_ok w Hw) as (_ & _ & Hd).
  assert (i1 <> i2) as Hij.
  { intros ->. apply Hne. apply (Hd k1 k2 i2);
      eexists; split; eassumption. }
  destruct (stacked_layers_ordered base1 base2 s1 s2 i1 i2 E1 E2)
    as [Ha Hab].
  destruct (stacked_layers_ordered base2 base1 s2 s1 i2 i1 E2 E1)
    as [Hb Hba].
  split; [exact Hij|]. split; [exact Ha|]. split; [exact Hb|].
  split; [exact Hab|]. split; [exact Hba|].
  split; [intros; apply Hab; lia|]. split; [intros; apply Hba; lia|].
  intros ->.
  destruct (Z.lt_trichotomy i1 i2) as [Hlt|[->|Hgt]];
    [left; apply Hab; lia | congruence | right; apply Hba; lia].
Qed.

(** Two of three sheets open one after the other: ordered layers under the
    default base 1000 for both; with the base 1003 for the first, its sheet
    layer 1006 lies above both layers 1004 and 1005 of the second, and its
    overlay shares the level 1005. *)
Lemma lifo_layers_disjoint_witness :
  lifo (open_at 1 (open_at 0 three_sheets))
  /\ exists s1 s2,
       nth_error (sheets (open_at 1 (open_at 0 three_sheets))) 0 = Some s1
       /\ nth_error (sheets (open_at 1 (open_at 0 three_sheets))) 1 = Some s2
       /\ stackIndex s1 = Some 1%Z /\ stackIndex s2 = Some 2%Z
       /\ (sheetZ 1000 s1 < overlayZ 1000 s2)%Z
       /\ ~ (sheetZ 1003 s1 < overlayZ 1000 s2)%Z
       /\ overlayZ 1003 s1 = sheetZ 1000 s2
       /\ (overlayZ 1000 s2 < overlayZ 1003 s1 < sheetZ 1003 s1)%Z.
Proof.
  assert (lifo (open_at 1 (open_at 0 three_sheets))) as Hw.
  { apply lifo_open, lifo_open, lifo_start. repeat constructor. }
  split; [exact Hw|].
  destruct (nth_error (sheets (open_at 1 (open_at 0 three_sheets))) 0)
    as [s1|] eqn:E1; [|discriminate E1].
  destruct (nth_error (sheets (open_at 1 (open_at 0 three_sheets))) 1)
    as [s2|] eqn:E2; [|discriminate E2].
  assert (stackIndex s1 = Some 1%Z) as I1
    by (injection E1 as <-; reflexivity).
  assert (stackIndex s2 = Some 2%Z) as I2
    by (injection E2 as <-; reflexivity).
  exists s1, s2. repeat (split; [first [reflexivity | assumption]|]).
  destruct (lifo_layers_disjoint 1000 1000 _ 0 1 s1 s2 1 2 Hw E1 I1 E2 I2
              ltac:(discriminate)) as (_ & _ & _ & _ & _ & H & _).
  destruct (lifo_layers_disjoint 1003 1000 _ 0 1 s1 s2 1 2 Hw E1 I1 E2 I2
              ltac:(discriminate)) as (_ & _ & _ & Hiff & _).
  split; [apply H; lia|]. split; [intro Hc; apply Hiff in Hc; lia|].
  unfold sheetZ, overlayZ, baseZ. rewrite I1, I2. lia.
Defined.

(** ** The built-in keys *)

Lemma run_empty (e : KeyEvent) (R : Registry) :
  regs R = [] -> run e R = (false, R, e, []).
Proof.
  intro H. unfold run. rewrite H. reflexivity.
Qed.

Lemma set_keydown_same (s : Sheet) : set_keydown (keydown s) s = s.
Proof. reflexivity. Qed.




(** X16.  The Tab focus trap. With no dynamic handler registered and at
    least one focusable element in an open, mounted sheet, Tab moves the
    focus only to wrap around: from the last focusable to the first, and
    with Shift from the first, or from anywhere outside the sheet, to the
    last. In those cases the event is consumed; in every other case nothing
    changes. Nothing but the focus is ever touched. *)
Theorem focus_trap_wraps
  (cfg : Config) (e : KeyEvent) (count : Z) (s : Sheet) (h : Q)
  (first : nat) (rest : list nat) :
  isOpen s = true -> sheetHeight s = Some h -> regs (keydown s) = [] ->
  trapFocus cfg = true -> key e = KTab -> focusables s = first :: rest ->
  let last := List.last (first :: rest) first in
  let outside := forall n, In n (first :: rest) -> activeElement s <> Some n in
  let r := focusTrapKeydown cfg e count s in
  (shiftKey e = false -> activeElement s = Some last ->
   r = (count, set_activeElement (Some first) s, preventDefault e))
  /\ (shiftKey e = false -> activeElement s <> Some last -> r = (count, s, e))
  /\ (shiftKey e = true -> activeElement s = Some first \/ outside ->
      r = (count, set_activeElement (Some last) s, preventDefault e))
  /\ (shiftKey e = true -> activeElement s <> Some first -> ~ outside ->
      r = (count, s, e)).
Proof.
  intros Hopen Hh Hregs Htrap Hkey Hfoc last outside r.
  set (isActive := fun n => match activeElement s with
                            | Some a => Nat.eqb a n
                            | None => false
                            end).
  assert (forall n, isActive n = true <-> activeElement s = Some n) as Hact.
  { intro n. unfold isActive. destruct (activeElement s) as [a|].
    - rewrite Nat.eqb_eq. split; congruence.
    - split; discriminate. }
  assert (existsb isActive (first :: rest) = false <-> outside) as Hout.
  { unfold outside. split.
    - intros Hex n Hn Ha. apply Hact in Ha.
      assert (existsb isActive (first :: rest) = true) as Hex1
        by (apply existsb_exists; exists n; split; assumption).
      congruence.
    - intro Ho. destruct (existsb isActive (first :: rest)) eqn:Hex;
        [|reflexivity].
      apply existsb_exists in Hex. destruct Hex as [n [Hn Ha]].
      apply Hact in Ha. destruct (Ho n Hn Ha). }
  assert (r = if shiftKey e
              then if isActive first || negb (existsb isActive (first :: rest))
                   then (count, set_activeElement (Some last) s,
                         preventDefault e)
                   else (count, s, e)
              else if isActive last
                   then (count, set_activeElement (Some first) s,
                         preventDefault e)
                   else (count, s, e)) as Hr.
  { unfold r, focusTrapKeydown. rewrite Hopen, Hh, (run_empty e _ Hregs).
    change (set_keydown (keydown s) s) with s.
    rewrite Hkey, Htrap, Hfoc. reflexivity. }
  rewrite Hr. clear Hr r. repeat split.
  - intros -> Hl. apply Hact in Hl. rewrite Hl. reflexivity.
  - intros -> Hl. destruct (isActive last) eqn:E; [|reflexivity].
    apply Hact in E. contradiction.
  - intros -> [Hf|Ho].
    + apply Hact in Hf. rewrite Hf. reflexivity.
    + apply Hout in Ho. rewrite Ho, orb_true_r. reflexivity.
  - intros -> Hf Ho.
    destruct (isActive first) eqn:E1; [apply Hact in E1; contradiction|].
    destruct (existsb isActive (first :: rest)) eqn:E2; [reflexivity|].
    exfalso. apply Ho, Hout. reflexivity.
Qed.

Lemma focus_trap_wraps_witness :
  isOpen focused400 = true /\ sheetHeight focused400 = Some 400
  /\ regs (keydown focused400) = [] /\ trapFocus defaultConfig = true
  /\ focusables focused400 = [10; 11; 12]%nat
  /\ activeElement (snd (fst (focusTrapKeydown defaultConfig
                                (mkKeyEvent KTab false false) 1 focused400)))
     = Some 10%nat.
Proof.
  pose proof (focus_trap_wraps defaultConfig (mkKeyEvent KTab false false) 1
                focused400 400 10%nat [11; 12]%nat
                eq_refl eq_refl eq_refl eq_refl eq_refl eq_refl) as H.
  cbv zeta in H. destruct H as (H & _).
  do 5 (split; [reflexivity|]).
  rewrite (H eq_refl eq_refl). reflexivity.
Defined.

(** ** The keydown registry: order, snapshot and [once] *)

Lemma lookup_reg_id (id : nat) (R : Registry) (reg : KeydownReg) :
  lookup_reg id R = Some reg -> reg_id reg = id /\ In reg (objs R).
Proof.
  unfold lookup_reg. intro H. apply find_some in H. destruct H as [Hin Heq].
  apply Nat.eqb_eq in Heq. split; assumption.
Qed.

Lemma find_deactivate (id id1 : nat) (l : list KeydownReg) :
  find (fun r => Nat.eqb (reg_id r) id1) (deactivate id l)
  = match find (fun r => Nat.eqb (reg_id r) id1) l with
    | Some r => Some (if Nat.eqb (reg_id r) id
                      then mkReg (reg_id r) (handler r) (priority r) (once r)
                             false
                      else r)
    | None => None
    end.
Proof.
  induction l as [|r l IH]; [reflexivity|]. cbn [deactivate map find].
  fold (deactivate id l).
  destruct (Nat.eqb (reg_id r) id) eqn:E; cbn [reg_id];
    destruct (Nat.eqb (reg_id r) id1); rewrite ?E; try reflexivity; exact IH.
Qed.

(** What [off] does to the object looked up under [id1]. *)
Lemma lookup_off (id id1 : nat) (R : Registry) :
  lookup_reg id1 (keydown_off id R)
  = match lookup_reg id1 R with
    | Some r => Some (if Nat.eqb id1 id
                      then mkReg (reg_id r) (handler r) (priority r) (once r)
                             false
                      else r)
    | None => None
    end.
Proof.
  unfold lookup_reg, keydown_off. cbn [objs]. rewrite find_deactivate.
  destruct (find _ (objs R)) as [r|] eqn:E; [|reflexivity].
  apply find_some in E. destruct E as [_ E]. apply Nat.eqb_eq in E.
  rewrite E. reflexivity.
Qed.

Lemma priority_off (id : nat) (R : Registry) (a : nat) :
  priority_of (keydown_off id R) a = priority_of R a.
Proof.
  unfold priority_of. rewrite lookup_off.
  destruct (lookup_reg a R) as [r|]; [|reflexivity].
  destruct (Nat.eqb a id); reflexivity.
Qed.

Lemma remove_first_In (id x : nat) (l : list nat) :
  In x (remove_first id l) -> In x l.
Proof.
  induction l as [|y r IH]; [tauto|]. cbn [remove_first].
  destruct (Nat.eqb y id); [intro; right; assumption|].
  intros [->|H]; [left; reflexivity | right; apply IH, H].
Qed.

Lemma remove_first_NoDup (id : nat) (l : list nat) :
  NoDup l -> NoDup (remove_first id l) /\ ~ In id (remove_first id l).
Proof.
  induction 1 as [|y r Hy Hr IH]; [split; [constructor | tauto]|].
  cbn [remove_first]. destruct (Nat.eqb y id) eqn:E.
  - apply Nat.eqb_eq in E. subst y. split; assumption.
  - apply Nat.eqb_neq in E. destruct IH as [IH1 IH2]. split.
    + constructor; [|exact IH1]. intro H. apply Hy, (remove_first_In id), H.
    + intros [H|H]; [congruence | exact (IH2 H)].
Qed.

Lemma remove_first_sorted (P : nat -> nat -> Prop) (id : nat) (l : list nat) :
  StronglySorted P l -> StronglySorted P (remove_first id l).
Proof.
  induction 1 as [|y r Hs IH Hy]; [constructor|]. cbn [remove_first].
  destruct (Nat.eqb y id); [exact Hs|].
  constructor; [exact IH|]. rewrite Forall_forall in *.
  intros x Hx. apply Hy, (remove_first_In id), Hx.
Qed.

Lemma remove_first_absent (id : nat) (l : list nat) :
  ~ In id l -> remove_first id l = l.
Proof.
  induction l as [|y r IH]; [reflexivity|]. intro H. cbn [remove_first].
  destruct (Nat.eqb y id) eqn:E.
  - apply Nat.eqb_eq in E. subst y. exfalso. apply H. left. reflexivity.
  - f_equal. apply IH. intro Hin. apply H. right. exact Hin.
Qed.

Lemma before_off (id : nat) (R : Registry) (a b : nat) :
  before (keydown_off id R) a b <-> before R a b.
Proof.
  unfold before. rewrite !priority_off. reflexivity.
Qed.

Lemma sorted_iff (P Q : nat -> nat -> Prop) (l : list nat) :
  (forall a b, P a b <-> Q a b) -> StronglySorted P l -> StronglySorted Q l.
Proof.
  intros Hpq. induction 1 as [|y r Hs IH Hy]; constructor; [exact IH|].
  eapply Forall_impl; [|exact Hy]. intros x Hx. apply Hpq, Hx.
Qed.

Lemma off_ok (id : nat) (R : Registry) : reg_ok R -> reg_ok (keydown_off id R).
Proof.
  intros (Hnd & Hact & Hseq & Hsort).
  destruct (remove_first_NoDup id (regs R) Hnd) as [Hnd1 Hout].
  split; [exact Hnd1|]. split; [|split].
  - intros id1 Hin. cbn [regs keydown_off] in Hin.
    assert (id1 <> id) as Hne by (intros ->; exact (Hout Hin)).
    destruct (Hact id1 (remove_first_In id _ _ Hin)) as [reg [Hl Ha]].
    exists reg. rewrite lookup_off, Hl.
    replace (Nat.eqb id1 id) with false
      by (symmetry; apply Nat.eqb_neq; exact Hne).
    split; [reflexivity | exact Ha].
  - intros reg Hin. cbn [objs keydown_off seq] in *.
    unfold deactivate in Hin. apply in_map_iff in Hin.
    destruct Hin as [r [<- Hr]]. specialize (Hseq r Hr).
    destruct (Nat.eqb (reg_id r) id); exact Hseq.
  - cbn [regs keydown_off].
    apply (sorted_iff (before R));
      [intros a b; symmetry; apply before_off|].
    apply remove_first_sorted, Hsort.
Qed.

Lemma offs_ok (ids : list nat) (R : Registry) :
  reg_ok R -> reg_ok (fold_left (fun acc i => keydown_off i acc) ids R).
Proof.
  revert R. induction ids as [|i r IH]; intros R H; [exact H|].
  cbn [fold_left]. apply IH, off_ok, H.
Qed.

Lemma clear_ok (R : Registry) : reg_ok R -> reg_ok (keydown_clear R).
Proof.
  intros (_ & _ & Hseq & _). split; [constructor|]. split; [intros id []|].
  split; [exact Hseq | constructor].
Qed.

Lemma run_loop_ok (snapshot : list nat) :
  forall R e inv,
    reg_ok R -> reg_ok (snd (fst (fst (run_loop snapshot R e inv)))).
Proof.
  induction snapshot as [|id rest IH]; intros R e inv H; [exact H|].
  cbn [run_loop].
  destruct (lookup_reg id R) as [reg|]; [|apply IH, H].
  destruct (negb (active reg)); [apply IH, H|].
  pose proof (offs_ok (ho_off (handler reg e)) R H) as H1.
  destruct (ho_result (handler reg e)) as [v|]; [|apply IH, H1].
  assert (reg_ok (if once reg
                  then keydown_off id
                         (fold_left (fun acc i => keydown_off i acc)
                            (ho_off (handler reg e)) R)
                  else fold_left (fun acc i => keydown_off i acc)
                         (ho_off (handler reg e)) R)) as H2
    by (destruct (once reg); [apply off_ok|]; exact H1).
  destruct (is_true v || defaultPrevented _); [exact H2 | apply IH, H2].
Qed.

Lemma insert_desc_top (prio : nat -> Q) (a : nat) (l : list nat) :
  Forall (fun y => prio y <= prio a) l -> insert_desc prio a l = a :: l.
Proof.
  intro H. destruct l as [|y r]; [reflexivity|]. cbn [insert_desc].
  inversion H; subst.
  replace (Qltb (prio a) (prio y)) with false; [reflexivity|].
  symmetry. apply Qltb_ge. assumption.
Qed.

Lemma place_top (prio : nat -> Q) (x : nat) (l : list nat) :
  Forall (fun y => prio y < prio x) l -> place prio x l = x :: l.
Proof.
  intro H. destruct l as [|y r]; [reflexivity|]. cbn [place].
  inversion H; subst.
  replace (Qltb (prio y) (prio x)) with true; [reflexivity|].
  symmetry. apply Qltb_lt. assumption.
Qed.

Lemma sort_desc_snoc (prio : nat -> Q) (l : list nat) (x : nat) :
  StronglySorted (fun a b => prio b <= prio a) l ->
  sort_desc prio (l ++ [x]) = place prio x l.
Proof.
  induction 1 as [|a r Hs IH Ha]; [reflexivity|].
  cbn [app sort_desc place]. rewrite IH.
  destruct (Qltb (prio a) (prio x)) eqn:E.
  - apply Qltb_lt in E. rewrite place_top.
    + cbn [insert_desc].
      replace (Qltb (prio a) (prio x)) with true
        by (symmetry; apply Qltb_lt; exact E).
      rewrite insert_desc_top by exact Ha. reflexivity.
    + eapply Forall_impl; [|exact Ha]. intros y Hy. simpl in Hy. lra.
  - apply Qltb_ge in E. apply insert_desc_top.
    destruct r as [|y r']; cbn [place].
    + repeat constructor. exact E.
    + inversion Ha; subst. destruct (Qltb (prio y) (prio x)).
      * constructor; [exact E | exact Ha].
      * constructor; [assumption|].
        clear IH Hs. revert H2. clear -E.
        induction r' as [|z r'' IH]; intro H; cbn [place].
        -- repeat constructor. exact E.
        -- inversion H; subst. destruct (Qltb (prio z) (prio x)).
           ++ constructor; [exact E | exact H].
           ++ constructor; [assumption | apply IH; assumption].
Qed.

Lemma place_In (prio : nat -> Q) (x z : nat) (l : list nat) :
  In z (place prio x l) <-> z = x \/ In z l.
Proof.
  induction l as [|y r IH]; cbn [place].
  - simpl. intuition congruence.
  - destruct (Qltb (prio y) (prio x)); simpl in *; rewrite ?IH;
      intuition congruence.
Qed.

Lemma place_sorted (prio : nat -> Q) (x : nat) (l : list nat) :
  let bef a b := prio b < prio a \/ (prio b == prio a /\ (a < b)%nat) in
  StronglySorted bef l -> Forall (fun y => (y < x)%nat) l ->
  StronglySorted bef (place prio x l).
Proof.
  intros bef Hs Hx. induction Hs as [|y r Hs IH Hy]; cbn [place].
  - repeat constructor.
  - inversion Hx as [|? ? Hyx Hrx]; subst.
    destruct (Qltb (prio y) (prio x)) eqn:E.
    + apply Qltb_lt in E. constructor; [constructor; assumption|].
      constructor; [left; exact E|].
      eapply Forall_impl; [|exact Hy]. intros z Hz. left.
      destruct Hz as [Hz|[Hz _]]; lra.
    + apply Qltb_ge in E. constructor; [apply IH, Hrx|].
      apply Forall_forall. intros z Hz. apply place_In in Hz.
      destruct Hz as [->|Hz].
      * destruct (Qlt_le_dec (prio x) (prio y)) as [Hlt|Hle];
          [left; exact Hlt | right].
        split; [lra | exact Hyx].
      * rewrite Forall_forall in Hy. apply Hy, Hz.
Qed.

Lemma remove_first_place (prio : nat -> Q) (x : nat) (l : list nat) :
  ~ In x l -> remove_first x (place prio x l) = l.
Proof.
  induction l as [|y r IH]; intro H; cbn [place remove_first].
  - rewrite Nat.eqb_refl. reflexivity.
  - destruct (Qltb (prio y) (prio x)); cbn [remove_first].
    + rewrite Nat.eqb_refl. reflexivity.
    + replace (Nat.eqb y x) with false.
      * f_equal. apply IH. intro Hin. apply H. right. exact Hin.
      * symmetry. apply Nat.eqb_neq. intros ->. apply H. left. reflexivity.
Qed.

Lemma find_snoc {A : Type} (f : A -> bool) (l : list A) (x : A) :
  find f (l ++ [x])
  = match find f l with
    | Some y => Some y
    | None => if f x then Some x else None
    end.
Proof.
  induction l as [|a r IH]; cbn [app find]; [reflexivity|].
  destruct (f a); [reflexivity | exact IH].
Qed.

Section Registration.

Variable R : Registry.
Variable h : KeyEvent -> HandlerOutcome.
Variable prio : option Q.
Variable onceOpt : option bool.
Hypothesis HR : reg_ok R.

Let id := S (seq R).
Let R1 := fst (keydown_on h prio onceOpt R).
Let reg := mkReg id h (match prio with Some p => p | None => 0 end)
                 (match onceOpt with Some b => b | None => false end) true.

Lemma on_fresh : lookup_reg id R = None /\ ~ In id (regs R).
Proof.
  destruct HR as (_ & Hact & Hseq & _).
  assert (lookup_reg id R = None) as Hnone.
  { destruct (lookup_reg id R) as [r|] eqn:E; [|reflexivity].
    apply lookup_reg_id in E. destruct E as [E Hin].
    specialize (Hseq r Hin). unfold id in E. lia. }
  split; [exact Hnone|]. intro Hin. destruct (Hact id Hin) as [r [E _]].
  congruence.
Qed.

Lemma lookup_on (a : nat) :
  lookup_reg a R1 = if Nat.eqb a id then Some reg else lookup_reg a R.
Proof.
  unfold R1, keydown_on, lookup_reg. cbn [fst objs]. rewrite find_snoc.
  fold (lookup_reg a R). cbn [reg_id]. fold id.
  destruct (Nat.eqb a id) eqn:E.
  - apply Nat.eqb_eq in E. subst a. destruct on_fresh as [-> _].
    rewrite Nat.eqb_refl. reflexivity.
  - destruct (lookup_reg a R); [reflexivity|].
    rewrite Nat.eqb_sym, E. reflexivity.
Qed.

Lemma priority_on (a : nat) : a <> id -> priority_of R1 a = priority_of R a.
Proof.
  intro Hne. unfold priority_of. rewrite lookup_on.
  replace (Nat.eqb a id) with false; [reflexivity|].
  symmetry. apply Nat.eqb_neq. exact Hne.
Qed.

Lemma old_ids (a : nat) : In a (regs R) -> (a < id)%nat.
Proof.
  intro Hin. destruct HR as (_ & Hact & Hseq & _).
  destruct (Hact a Hin) as [r [E _]]. apply lookup_reg_id in E.
  destruct E as [<- Hr]. specialize (Hseq r Hr). unfold id. lia.
Qed.

Lemma sorted_on_old : StronglySorted (before R1) (regs R).
Proof.
  destruct HR as (_ & _ & _ & Hsort).
  assert (forall l, StronglySorted (before R) l ->
                    (forall a, In a l -> In a (regs R)) ->
                    StronglySorted (before R1) l) as Hgen.
  { induction 1 as [|y r Hs IH Hy]; intro Hsub; constructor.
    - apply IH. intros a Ha. apply Hsub. right. exact Ha.
    - apply Forall_forall. intros z Hz. rewrite Forall_forall in Hy.
      specialize (Hy z Hz). unfold before in *.
      rewrite !priority_on; [exact Hy | |].
      + pose proof (old_ids y (Hsub y (or_introl eq_refl))). lia.
      + pose proof (old_ids z (Hsub z (or_intror Hz))). lia. }
  apply Hgen; [exact Hsort | tauto].
Qed.

(** [on] puts the new registration in front of the first one of strictly
    lower priority and leaves the others where they were. *)
Lemma regs_on : regs R1 = place (priority_of R1) id (regs R).
Proof.
  unfold R1, keydown_on. cbn [fst regs objs]. fold id.
  change (priority_of _) with (priority_of R1) at 1.
  apply sort_desc_snoc.
  pose proof sorted_on_old as Hs.
  clear -Hs. induction Hs as [|y r Hs IH Hy]; constructor; [exact IH|].
  eapply Forall_impl; [|exact Hy].
  intros z [Hz|[Hz _]]; cbv beta; [apply Qlt_le_weak; exact Hz|].
  apply Qle_lteq. right. exact Hz.
Qed.

Lemma on_ok : reg_ok R1.
Proof.
  pose proof HR as (Hnd & Hact & Hseq & Hsort).
  destruct on_fresh as [Hnone Hout]. unfold reg_ok. rewrite regs_on.
  split; [|split; [|split]].
  - assert (forall l, NoDup l -> ~ In id l ->
                      NoDup (place (priority_of R1) id l)) as Hgen.
    { induction 1 as [|y r Hy Hr IH]; intro Hx; cbn [place].
      - repeat constructor. tauto.
      - destruct (Qltb _ _).
        + constructor; [exact Hx | constructor; assumption].
        + constructor.
          * rewrite place_In. intros [->|Hin]; [apply Hx; left; reflexivity|].
            exact (Hy Hin).
          * apply IH. intro Hin. apply Hx. right. exact Hin. }
    apply Hgen; assumption.
  - intros a Ha. apply place_In in Ha. rewrite lookup_on.
    destruct Ha as [->|Ha].
    + rewrite Nat.eqb_refl. exists reg. split; reflexivity.
    + replace (Nat.eqb a id) with false.
      * apply Hact, Ha.
      * symmetry. apply Nat.eqb_neq. pose proof (old_ids a Ha). lia.
  - intros r Hr. unfold R1, keydown_on in *. cbn [fst objs seq] in *.
    apply in_app_or in Hr. destruct Hr as [Hr|[<-|[]]].
    + specialize (Hseq r Hr). lia.
    + cbn [reg_id]. lia.
  - apply place_sorted; [apply sorted_on_old|].
    apply Forall_forall. intros a Ha. apply old_ids, Ha.
Qed.

(** Calling the [off] closure right after [on] restores the list. *)
Lemma off_on_regs : regs (keydown_off id R1) = regs R.
Proof.
  cbn [regs keydown_off]. rewrite regs_on.
  apply remove_first_place. apply on_fresh.
Qed.

End Registration.

(** *** What a run does to the registry and whom it calls *)

Lemma has_handler_off id h o i R :
  has_handler id h o R -> has_handler id h o (keydown_off i R).
Proof.
  intros (r & Hl & Hh & Ho). unfold has_handler. rewrite lookup_off, Hl.
  eexists. split; [reflexivity|]. destruct (Nat.eqb id i); split; assumption.
Qed.

Lemma has_handler_offs id h o ids : forall R,
  has_handler id h o R -> has_handler id h o (offs ids R).
Proof.
  induction ids as [|i r IH]; intros R H; [exact H|].
  apply IH, has_handler_off, H.
Qed.

Lemma inactive_off id i R : inactive id R -> inactive id (keydown_off i R).
Proof.
  intros H r. rewrite lookup_off.
  destruct (lookup_reg id R) as [r0|] eqn:E; [|discriminate].
  intro Hr. injection Hr as <-. destruct (Nat.eqb id i); [reflexivity|].
  apply H. exact E.
Qed.

Lemma inactive_off_same id R : inactive id (keydown_off id R).
Proof.
  intros r. rewrite lookup_off.
  destruct (lookup_reg id R) as [r0|]; [|discriminate].
  rewrite Nat.eqb_refl. intro Hr. injection Hr as <-. reflexivity.
Qed.

Lemma inactive_offs id ids : forall R,
  inactive id R -> inactive id (offs ids R).
Proof.
  induction ids as [|i r IH]; intros R H; [exact H|].
  apply IH, inactive_off, H.
Qed.

Lemma inactive_offs_In id ids : forall R,
  In id ids -> inactive id (offs ids R).
Proof.
  induction ids as [|i r IH]; intros R H; [destruct H|].
  destruct H as [->|H].
  - apply (inactive_offs id r (keydown_off id R)), inactive_off_same.
  - apply IH, H.
Qed.

Lemma active_before_off id i R r :
  lookup_reg id (keydown_off i R) = Some r -> active r = true ->
  lookup_reg id R = Some r.
Proof.
  rewrite lookup_off. destruct (lookup_reg id R) as [r0|]; [|discriminate].
  intro H. injection H as <-. destruct (Nat.eqb id i); [discriminate|].
  reflexivity.
Qed.

Lemma active_before_offs id ids r : forall R,
  lookup_reg id (offs ids R) = Some r -> active r = true ->
  lookup_reg id R = Some r.
Proof.
  induction ids as [|i l IH]; intros R H Ha; [exact H|].
  apply (active_before_off id i); [|exact Ha]. apply IH; assumption.
Qed.

Lemma regs_offs x ids : forall R, In x (regs (offs ids R)) -> In x (regs R).
Proof.
  induction ids as [|i l IH]; intros R H; [exact H|].
  apply IH in H. exact (remove_first_In i x _ H).
Qed.

Lemma run_loop_regs x snapshot : forall R e inv,
  In x (regs (snd (fst (fst (run_loop snapshot R e inv))))) -> In x (regs R).
Proof.
  induction snapshot as [|id rest IH]; intros R e inv; [tauto|].
  cbn [run_loop].
  destruct (lookup_reg id R) as [reg|]; [|apply IH].
  destruct (negb (active reg)); [apply IH|].
  fold (offs (ho_off (handler reg e)) R).
  destruct (ho_result (handler reg e)) as [v|].
  - assert (In x (regs (if once reg
                        then keydown_off id (offs (ho_off (handler reg e)) R)
                        else offs (ho_off (handler reg e)) R)) ->
            In x (regs R)) as Hstep.
    { destruct (once reg); intro H.
      - apply remove_first_In in H. apply regs_offs in H. exact H.
      - apply regs_offs in H. exact H. }
    destruct (is_true v || defaultPrevented _).
    + exact Hstep.
    + intro H. apply IH in H. apply Hstep, H.
  - intro H. apply IH in H. apply regs_offs in H. exact H.
Qed.

(** The handlers one run calls: a sublist of the snapshot, in its order,
    each of them active when the run began. *)
Lemma run_loop_trace (P : nat -> nat -> Prop) (snapshot : list nat) :
  StronglySorted P snapshot ->
  forall R e inv,
    exists t, snd (run_loop snapshot R e inv) = inv ++ t
              /\ StronglySorted P t
              /\ forall x, In x t ->
                   In x snapshot
                   /\ exists r, lookup_reg x R = Some r /\ active r = true.
Proof.
  induction 1 as [|id rest Hs IH Hid]; intros R e inv.
  - exists []. cbn [run_loop snd]. rewrite app_nil_r.
    split; [reflexivity|]. split; [constructor | intros x []].
  - assert (forall R1 inv1,
              (forall x r, lookup_reg x R1 = Some r -> active r = true ->
                           lookup_reg x R = Some r) ->
              exists t, snd (run_loop rest R1 e inv1) = inv1 ++ t
                        /\ StronglySorted P t
                        /\ forall x, In x t ->
                             In x rest
                             /\ exists r, lookup_reg x R = Some r
                                          /\ active r = true) as Hrest.
    { intros R1 inv1 Hback. destruct (IH R1 e inv1) as (t & Ht & Hst & Hin).
      exists t. split; [exact Ht|]. split; [exact Hst|].
      intros x Hx. destruct (Hin x Hx) as [Hxr (r & Hl & Ha)].
      split; [exact Hxr|]. exists r. split; [apply Hback; assumption|exact Ha]. }
    assert (forall t, (forall x, In x t -> In x rest /\
                         exists r, lookup_reg x R = Some r /\ active r = true)
                      -> forall x, In x t -> In x (id :: rest) /\
                         exists r, lookup_reg x R = Some r /\ active r = true)
      as Hweak.
    { intros t Hin x Hx. destruct (Hin x Hx) as [H1 H2].
      split; [right; exact H1 | exact H2]. }
    cbn [run_loop].
    destruct (lookup_reg id R) as [reg|] eqn:Hreg.
    2:{ destruct (IH R e inv) as (t & Ht & Hst & Hin).
        exists t. split; [exact Ht|]. split; [exact Hst|].
        apply Hweak, Hin. }
    destruct (active reg) eqn:Hact; cbn [negb].
    2:{ destruct (IH R e inv) as (t & Ht & Hst & Hin).
        exists t. split; [exact Ht|]. split; [exact Hst|].
        apply Hweak, Hin. }
    fold (offs (ho_off (handler reg e)) R).
    assert (forall t, StronglySorted P t ->
              (forall x, In x t -> In x rest /\
                 exists r, lookup_reg x R = Some r /\ active r = true) ->
              StronglySorted P (id :: t)
              /\ forall x, In x (id :: t) -> In x (id :: rest) /\
                   exists r, lookup_reg x R = Some r /\ active r = true)
      as Hcons.
    { intros t Hst Hin. split.
      - constructor; [exact Hst|]. apply Forall_forall. intros x Hx.
        rewrite Forall_forall in Hid. apply Hid. apply (Hin x Hx).
      - intros x [<-|Hx].
        + split; [left; reflexivity|]. exists reg. split; assumption.
        + apply (Hweak t Hin x Hx). }
    assert (forall x r,
              lookup_reg x (offs (ho_off (handler reg e)) R) = Some r ->
              active r = true -> lookup_reg x R = Some r) as Hb1.
    { intros x r. apply active_before_offs. }
    destruct (ho_result (handler reg e)) as [v|].
    + destruct (is_true v || defaultPrevented _).
      * exists [id]. cbn [snd]. split; [reflexivity|].
        apply (Hcons []); [constructor | intros x []].
      * match goal with
        | |- context [run_loop rest ?R2 ?e2 ?i2] =>
            destruct (IH R2 e2 i2) as (t & Ht & Hst & Hin)
        end.
        exists (id :: t). split; [rewrite Ht, <- app_assoc; reflexivity|].
        apply Hcons; [exact Hst|].
        intros x Hx. destruct (Hin x Hx) as [Hxr (r & Hl & Ha)].
        split; [exact Hxr|]. exists r. split; [|exact Ha].
        apply Hb1; [|exact Ha].
        destruct (once reg); [|exact Hl].
        apply (active_before_off x id); assumption.
    + match goal with
      | |- context [run_loop rest ?R2 ?e2 ?i2] =>
          destruct (IH R2 e2 i2) as (t & Ht & Hst & Hin)
      end.
      exists (id :: t). split; [rewrite Ht, <- app_assoc; reflexivity|].
      apply Hcons; [exact Hst|].
      intros x Hx. destruct (Hin x Hx) as [Hxr (r & Hl & Ha)].
      split; [exact Hxr|]. exists r. split; [|exact Ha].
      apply Hb1; assumption.
Qed.

Lemma run_loop_trace_In (snapshot : list nat) (R : Registry) (e : KeyEvent)
  (inv : list nat) (x : nat) :
  In x (snd (run_loop snapshot R e inv)) -> In x inv \/ In x snapshot.
Proof.
  assert (StronglySorted (fun _ _ => True) snapshot) as Hs.
  { induction snapshot; constructor; [assumption|].
    apply Forall_forall. intros; exact I. }
  destruct (run_loop_trace _ snapshot Hs R e inv) as (t & -> & _ & Hin).
  intro H. apply in_app_or in H. destruct H as [H|H]; [left; exact H|].
  right. apply (Hin x H).
Qed.

Lemma inactive_never_called (b : nat) (snapshot : list nat) : forall R e inv,
  inactive b R -> ~ In b inv -> ~ In b (snd (run_loop snapshot R e inv)).
Proof.
  induction snapshot as [|id rest IH]; intros R e inv Hb Hinv; [exact Hinv|].
  cbn [run_loop].
  destruct (lookup_reg id R) as [reg|] eqn:Hreg; [|apply IH; assumption].
  destruct (active reg) eqn:Hact; cbn [negb]; [|apply IH; assumption].
  assert (id <> b) as Hne.
  { intros ->. specialize (Hb reg Hreg). congruence. }
  assert (~ In b (inv ++ [id])) as Hinv1.
  { intro H. apply in_app_or in H. destruct H as [H|[H|[]]]; tauto. }
  fold (offs (ho_off (handler reg e)) R).
  pose proof (inactive_offs b (ho_off (handler reg e)) R Hb) as Hb1.
  destruct (ho_result (handler reg e)) as [v|]; [|apply IH; assumption].
  destruct (is_true v || defaultPrevented _); [exact Hinv1|].
  apply IH; [|exact Hinv1].
  destruct (once reg); [apply inactive_off|]; exact Hb1.
Qed.

Lemma reg_ok_step (id : nat) (ids : list nat) (o : bool) (R : Registry) :
  reg_ok R -> reg_ok (if o then keydown_off id (offs ids R) else offs ids R).
Proof.
  intro H. destruct o; [apply off_ok|]; apply offs_ok, H.
Qed.

Lemma once_loop (id : nat) (h : KeyEvent -> HandlerOutcome)
  (Hh : forall e, ho_result (h e) <> Throws) (snapshot : list nat) :
  forall R e inv,
    reg_ok R -> has_handler id h true R ->
    In id (snd (run_loop snapshot R e inv)) -> ~ In id inv ->
    ~ In id (regs (snd (fst (fst (run_loop snapshot R e inv))))).
Proof.
  induction snapshot as [|id0 rest IH]; intros R e inv Hok Hid Htr Hinv.
  - exfalso. exact (Hinv Htr).
  - cbn [run_loop] in *.
    destruct (lookup_reg id0 R) as [reg|] eqn:Hreg; [|apply IH; assumption].
    destruct (active reg) eqn:Hact; cbn [negb] in *; [|apply IH; assumption].
    fold (offs (ho_off (handler reg e)) R) in *.
    pose proof (offs_ok (ho_off (handler reg e)) R Hok) as Hok1.
    pose proof (has_handler_offs id h true (ho_off (handler reg e)) R Hid)
      as Hid1.
    destruct (Nat.eq_dec id0 id) as [->|Hne].
    + destruct Hid as (r & Hl & Hrh & Hro).
      assert (r = reg) by congruence. subst r.
      destruct (ho_result (handler reg e)) as [v|] eqn:Hres.
      2:{ exfalso. apply (Hh e). rewrite <- Hrh. exact Hres. }
      rewrite Hro in *.
      assert (~ In id (regs (keydown_off id
                                (offs (ho_off (handler reg e)) R)))) as Hout.
      { destruct Hok1 as (Hnd & _).
        apply (remove_first_NoDup id _ Hnd). }
      destruct (is_true v || defaultPrevented _); [exact Hout|].
      intro H. apply run_loop_regs in H. exact (Hout H).
    + assert (~ In id (inv ++ [id0])) as Hinv1.
      { intro H. apply in_app_or in H. destruct H as [H|[H|[]]]; tauto. }
      destruct (ho_result (handler reg e)) as [v|];
        [|apply IH; assumption].
      destruct (is_true v || defaultPrevented _).
      * exfalso. exact (Hinv1 Htr).
      * apply IH; [apply reg_ok_step, Hok | | exact Htr | exact Hinv1].
        destruct (once reg); [apply has_handler_off|]; exact Hid1.
Qed.

Lemma off_loop (a b : nat) (h : KeyEvent -> HandlerOutcome)
  (Hh : forall e, In b (ho_off (h e))) (l1 : list nat) :
  forall l2 R e inv,
    NoDup (l1 ++ a :: l2) -> In b l2 ->
    has_handler a h (match lookup_reg a R with
                     | Some r => once r | None => false end) R ->
    ~ In a inv -> ~ In b inv ->
    In a (snd (run_loop (l1 ++ a :: l2) R e inv)) ->
    ~ In b (snd (run_loop (l1 ++ a :: l2) R e inv)).
Proof.
  induction l1 as [|id0 l1 IH]; intros l2 R e inv Hnd Hb Ha Hia Hib Htr.
  - cbn [app] in *. inversion Hnd as [|? ? Hal2 Hnd2]; subst.
    assert (a <> b) as Hab by (intros ->; exact (Hal2 Hb)).
    cbn [run_loop] in *. destruct Ha as (r & Hl & Hrh & _).
    rewrite Hl in *.
    destruct (active r) eqn:Hact; cbn [negb] in *.
    2:{ exfalso. apply run_loop_trace_In in Htr. tauto. }
    fold (offs (ho_off (handler r e)) R) in *.
    assert (inactive b (offs (ho_off (handler r e)) R)) as Hb1.
    { apply inactive_offs_In. rewrite Hrh. apply Hh. }
    assert (~ In b (inv ++ [a])) as Hinv1.
    { intro H. apply in_app_or in H. destruct H as [H|[H|[]]]; tauto. }
    destruct (ho_result (handler r e)) as [v|];
      [|apply inactive_never_called; assumption].
    destruct (is_true v || defaultPrevented _); [exact Hinv1|].
    apply inactive_never_called; [|exact Hinv1].
    destruct (once r); [apply inactive_off|]; exact Hb1.
  - cbn [app] in *. inversion Hnd as [|? ? Hid0 Hnd2]; subst.
    assert (id0 <> a) as Hne.
    { intros ->. apply Hid0, in_or_app. right. left. reflexivity. }
    assert (id0 <> b) as Hneb.
    { intros ->. apply Hid0, in_or_app. right. right. exact Hb. }
    cbn [run_loop] in *.
    destruct (lookup_reg id0 R) as [reg|] eqn:Hreg; [|apply IH; assumption].
    destruct (active reg) eqn:Hact; cbn [negb] in *; [|apply IH; assumption].
    fold (offs (ho_off (handler reg e)) R) in *.
    assert (~ In a (inv ++ [id0])) as Hia1.
    { intro H. apply in_app_or in H. destruct H as [H|[H|[]]]; tauto. }
    assert (~ In b (inv ++ [id0])) as Hib1.
    { intro H. apply in_app_or in H. destruct H as [H|[H|[]]]; tauto. }
    assert (forall R1, has_handler a h
                         (match lookup_reg a R with
                          | Some r => once r | None => false end) R1 ->
                       has_handler a h
                         (match lookup_reg a R1 with
                          | Some r => once r | None => false end) R1) as Hfix.
    { intros R1 (r & Hl & Hrh & Hro). exists r. rewrite Hl.
      repeat split; assumption. }
    pose proof (has_handler_offs a h _ (ho_off (handler reg e)) R Ha) as Ha1.
    destruct (ho_result (handler reg e)) as [v|].
    + destruct (is_true v || defaultPrevented _).
      * exfalso. exact (Hia1 Htr).
      * apply IH; try assumption. apply Hfix.
        destruct (once reg); [apply has_handler_off|]; exact Ha1.
    + apply IH; try assumption. apply Hfix, Ha1.
Qed.

Lemma empty_ok : reg_ok emptyRegistry.
Proof.
  split; [constructor|]. split; [intros id []|].
  split; [intros reg []|constructor].
Qed.

Lemma reg_exec_ok (op : RegOp) (R : Registry) :
  reg_ok R -> reg_ok (reg_exec op R).
Proof.
  intro H. destruct op as [h p o|id|e|]; cbn [reg_exec].
  - apply on_ok, H.
  - apply off_ok, H.
  - apply run_loop_ok, H.
  - apply clear_ok, H.
Qed.


Lemma before_irrefl (R : Registry) (a : nat) : ~ before R a a.
Proof.
  intros [H|[_ H]]; [exact (Qlt_irrefl _ H) | lia].
Qed.

Lemma sorted_NoDup (R : Registry) (l : list nat) :
  StronglySorted (before R) l -> NoDup l.
Proof.
  induction 1 as [|y r Hs IH Hy]; constructor; [|exact IH].
  intro Hin. rewrite Forall_forall in Hy.
  exact (before_irrefl R y (Hy y Hin)).
Qed.


(** X18.  Dispatch. One [run] calls handlers in dispatch order, each at most
    once, and only handlers that were registered and active when it began. *)
Theorem run_calls_in_dispatch_order (R : Registry) (e : KeyEvent) :
  reg_ok R ->
  let called := snd (run e R) in
  StronglySorted (before R) called
  /\ NoDup called
  /\ forall id, In id called ->
       In id (regs R)
       /\ exists reg, lookup_reg id R = Some reg /\ active reg = true.
Proof.
  intros (_ & _ & _ & Hs). unfold run.
  destruct (run_loop_trace (before R) (regs R) Hs R e []) as (t & Ht & Hst & Hin).
  cbn [app] in Ht. cbv zeta. rewrite Ht.
  split; [exact Hst|]. split; [exact (sorted_NoDup R t Hst) | exact Hin].
Qed.

Lemma run_calls_in_dispatch_order_witness :
  reg_ok throwing_then_quiet
  /\ snd (run escapeKey throwing_then_quiet) = [1; 2]%nat
  /\ StronglySorted (before throwing_then_quiet)
       (snd (run escapeKey throwing_then_quiet)).
Proof.
  split; [apply on_ok, on_ok, empty_ok|]. split; [reflexivity|].
  apply (run_calls_in_dispatch_order throwing_then_quiet escapeKey).
  apply on_ok, on_ok, empty_ok.
Defined.

(** X19.  [once]. A handler registered with [once: true] that does not throw
    is removed by the run that calls it, and no later run calls it. *)
Theorem once_handler_called_once (R : Registry) (e : KeyEvent) (id : nat)
  (reg : KeydownReg) :
  reg_ok R ->
  lookup_reg id R = Some reg -> once reg = true ->
  (forall e1, ho_result (handler reg e1) <> Throws) ->
  In id (snd (run e R)) ->
  let R1 := snd (fst (fst (run e R))) in
  ~ In id (regs R1) /\ forall e2, ~ In id (snd (run e2 R1)).
Proof.
  intros Hok Hl Ho Hh Htr.
  assert (~ In id (regs (snd (fst (fst (run e R)))))) as Hout.
  { apply (once_loop id (handler reg) Hh (regs R) R e []);
      [exact Hok | | exact Htr | intros []].
    exists reg. repeat split; assumption. }
  split; [exact Hout|]. intros e2 H. unfold run at 1 in H.
  apply run_loop_trace_In in H. destruct H as [[]|H]. exact (Hout H).
Qed.

Lemma once_handler_called_once_witness :
  reg_ok quiet_once
  /\ snd (run escapeKey quiet_once) = [1%nat]
  /\ ~ In 1%nat (regs (snd (fst (fst (run escapeKey quiet_once))))).
Proof.
  assert (reg_ok quiet_once) as Hok by apply on_ok, empty_ok.
  split; [exact Hok|]. split; [reflexivity|].
  apply (once_handler_called_once quiet_once escapeKey 1
           (mkReg 1 quiet 0 true true) Hok eq_refl eq_refl).
  - intros e1. discriminate.
  - left. reflexivity.
Defined.

(** X20.  Snapshot. When a handler that is called unregisters a registration
    that comes after it in the list, that registration is not called in the
    same run, although the run iterates over a copy of the list made before. *)
Theorem off_during_run_skips (R : Registry) (e : KeyEvent) (a b : nat)
  (ra : KeydownReg) (l1 l2 : list nat) :
  reg_ok R ->
  regs R = l1 ++ a :: l2 -> In b l2 ->
  lookup_reg a R = Some ra ->
  (forall e1, In b (ho_off (handler ra e1))) ->
  In a (snd (run e R)) ->
  ~ In b (snd (run e R)).
Proof.
  intros (Hnd & _) Hregs Hb Hl Hoff Htr. unfold run in *.
  rewrite Hregs in *.
  apply (off_loop a b (handler ra) Hoff l1 l2 R e []);
    [exact Hnd | exact Hb | | intros [] | intros [] | exact Htr].
  exists ra. rewrite Hl. repeat split.
Qed.

Lemma off_during_run_skips_witness :
  reg_ok unhooking_then_quiet
  /\ regs unhooking_then_quiet = [1; 2]%nat
  /\ snd (run escapeKey unhooking_then_quiet) = [1%nat]
  /\ ~ In 2%nat (snd (run escapeKey unhooking_then_quiet)).
Proof.
  assert (reg_ok unhooking_then_quiet) as Hok by apply on_ok, on_ok, empty_ok.
  split; [exact Hok|]. split; [reflexivity|]. split; [reflexivity|].
  apply (off_during_run_skips unhooking_then_quiet escapeKey 1 2
           (mkReg 1 (unhooking 2) 10 false true) [] [2%nat] Hok eq_refl).
  - left. reflexivity.
  - reflexivity.
  - intros e1. left. reflexivity.
  - left. reflexivity.
Defined.

Lemma place_split (prio : nat -> Q) (x : nat) (l : list nat) :
  StronglySorted (fun a b => prio b <= prio a) l ->
  exists l1 l2, l = l1 ++ l2 /\ place prio x l = l1 ++ x :: l2
                /\ Forall (fun y => prio x <= prio y) l1
                /\ Forall (fun y => prio y < prio x) l2.
Proof.
  induction 1 as [|y r Hs IH Hy]; cbn [place].
  - exists [], []. repeat split; constructor.
  - destruct (Qltb (prio y) (prio x)) eqn:E.
    + apply Qltb_lt in E. exists [], (y :: r).
      split; [reflexivity|]. split; [reflexivity|]. split; [constructor|].
      constructor; [exact E|]. eapply Forall_impl; [|exact Hy].
      intros z Hz. cbv beta in Hz. lra.
    + apply Qltb_ge in E. destruct IH as (l1 & l2 & -> & -> & H1 & H2).
      exists (y :: l1), l2. split; [reflexivity|]. split; [reflexivity|].
      split; [constructor; assumption | exact H2].
Qed.

(** X21.  Registration. [on] puts the new handler after every registered
    handler of the same or a higher priority and before every one of a lower
    priority; the handlers already registered keep their order. Its id is
    the next sequence number. *)
Theorem on_inserts_by_priority (R : Registry)
  (h : KeyEvent -> HandlerOutcome) (prio : option Q) (onceOpt : option bool) :
  reg_ok R ->
  let p := match prio with Some p => p | None => 0 end in
  let R1 := fst (keydown_on h prio onceOpt R) in
  let id := snd (keydown_on h prio onceOpt R) in
  id = S (seq R)
  /\ exists l1 l2,
       regs R = l1 ++ l2 /\ regs R1 = l1 ++ id :: l2
       /\ (forall y, In y l1 -> p <= priority_of R y)
       /\ (forall y, In y l2 -> priority_of R y < p).
Proof.
  intros HR p R1 id. split; [reflexivity|].
  pose proof (regs_on R h prio onceOpt HR) as Hregs.
  pose proof (sorted_on_old R h prio onceOpt HR) as Hs.
  fold R1 in Hregs, Hs.
  assert (StronglySorted
            (fun a b => priority_of R1 b <= priority_of R1 a) (regs R)) as Hw.
  { clear -Hs. induction Hs as [|y r Hs IH Hy]; constructor; [exact IH|].
    eapply Forall_impl; [|exact Hy].
    intros z [Hz|[Hz _]]; cbv beta; [apply Qlt_le_weak; exact Hz|].
    apply Qle_lteq. right. exact Hz. }
  destruct (place_split (priority_of R1) (S (seq R)) (regs R) Hw)
    as (l1 & l2 & Hl & Hp & H1 & H2).
  assert (priority_of R1 (S (seq R)) == p) as Hnew.
  { unfold priority_of. unfold R1. rewrite (lookup_on R h prio onceOpt HR).
    rewrite Nat.eqb_refl. reflexivity. }
  assert (forall y, In y (regs R) -> priority_of R1 y = priority_of R y)
    as Hold.
  { intros y Hy. apply (priority_on R h prio onceOpt HR).
    pose proof (old_ids R HR y Hy). lia. }
  exists l1, l2. split; [exact Hl|].
  split; [rewrite Hregs; exact Hp|]. rewrite Forall_forall in H1, H2. split.
  - intros y Hy. rewrite <- Hold, <- Hnew; [apply H1, Hy|].
    rewrite Hl. apply in_or_app. left. exact Hy.
  - intros y Hy. rewrite <- Hold, <- Hnew; [apply H2, Hy|].
    rewrite Hl. apply in_or_app. right. exact Hy.
Qed.

Lemma on_inserts_by_priority_witness :
  reg_ok only_throwing
  /\ regs (fst (keydown_on quiet (Some 10) None only_throwing)) = [1; 2]%nat
  /\ regs (fst (keydown_on quiet (Some 11) None only_throwing)) = [2; 1]%nat
  /\ snd (keydown_on quiet (Some 10) None only_throwing) = 2%nat.
Proof.
  assert (reg_ok only_throwing) as Hok by apply on_ok, empty_ok.
  split; [exact Hok|]. split; [reflexivity|]. split; [reflexivity|].
  apply (on_inserts_by_priority only_throwing quiet (Some 10) None Hok).
Defined.

(** X22.  Unregistering. Calling the closure returned by [on] removes
    exactly that registration: right after [on] the list is what it was
    before, and once unregistered (at any later moment) the handler is in
    the list no more and no run calls it. *)
Theorem off_removes_registration (R : Registry)
  (h : KeyEvent -> HandlerOutcome) (prio : option Q) (onceOpt : option bool) :
  reg_ok R ->
  let R1 := fst (keydown_on h prio onceOpt R) in
  let id := snd (keydown_on h prio onceOpt R) in
  In id (regs R1)
  /\ regs (keydown_off id R1) = regs R
  /\ forall ops e,
       let R2 := fold_left (fun R op => reg_exec op R) ops R1 in
       ~ In id (regs (keydown_off id R2))
       /\ ~ In id (snd (run e (keydown_off id R2))).
Proof.
  intros HR R1 id.
  split.
  { unfold R1. rewrite (regs_on R h prio onceOpt HR). apply place_In.
    left. reflexivity. }
  split; [apply (off_on_regs R h prio onceOpt HR)|].
  intros ops e R2.
  assert (reg_ok R2) as Hok2.
  { unfold R2. generalize (on_ok R h prio onceOpt HR). fold R1.
    generalize R1. induction ops as [|op r IH]; intros R0 H0; [exact H0|].
    cbn [fold_left]. apply IH, reg_exec_ok, H0. }
  assert (~ In id (regs (keydown_off id R2))) as Hout.
  { destruct Hok2 as (Hnd & _). apply (remove_first_NoDup id _ Hnd). }
  split; [exact Hout|]. intro H. unfold run in H.
  apply run_loop_trace_In in H. destruct H as [[]|H]. exact (Hout H).
Qed.

Lemma off_removes_registration_witness :
  reg_ok only_throwing
  /\ regs (fst (keydown_on quiet (Some 11) None only_throwing)) = [2; 1]%nat
  /\ regs (keydown_off 2 (fst (keydown_on quiet (Some 11) None only_throwing)))
     = regs only_throwing.
Proof.
  assert (reg_ok only_throwing) as Hok by apply on_ok, empty_ok.
  split; [exact Hok|]. split; [reflexivity|].
  apply (off_removes_registration only_throwing quiet (Some 11) None Hok).
Defined.

(** ** Gestures: which input starts a drag *)

Section GestureFacts.

Variable cfg : Config.
Variable opts : InputOptions.
Variable angleDeg : Q -> Q -> Q.

(** With no press pending and no drag active, moves and releases do
    nothing. *)
Lemma idle_fixed (op : Op) (c : Z) (g : Gesture) :
  preDrag (sheet g) = false -> dragging (sheet g) = false ->
  is_follow op = true ->
  exec cfg opts angleDeg op (c, g) = Some (c, g).
Proof.
  intros Hp Hd Hop. destruct op; try discriminate Hop; cbn [exec fst snd].
  - unfold onPointerMove. rewrite Hp, Hd. reflexivity.
  - unfold onPointerUp, endDragG. rewrite Hd.
    destruct (isActivePointer e g); reflexivity.
  - unfold onTouchMove. rewrite Hp, Hd.
    destruct (supportsPointer g); reflexivity.
  - unfold onTouchEnd, endDragG. rewrite Hd.
    destruct (negb (supportsPointer g)); reflexivity.
  - unfold onMouseMove. rewrite Hp, Hd. reflexivity.
  - unfold onMouseUp, endDragG. rewrite Hd. reflexivity.
Qed.

Lemma idle_fixed_all (ops : list Op) (c : Z) (g : Gesture) :
  preDrag (sheet g) = false -> dragging (sheet g) = false ->
  forallb is_follow ops = true ->
  exec_all cfg opts angleDeg ops (c, g) = Some (c, g).
Proof.
  intros Hp Hd. induction ops as [|op r IH]; intro H; [reflexivity|].
  cbn [forallb] in H. apply andb_true_iff in H. destruct H as [H1 H2].
  cbn [exec_all]. rewrite (idle_fixed op c g Hp Hd H1). apply IH, H2.
Qed.

(** X23.  Axis lock, horizontal. When the first move that leaves the
    threshold square is closer to the horizontal than the lock angle, the
    gesture is locked to the x axis: no drag starts, the sheet does not move
    and emits nothing, and every later move and the release are ignored. *)
Theorem horizontal_lock_ignores_gesture (e : PointerEv) (now : Q) (c : Z)
  (g : Gesture) (ops : list Op) :
  preDrag (sheet g) = true -> axisLocked (sheet g) = None ->
  dragging (sheet g) = false ->
  let dx := Qabs (clientX e - startX g) in
  let dy := Qabs (clientY e - startY (sheet g)) in
  axisLockThresholdPx opts <= dx \/ axisLockThresholdPx opts <= dy ->
  angleDeg dy dx < 90 - axisLockAngleDeg opts ->
  forallb is_follow ops = true ->
  let g1 := onPointerMove cfg opts angleDeg e now g in
  axisLocked (sheet g1) = Some AxisX
  /\ dragging (sheet g1) = false
  /\ events (sheet g1) = events (sheet g)
  /\ translateY (sheet g1) = translateY (sheet g)
  /\ exec_all cfg opts angleDeg ops (c, g1) = Some (c, g1).
Proof.
  intros Hp Ha Hd dx dy Hthr Hang Hops g1.
  assert (g1 = with_sheet (fun s1 => set_preDrag false
                                       (set_axisLocked (Some AxisX) s1)) g)
    as Hg1.
  { unfold g1, onPointerMove, evaluateAxisLock. rewrite Hp, Ha.
    cbn [negb orb]. fold dx dy.
    replace (Qltb dx (axisLockThresholdPx opts)
             && Qltb dy (axisLockThresholdPx opts)) with false.
    2:{ symmetry. apply andb_false_iff.
        destruct Hthr as [H|H]; [left|right]; apply Qltb_ge; exact H. }
    replace (Qle_bool (90 - axisLockAngleDeg opts) (angleDeg dy dx))
      with false.
    2:{ symmetry. apply not_true_iff_false. intro H.
        apply Qle_bool_iff in H. lra. }
    gesture_fields. rewrite Hd. reflexivity. }
  rewrite Hg1. gesture_fields.
  split; [reflexivity|]. split; [exact Hd|]. split; [reflexivity|].
  split; [reflexivity|].
  apply idle_fixed_all; [reflexivity | exact Hd | exact Hops].
Qed.

Lemma evaluate_scroll_held (el : nat) (x y now : Q) (g : Gesture) :
  scroll_held el g -> startY (sheet g) < y ->
  scroll_held el (evaluateAxisLock opts angleDeg x y now g)
  /\ untouched g (evaluateAxisLock opts angleDeg x y now g).
Proof.
  intros (Hd & Hin & Hel & Htop & Hnow) Hy. unfold evaluateAxisLock.
  assert (scroll_held el g /\ untouched g g) as Hsame
    by (repeat split; assumption).
  destruct (negb (preDrag (sheet g)) || _); [exact Hsame|].
  destruct (_ && _); [exact Hsame|].
  destruct (Qle_bool _ _).
  - rewrite Hin, Hel, Htop, Hnow.
    replace (Qltb (y - startY (sheet g)) 0) with false
      by (symmetry; apply Qltb_ge; lra).
    rewrite !andb_false_r. cbn [orb andb].
    unfold scroll_held, untouched. gesture_fields.
    repeat split; assumption.
  - unfold scroll_held, untouched. gesture_fields.
    repeat split; assumption.
Qed.

Lemma step_scroll_held (el : nat) (op : Op) (c : Z) (g : Gesture) :
  scroll_held el g -> pulls_down (startY (sheet g)) op ->
  exists g1, exec cfg opts angleDeg op (c, g) = Some (c, g1)
             /\ scroll_held el g1 /\ untouched g g1.
Proof.
  intros Hg Hop.
  assert (scroll_held el g /\ untouched g g) as Hsame
    by (repeat split; apply Hg).
  assert (forall x y now,
             startY (sheet g) < y ->
             let g1 := if preDrag (sheet g)
                       then evaluateAxisLock opts angleDeg x y now g else g in
             (scroll_held el g1 /\ untouched g g1)
             /\ dragging (sheet g1) = false) as Hmove.
  { intros x y now Hy g1.
    assert (scroll_held el g1 /\ untouched g g1) as H1.
    { unfold g1. destruct (preDrag (sheet g)); [|exact Hsame].
      apply evaluate_scroll_held; assumption. }
    split; [exact H1 | apply H1]. }
  assert (endDragG cfg g = g) as Hend.
  { unfold endDragG. destruct Hg as (-> & _). reflexivity. }
  destruct op; try contradiction Hop; cbn [exec fst snd pulls_down] in *.
  - destruct (Hmove (clientX e) (clientY e) now Hop) as [H1 H2].
    eexists. split; [reflexivity|]. unfold onPointerMove. rewrite H2.
    exact H1.
  - eexists. split; [reflexivity|]. unfold onPointerUp. rewrite Hend.
    destruct (isActivePointer e g); exact Hsame.
  - destruct (Hmove (touchX e) (touchY e) now Hop) as [H1 H2].
    eexists. split; [reflexivity|]. unfold onTouchMove.
    destruct (supportsPointer g); [exact Hsame|]. rewrite H2. exact H1.
  - eexists. split; [reflexivity|]. unfold onTouchEnd. rewrite Hend.
    destruct (negb (supportsPointer g)); exact Hsame.
  - destruct (Hmove (clientX e) (clientY e) now Hop) as [H1 H2].
    eexists. split; [reflexivity|]. unfold onMouseMove. rewrite H2.
    exact H1.
  - eexists. split; [reflexivity|]. unfold onMouseUp. rewrite Hend.
    exact Hsame.
Qed.

(** X24.  Scroll arbitration. After a press inside a scrollable region whose
    content is not at the top, pulling down never starts a drag, however far
    and in whatever direction the pointer moves below the press point: no
    drag event is emitted and the sheet stays where it is. *)
Theorem scroll_region_blocks_pull_down (el : nat) (c : Z) (g : Gesture)
  (ops : list Op) :
  scroll_held el g ->
  Forall (pulls_down (startY (sheet g))) ops ->
  exists g1, exec_all cfg opts angleDeg ops (c, g) = Some (c, g1)
             /\ dragging (sheet g1) = false
             /\ events (sheet g1) = events (sheet g)
             /\ translateY (sheet g1) = translateY (sheet g)
             /\ isOpen (sheet g1) = isOpen (sheet g).
Proof.
  intros Hg Hops.
  assert (exists g1, exec_all cfg opts angleDeg ops (c, g) = Some (c, g1)
                     /\ scroll_held el g1 /\ untouched g g1) as H.
  { revert g Hg Hops. induction ops as [|op r IH]; intros g Hg Hops.
    - exists g. repeat split; apply Hg.
    - inversion Hops as [|? ? Hop Hr]; subst.
      destruct (step_scroll_held el op c g Hg Hop) as (g1 & E & Hg1 & Hu).
      destruct Hu as (U1 & U2 & U3 & U4).
      rewrite <- U3 in Hr.
      destruct (IH g1 Hg1 Hr) as (g2 & E2 & Hg2 & V1 & V2 & V3 & V4).
      exists g2. cbn [exec_all]. rewrite E. split; [exact E2|].
      split; [exact Hg2|]. unfold untouched.
      rewrite V1, V2, V3, V4. repeat split; assumption. }
  destruct H as (g1 & E & (Hd & _) & U1 & U2 & _ & U4).
  exists g1. repeat split; assumption.
Qed.

Lemma rubberBand_within (h dy : Q) :
  0 <= dy -> dy <= h -> rubberBand cfg h dy = (0, dy).
Proof.
  intros H0 Hh. unfold rubberBand.
  replace (Qltb dy 0) with false by (symmetry; apply Qltb_ge; exact H0).
  replace (Qltb h dy) with false by (symmetry; apply Qltb_ge; exact Hh).
  rewrite andb_false_r. reflexivity.
Qed.

(** What [moveDrag] leaves alone. *)
Lemma moveDrag_frame (y now : Q) (s : Sheet) :
  dragging (moveDrag cfg y now s) = dragging s
  /\ preDrag (moveDrag cfg y now s) = preDrag s
  /\ activePointerId (moveDrag cfg y now s) = activePointerId s
  /\ startY (moveDrag cfg y now s) = startY s
  /\ sheetHeight (moveDrag cfg y now s) = sheetHeight s
  /\ innerHeight (moveDrag cfg y now s) = innerHeight s
  /\ axisLocked (moveDrag cfg y now s) = axisLocked s.
Proof.
  unfold moveDrag. destruct (negb (dragging s)); [repeat split|].
  destruct (rubberBand _ _ _) as [ou dy1]. repeat split.
Qed.

Lemma moveDrag_events (y now : Q) (s : Sheet) :
  dragging s = true ->
  events (moveDrag cfg y now s)
  = events s ++ [EvDrag (translateY (moveDrag cfg y now s))
                        (dragProgress (moveDrag cfg y now s))].
Proof.
  intro Hd. unfold moveDrag. rewrite Hd. cbv [negb].
  destruct (rubberBand _ _ _) as [ou dy1]. reflexivity.
Qed.

Lemma lock_vertical (x y now : Q) (g : Gesture) :
  preDrag (sheet g) = true -> axisLocked (sheet g) = None ->
  let dx := Qabs (x - startX g) in
  let dy := y - startY (sheet g) in
  axisLockThresholdPx opts <= dx \/ axisLockThresholdPx opts <= Qabs dy ->
  90 - axisLockAngleDeg opts <= angleDeg (Qabs dy) dx ->
  (inScroll (sheet g) = false
   \/ originScrollEl g = None
   \/ exists el, originScrollEl g = Some el /\ 0 < dy
                 /\ (startAtTop g = true \/ atTop (dom g el) = true)) ->
  evaluateAxisLock opts angleDeg x y now g = begin_drag y now g.
Proof.
  intros Hp Ha dx dy Hthr Hang Hfree.
  unfold evaluateAxisLock, begin_drag. rewrite Hp, Ha. cbn [negb orb].
  fold dx dy.
  replace (Qltb dx (axisLockThresholdPx opts)
           && Qltb (Qabs dy) (axisLockThresholdPx opts)) with false.
  2:{ symmetry. apply andb_false_iff.
      destruct Hthr as [H|H]; [left|right]; apply Qltb_ge; exact H. }
  replace (Qle_bool (90 - axisLockAngleDeg opts) (angleDeg (Qabs dy) dx))
    with true by (symmetry; apply Qle_bool_iff; exact Hang).
  destruct Hfree as [Hin|[Hel|(el & Hel & Hpos & Htop)]].
  - rewrite Hin. reflexivity.
  - rewrite Hel. destruct (inScroll (sheet g)); reflexivity.
  - rewrite Hel. destruct (inScroll (sheet g)); [|reflexivity].
    replace (Qltb 0 dy) with true by (symmetry; apply Qltb_lt; exact Hpos).
    replace (startAtTop g || atTop (dom g el)) with true;
      [reflexivity|].
    symmetry. apply orb_true_iff. exact Htop.
Qed.

(** X25.  Axis lock, vertical. When the first move that leaves the threshold
    square is within the lock angle of the vertical, and the press was
    outside a scrollable region or the region allows it (pulling down with
    the content at the top), the drag starts with that move: [dragStart] is
    emitted, then the sheet follows the pointer, its offset being the
    distance from the press point while that lies within the sheet height. *)
Theorem vertical_lock_starts_drag (e : PointerEv) (now : Q) (g : Gesture) :
  preDrag (sheet g) = true -> axisLocked (sheet g) = None ->
  dragging (sheet g) = false ->
  activePointerId (sheet g) = Some (pointerId e) ->
  let dx := Qabs (clientX e - startX g) in
  let dy := clientY e - startY (sheet g) in
  axisLockThresholdPx opts <= dx \/ axisLockThresholdPx opts <= Qabs dy ->
  90 - axisLockAngleDeg opts <= angleDeg (Qabs dy) dx ->
  (inScroll (sheet g) = false
   \/ originScrollEl g = None
   \/ exists el, originScrollEl g = Some el /\ 0 < dy
                 /\ (startAtTop g = true \/ atTop (dom g el) = true)) ->
  0 <= dy <= offsetHeight_or 0 (sheet g) ->
  let g1 := onPointerMove cfg opts angleDeg e now g in
  dragging (sheet g1) = true
  /\ axisLocked (sheet g1) = Some AxisY
  /\ preDrag (sheet g1) = false
  /\ translateY (sheet g1) == dy
  /\ overUp (sheet g1) == 0
  /\ events (sheet g1)
     = events (sheet g)
       ++ [EvDragStart;
           EvDrag (translateY (sheet g1)) (dragProgress (sheet g1))].
Proof.
  intros Hp Ha Hd Hid dx dy Hthr Hang Hfree Hdy g1.
  set (begin := begin_drag (clientY e) now g).
  assert (evaluateAxisLock opts angleDeg (clientX e) (clientY e) now g = begin)
    as Hlock by (apply lock_vertical; assumption).
  assert (g1 = with_sheet (moveDrag cfg (clientY e) now) begin) as Hg1.
  { unfold g1, onPointerMove. rewrite Hp, Hlock.
    unfold isActivePointer, begin, begin_drag. gesture_fields.
    rewrite Hid, Z.eqb_refl. reflexivity. }
  assert (dragging (sheet begin) = true) as Hdb by reflexivity.
  destruct (moveDrag_frame (clientY e) now (sheet begin))
    as (F1 & F2 & _ & _ & _ & _ & F7).
  destruct (moveDrag_fields cfg (clientY e) now (sheet begin) Hdb)
    as (M1 & M2 & _).
  pose proof (moveDrag_events (clientY e) now (sheet begin) Hdb) as Hev.
  change (startY (sheet begin)) with (startY (sheet g)) in M1, M2.
  change (offsetHeight_or 0 (sheet begin))
    with (offsetHeight_or 0 (sheet g)) in M1, M2.
  fold dy in M1, M2.
  rewrite (rubberBand_within _ dy (proj1 Hdy) (proj2 Hdy)) in M1, M2.
  cbv [fst snd] in M1, M2.
  rewrite Hg1. cbn [sheet with_sheet].
  split; [rewrite F1; exact Hdb|]. split; [rewrite F7; reflexivity|].
  split; [rewrite F2; reflexivity|].
  split; [rewrite M1; apply Q.max_r; apply Hdy|].
  split; [rewrite M2; reflexivity|].
  rewrite Hev. change (events (sheet begin))
    with (events (sheet g) ++ [EvDragStart]).
  rewrite <- app_assoc. reflexivity.
Qed.

(** During a drag a move of the active pointer is [moveDrag], and a move
    of another pointer is ignored. *)
Lemma move_while_dragging (e : PointerEv) (now : Q) (g : Gesture) :
  dragging (sheet g) = true -> preDrag (sheet g) = false ->
  onPointerMove cfg opts angleDeg e now g
  = if isActivePointer e g
    then with_sheet (moveDrag cfg (clientY e) now) g else g.
Proof.
  intros Hd Hp. unfold onPointerMove. rewrite Hp, Hd. reflexivity.
Qed.

Lemma pointerMoves_frame (ms : list (PointerEv * Q)) : forall g,
  dragging (sheet g) = true -> preDrag (sheet g) = false ->
  let g1 := pointerMoves cfg opts angleDeg ms g in
  dragging (sheet g1) = true /\ preDrag (sheet g1) = false
  /\ activePointerId (sheet g1) = activePointerId (sheet g)
  /\ startY (sheet g1) = startY (sheet g)
  /\ sheetHeight (sheet g1) = sheetHeight (sheet g).
Proof.
  induction ms as [|[e now] r IH]; intros g Hd Hp; [repeat split; assumption|].
  cbn [pointerMoves fold_left fst snd].
  rewrite (move_while_dragging e now g Hd Hp).
  destruct (isActivePointer e g); [|apply IH; assumption].
  destruct (moveDrag_frame (clientY e) now (sheet g))
    as (F1 & F2 & F3 & F4 & F5 & _).
  destruct (IH (with_sheet (moveDrag cfg (clientY e) now) g))
    as (G1 & G2 & G3 & G4 & G5).
  - cbn [sheet with_sheet]. rewrite F1. exact Hd.
  - cbn [sheet with_sheet]. rewrite F2. exact Hp.
  - cbn [sheet with_sheet] in *. unfold pointerMoves in *.
    rewrite G3, G4, G5, F3, F4, F5. repeat split; assumption.
Qed.

(** X26.  The offset of a drag depends on where the pointer is, not on how
    it got there: after any moves, of this pointer or of others, a move of
    the active pointer sets the offset and the upward overdrag that the same
    move would have set as the first one of the drag. *)
Theorem drag_offset_ignores_path (ms : list (PointerEv * Q)) (e : PointerEv)
  (now : Q) (g : Gesture) :
  dragging (sheet g) = true -> preDrag (sheet g) = false ->
  activePointerId (sheet g) = Some (pointerId e) ->
  let g1 := onPointerMove cfg opts angleDeg e now
              (pointerMoves cfg opts angleDeg ms g) in
  let direct := moveDrag cfg (clientY e) now (sheet g) in
  dragging (sheet g1) = true
  /\ translateY (sheet g1) = translateY direct
  /\ overUp (sheet g1) = overUp direct.
Proof.
  intros Hd Hp Hid g1 direct.
  destruct (pointerMoves_frame ms g Hd Hp) as (G1 & G2 & G3 & G4 & G5).
  set (g0 := pointerMoves cfg opts angleDeg ms g) in *.
  assert (g1 = with_sheet (moveDrag cfg (clientY e) now) g0) as Hg1.
  { unfold g1. rewrite (move_while_dragging e now g0 G1 G2).
    unfold isActivePointer. rewrite G3, Hid, Z.eqb_refl. reflexivity. }
  destruct (moveDrag_fields cfg (clientY e) now (sheet g0) G1)
    as (M1 & M2 & _).
  destruct (moveDrag_fields cfg (clientY e) now (sheet g) Hd)
    as (N1 & N2 & _).
  destruct (moveDrag_frame (clientY e) now (sheet g0)) as (F1 & _).
  assert (offsetHeight_or 0 (sheet g0) = offsetHeight_or 0 (sheet g)) as Hh.
  { unfold offsetHeight_or. rewrite G5. reflexivity. }
  rewrite Hg1. cbn [sheet with_sheet]. unfold direct.
  rewrite F1, M1, M2, N1, N2, G4, Hh. repeat split. exact G1.
Qed.

(** ** Presses, taps and the wheel *)

(** [primeDragContextFromTarget] writes the drag origin, [inScroll] and
    possibly [scrollAreaRef], and nothing else. *)
Lemma prime_shape (found : option nat) (g : Gesture) :
  exists oel top a1 a2 b sa,
    primeDragContextFromTarget opts found g
    = set_origin oel top a1 a2
        (with_sheet (set_inScroll b) (set_scrollAreaRef sa g)).
Proof.
  unfold primeDragContextFromTarget.
  set (g0 := set_origin None 0 false false
               (with_sheet (set_inScroll false) g)).
  assert (forall g1 sa scrollEl,
             g1 = set_origin None 0 false false
                    (with_sheet (set_inScroll false)
                       (set_scrollAreaRef sa g)) ->
             exists oel top a1 a2 b sa1,
               match scrollEl with
               | Some el =>
                   if isScrollable (dom g1 el)
                   then set_origin (Some el) (scrollTop (dom g1 el))
                          (atTop (dom g1 el)) (atBottom (dom g1 el))
                          (with_sheet (set_inScroll true) g1)
                   else g1
               | None => g1
               end
               = set_origin oel top a1 a2
                   (with_sheet (set_inScroll b) (set_scrollAreaRef sa1 g)))
    as Hfin.
  { intros g1 sa scrollEl ->. destruct scrollEl as [el|].
    - destruct (isScrollable _).
      + do 4 eexists. exists true, sa. reflexivity.
      + exists None, 0, false, false, false, sa. reflexivity.
    - exists None, 0, false, false, false, sa. reflexivity. }
  destruct (scrollAreaRef g0) as [el|] eqn:Esa.
  - apply (Hfin g0 (Some el) (Some el)). unfold g0.
    change (scrollAreaRef g = Some el) in Esa. rewrite <- Esa. reflexivity.
  - change (scrollAreaRef g = None) in Esa.
    assert (g0 = set_origin None 0 false false
                   (with_sheet (set_inScroll false)
                      (set_scrollAreaRef None g))) as Hg0.
    { unfold g0. rewrite <- Esa. reflexivity. }
    destruct (autoFindScrollArea opts && _);
      [|apply (Hfin g0 None found), Hg0].
    destruct (bsScroll g0) as [el|]; [|apply (Hfin g0 None found), Hg0].
    apply (Hfin (set_scrollAreaRef (Some el) g0) (Some el) (Some el)).
    reflexivity.
Qed.

Lemma onPointerDown_accepted (e : PointerEv) (now : Q) (g : Gesture) :
  accepted opts e g ->
  onPointerDown opts e now g
  = maybeHandleDoubleTap opts (clientY e) now
      (primeDragContextFromTarget opts (ancestor e)
         (with_sheet
            (fun s => set_axisLocked None
                        (set_preDrag true
                           (set_startY (clientY e)
                              (set_activePointerId (Some (pointerId e)) s))))
            (set_startX (clientX e) g))).
Proof.
  intros (Ho & Hb & Hd & Hc). unfold onPointerDown. rewrite Ho, Hd, Hc.
  cbn [negb].
  replace (isMouse e && negb (Z.eqb (button e) 0)) with false; [reflexivity|].
  symmetry. destruct Hb as [->| ->]; [reflexivity|].
  apply andb_false_r.
Qed.

(** What an accepted press leaves in the state, whether or not it counted
    as the second tap of a double tap. *)
Lemma press_frame (e : PointerEv) (now : Q) (g : Gesture) :
  accepted opts e g ->
  let g1 := onPointerDown opts e now g in
  preDrag (sheet g1) = true /\ axisLocked (sheet g1) = None
  /\ activePointerId (sheet g1) = Some (pointerId e)
  /\ startY (sheet g1) = clientY e /\ startX g1 = clientX e
  /\ dragging (sheet g1) = dragging (sheet g)
  /\ isOpen (sheet g1) = true
  /\ sheetHeight (sheet g1) = sheetHeight (sheet g)
  /\ snapPointsRef (sheet g1) = snapPointsRef (sheet g)
  /\ isMobile g1 = isMobile g
  /\ (enableDoubleTapToMax opts = true ->
      lastTapTs g1 = now /\ lastTapY g1 = clientY e).
Proof.
  intros Hacc g1. unfold g1. rewrite (onPointerDown_accepted e now g Hacc).
  destruct Hacc as (Ho & _).
  match goal with
  | |- context [primeDragContextFromTarget opts ?f ?g0] =>
      destruct (prime_shape f g0) as (oel & top & a1 & a2 & b & sa & ->)
  end.
  unfold maybeHandleDoubleTap.
  destruct (enableDoubleTapToMax opts); cbn [negb].
  - destruct (_ && _); gesture_fields;
      [unfold snapToIndex, snapTo;
       destruct (negb true || _); gesture_fields|];
      repeat split; try assumption; try (intros _; split; reflexivity).
  - gesture_fields. repeat split; try assumption; discriminate.
Qed.

(** X27.  Double tap. A second accepted press that follows the first within
    [doubleTapMaxDelayMs], at a height within [doubleTapMaxMovePx] of it,
    sends the sheet to snap index 0: one [snap] event with index 0 and the
    first snap value, and the offset of that snap point. The time is
    measured from press to press; the release in between changes nothing. *)
Theorem double_tap_snaps_to_first (e0 e1 : PointerEv) (t0 t1 : Q)
  (g : Gesture) :
  enableDoubleTapToMax opts = true ->
  accepted opts e0 g -> accepted opts e1 g ->
  dragging (sheet g) = false ->
  t1 - t0 < doubleTapMaxDelayMs opts ->
  Qabs (clientY e1 - clientY e0) < doubleTapMaxMovePx opts ->
  let g1 := onPointerDown opts e0 t0 g in
  let g2 := onPointerUp cfg e0 g1 in
  let g3 := onPointerDown opts e1 t1 g2 in
  let p0 := nth 0 (snaps (sheet g)) 0 in
  g2 = g1
  /\ events (sheet g3) = events (sheet g1) ++ [EvSnap 0 p0]
  /\ translateY (sheet g3) = clamp01 p0 * offsetHeight_or 0 (sheet g)
  /\ lastSnapIndexMem (sheet g3) = 0.
Proof.
  intros Hen Hacc0 Hacc1 Hd Ht Hy g1 g2 g3 p0.
  destruct (press_frame e0 t0 g Hacc0)
    as (P1 & P2 & P3 & P4 & P5 & P6 & P7 & P8 & P9 & P10 & P11).
  fold g1 in P1, P2, P3, P4, P5, P6, P7, P8, P9, P10, P11.
  destruct (P11 Hen) as [Hts Hty].
  assert (g2 = g1) as Hg2.
  { unfold g2, onPointerUp, endDragG. rewrite P6, Hd.
    destruct (isActivePointer e0 g1); reflexivity. }
  split; [exact Hg2|].
  assert (accepted opts e1 g1) as Hacc1'.
  { destruct Hacc1 as (_ & Hb & Hdb & Hc). split; [exact P7|].
    split; [exact Hb|]. split; [|exact Hc].
    unfold desktopBlocked in *. rewrite P10. exact Hdb. }
  unfold g3. rewrite Hg2, (onPointerDown_accepted e1 t1 g1 Hacc1').
  match goal with
  | |- context [primeDragContextFromTarget opts ?f ?g0] =>
      destruct (prime_shape f g0) as (oel & top & a1 & a2 & b & sa & ->)
  end.
  unfold maybeHandleDoubleTap. rewrite Hen. cbn [negb]. gesture_fields.
  rewrite Hts, Hty.
  replace (Qltb (t1 - t0) (doubleTapMaxDelayMs opts)) with true
    by (symmetry; apply Qltb_lt; exact Ht).
  replace (Qltb (Qabs (clientY e1 - clientY e0)) (doubleTapMaxMovePx opts))
    with true by (symmetry; apply Qltb_lt; exact Hy).
  cbn [andb]. gesture_fields.
  match goal with
  | |- context [snapToIndex 0 true ?s0] =>
      destruct (snapToIndex_fields 0 true s0) as (E1 & E2 & E3 & _);
      assert (snaps s0 = snaps (sheet g)) as Hsn
        by (unfold snaps; gesture_fields; rewrite P9; reflexivity);
      assert (offsetHeight_or 0 s0 = offsetHeight_or 0 (sheet g)) as Hh
        by (unfold offsetHeight_or; gesture_fields; rewrite P8; reflexivity);
      assert (clampIndex (snaps s0) 0 = 0%Z) as Hci
  end.
  { pose proof (clampIndex_in_range (snaps (sheet g)) 0
                  (snaps_of_nonempty _)) as Hr.
    rewrite Hsn. unfold clampIndex in *.
    change (toInt32 0) with 0%Z in *. lia. }
  cbv zeta in E1, E2, E3. rewrite Hci in E1, E2, E3.
  rewrite Hsn in E1. rewrite Hsn in E3. rewrite Hh in E3.
  split; [exact E1|]. split; [exact E3 | exact E2].
Qed.

(** X28.  A release that ends no drag. [onPointerUp] resets the gesture only
    through [endDrag], which returns at once when no drag is active: after a
    press that is released without a drag, the press is still pending and
    the pointer id still set, so the next move that leaves the threshold
    square near the vertical starts a drag, measured from the point of that
    press. *)
Theorem release_without_drag_keeps_press (e0 e1 : PointerEv) (t0 t1 : Q)
  (g : Gesture) :
  accepted opts e0 g -> dragging (sheet g) = false ->
  let g1 := onPointerDown opts e0 t0 g in
  let g2 := onPointerUp cfg e0 g1 in
  let g3 := onPointerMove cfg opts angleDeg e1 t1 g2 in
  let dx := Qabs (clientX e1 - clientX e0) in
  let dy := Qabs (clientY e1 - clientY e0) in
  inScroll (sheet g1) = false ->
  axisLockThresholdPx opts <= dx \/ axisLockThresholdPx opts <= dy ->
  90 - axisLockAngleDeg opts <= angleDeg dy dx ->
  g2 = g1
  /\ preDrag (sheet g2) = true
  /\ activePointerId (sheet g2) = Some (pointerId e0)
  /\ dragging (sheet g3) = true
  /\ exists rest,
       events (sheet g3) = events (sheet g1) ++ EvDragStart :: rest.
Proof.
  intros Hacc Hd g1 g2 g3 dx dy Hin Hthr Hang.
  destruct (press_frame e0 t0 g Hacc)
    as (P1 & P2 & P3 & P4 & P5 & P6 & _).
  fold g1 in P1, P2, P3, P4, P5, P6.
  assert (g2 = g1) as Hg2.
  { unfold g2, onPointerUp, endDragG. rewrite P6, Hd.
    destruct (isActivePointer e0 g1); reflexivity. }
  split; [exact Hg2|]. rewrite Hg2. split; [exact P1|]. split; [exact P3|].
  assert (evaluateAxisLock opts angleDeg (clientX e1) (clientY e1) t1 g1
          = begin_drag (clientY e1) t1 g1) as Hlock.
  { apply lock_vertical; [exact P1 | exact P2 | | | left; exact Hin];
      rewrite ?P4, ?P5; assumption. }
  unfold g3, onPointerMove. rewrite Hg2, P1, Hlock.
  assert (dragging (sheet (begin_drag (clientY e1) t1 g1)) = true) as Hdb
    by reflexivity.
  rewrite Hdb. cbn [andb].
  destruct (isActivePointer e1 (begin_drag (clientY e1) t1 g1)).
  - cbn [sheet with_sheet].
    destruct (moveDrag_frame (clientY e1) t1
                (sheet (begin_drag (clientY e1) t1 g1))) as (F1 & _).
    rewrite F1. split; [exact Hdb|].
    rewrite (moveDrag_events _ _ _ Hdb).
    change (events (sheet (begin_drag (clientY e1) t1 g1)))
      with (events (sheet g1) ++ [EvDragStart]).
    rewrite <- app_assoc. eexists. reflexivity.
  - split; [exact Hdb|]. exists []. reflexivity.
Qed.




End GestureFacts.

Lemma horizontal_lock_ignores_gesture_witness :
  preDrag (sheet pressed400) = true
  /\ axisLocked
       (sheet (onPointerMove defaultConfig defaultInput axisAngle
                 (pointerAt 80 100) 1016 pressed400)) = Some AxisX
  /\ exec_all defaultConfig defaultInput axisAngle
       [OPointerMove (pointerAt 80 300) 1032; OPointerUp (pointerAt 80 300)]
       (1%Z, onPointerMove defaultConfig defaultInput axisAngle
               (pointerAt 80 100) 1016 pressed400)
     = Some (1%Z, onPointerMove defaultConfig defaultInput axisAngle
                    (pointerAt 80 100) 1016 pressed400).
Proof.
  assert (axisLockThresholdPx defaultInput
          <= Qabs (clientX (pointerAt 80 100) - startX pressed400)
          \/ axisLockThresholdPx defaultInput
             <= Qabs (clientY (pointerAt 80 100) - startY (sheet pressed400)))
    as Hthr by (left; discriminate).
  assert (axisAngle
            (Qabs (clientY (pointerAt 80 100) - startY (sheet pressed400)))
            (Qabs (clientX (pointerAt 80 100) - startX pressed400))
          < 90 - axisLockAngleDeg defaultInput) as Hang by reflexivity.
  pose proof (horizontal_lock_ignores_gesture defaultConfig defaultInput
                axisAngle (pointerAt 80 100) 1016 1%Z pressed400
                [OPointerMove (pointerAt 80 300) 1032;
                 OPointerUp (pointerAt 80 300)]
                eq_refl eq_refl eq_refl Hthr Hang eq_refl) as H.
  cbv zeta in H. destruct H as (H1 & _ & _ & _ & H5).
  split; [reflexivity|]. split; [exact H1 | exact H5].
Defined.

Lemma scroll_region_blocks_pull_down_witness :
  scroll_held 1 pressed_in_scroll
  /\ startY (sheet pressed_in_scroll) = 100
  /\ exists g1,
       exec_all defaultConfig defaultInput axisAngle
         [OPointerMove (pointerAt 50 130) 1016;
          OPointerMove (pointerAt 52 300) 1032;
          OPointerUp (pointerAt 52 300)]
         (1%Z, pressed_in_scroll) = Some (1%Z, g1)
       /\ dragging (sheet g1) = false
       /\ events (sheet g1) = [].
Proof.
  assert (scroll_held 1 pressed_in_scroll) as Hheld
    by (repeat split; reflexivity).
  assert (Forall (pulls_down (startY (sheet pressed_in_scroll)))
            [OPointerMove (pointerAt 50 130) 1016;
             OPointerMove (pointerAt 52 300) 1032;
             OPointerUp (pointerAt 52 300)]) as Hops.
  { constructor; [reflexivity|]. constructor; [reflexivity|].
    constructor; [exact I | constructor]. }
  destruct (scroll_region_blocks_pull_down defaultConfig defaultInput
              axisAngle 1 1%Z pressed_in_scroll _ Hheld Hops)
    as (g1 & E & Hd & Hev & _).
  split; [exact Hheld|]. split; [reflexivity|].
  exists g1. split; [exact E|]. split; [exact Hd|]. rewrite Hev. reflexivity.
Defined.

Lemma vertical_lock_starts_drag_witness :
  preDrag (sheet pressed400) = true
  /\ inScroll (sheet pressed400) = false
  /\ dragging (sheet dragging400) = true
  /\ translateY (sheet dragging400) == 20.
Proof.
  assert (axisLockThresholdPx defaultInput
          <= Qabs (clientX (pointerAt 50 120) - startX pressed400)
          \/ axisLockThresholdPx defaultInput
             <= Qabs (clientY (pointerAt 50 120) - startY (sheet pressed400)))
    as Hthr by (right; discriminate).
  assert (90 - axisLockAngleDeg defaultInput
          <= axisAngle
               (Qabs (clientY (pointerAt 50 120) - startY (sheet pressed400)))
               (Qabs (clientX (pointerAt 50 120) - startX pressed400)))
    as Hang by discriminate.
  assert (0 <= clientY (pointerAt 50 120) - startY (sheet pressed400)
          <= offsetHeight_or 0 (sheet pressed400)) as Hdy
    by (split; discriminate).
  pose proof (vertical_lock_starts_drag defaultConfig defaultInput axisAngle
                (pointerAt 50 120) 1016 pressed400
                eq_refl eq_refl eq_refl eq_refl Hthr Hang
                (or_introl eq_refl) Hdy) as H.
  cbv zeta in H. destruct H as (H1 & _ & _ & H4 & _).
  split; [reflexivity|]. split; [reflexivity|]. split; [exact H1|].
  unfold dragging400. rewrite H4. reflexivity.
Defined.

Lemma drag_offset_ignores_path_witness :
  dragging (sheet dragging400) = true
  /\ translateY
       (sheet (onPointerMove defaultConfig defaultInput axisAngle
                 (pointerAt 50 180) 1048
                 (pointerMoves defaultConfig defaultInput axisAngle
                    [(pointerAt 50 300, 1032);
                     (mkPointerEv false 0 2 50 50 true None, 1040)]
                    dragging400)))
     == 80.
Proof.
  pose proof (drag_offset_ignores_path defaultConfig defaultInput axisAngle
                [(pointerAt 50 300, 1032);
                 (mkPointerEv false 0 2 50 50 true None, 1040)]
                (pointerAt 50 180) 1048 dragging400
                eq_refl eq_refl eq_refl) as H.
  cbv zeta in H. destruct H as (_ & H2 & _).
  split; [reflexivity|]. rewrite H2. reflexivity.
Defined.

Lemma double_tap_snaps_to_first_witness :
  accepted defaultInput (pointerAt 50 100) phone400
  /\ events
       (sheet (onPointerDown defaultInput (pointerAt 52 104) 1180
                 (onPointerUp defaultConfig (pointerAt 50 100) pressed400)))
     = [EvSnap 0 0].
Proof.
  assert (accepted defaultInput (pointerAt 50 100) phone400) as Hacc0
    by (split; [reflexivity|]; split; [left; reflexivity|];
        split; reflexivity).
  assert (accepted defaultInput (pointerAt 52 104) phone400) as Hacc1
    by (split; [reflexivity|]; split; [left; reflexivity|];
        split; reflexivity).
  pose proof (double_tap_snaps_to_first defaultConfig defaultInput
                (pointerAt 50 100) (pointerAt 52 104) 1000 1180 phone400
                eq_refl Hacc0 Hacc1 eq_refl ltac:(reflexivity)
                ltac:(reflexivity)) as H.
  cbv zeta in H. destruct H as (_ & H2 & _).
  split; [exact Hacc0|]. unfold pressed400. rewrite H2. reflexivity.
Defined.

Lemma release_without_drag_keeps_press_witness :
  accepted defaultInput (pointerAt 50 100) phone400
  /\ preDrag (sheet (onPointerUp defaultConfig (pointerAt 50 100) pressed400))
     = true
  /\ dragging
       (sheet (onPointerMove defaultConfig defaultInput axisAngle
                 (pointerAt 50 120) 1016
                 (onPointerUp defaultConfig (pointerAt 50 100) pressed400)))
     = true.
Proof.
  assert (accepted defaultInput (pointerAt 50 100) phone400) as Hacc0
    by (split; [reflexivity|]; split; [left; reflexivity|];
        split; reflexivity).
  assert (axisLockThresholdPx defaultInput
          <= Qabs (clientX (pointerAt 50 120) - clientX (pointerAt 50 100))
          \/ axisLockThresholdPx defaultInput
             <= Qabs (clientY (pointerAt 50 120) - clientY (pointerAt 50 100)))
    as Hthr by (right; discriminate).
  assert (90 - axisLockAngleDeg defaultInput
          <= axisAngle
               (Qabs (clientY (pointerAt 50 120) - clientY (pointerAt 50 100)))
               (Qabs (clientX (pointerAt 50 120) - clientX (pointerAt 50 100))))
    as Hang by discriminate.
  pose proof (release_without_drag_keeps_press defaultConfig defaultInput
                axisAngle (pointerAt 50 100) (pointerAt 50 120) 1000 1016
                phone400 Hacc0 eq_refl eq_refl Hthr Hang) as H.
  cbv zeta in H. destruct H as (_ & H2 & _ & H4 & _).
  split; [exact Hacc0|]. split; [exact H2 | exact H4].
Defined.

